(** * BillGen: receipt table, dashboard statistics, CSV export and upload validation

    A shallow embedding of the TypeScript sources

      - [src/types/receipt.ts]            (the [Receipt] and [ReceiptStats] records, the
                                           category table and the receipt generator),
      - [src/components/ReceiptTable.tsx] (the filter and sort engine, the sort state and
                                           what a row shows),
      - [src/pages/Index.tsx]             (the page with [handleFileUpload] and
                                           [handleExport], followed in the same file by
                                           [ReceiptUpload] and [Dashboard]),

    together with the part of the JavaScript runtime these sources call:
    strings, [parseFloat], [Number.prototype.toFixed], [Array.prototype.sort],
    ordinary objects used as maps, and [Date].

    Conventions.
    - A JavaScript [number] stored in a record (an amount, a confidence) is a finite
      value and is modelled by an exact rational of [Q]; every finite binary64 value is
      such a rational.  Which records are selected and how they are ordered does not
      depend on rounding.  The sums and quotients of [Dashboard] are kept exact: what is
      proved of them is which amounts are added and in which order, never an identity
      between sums that the runtime rounds separately.
    - Where rounding decides (the bounds that [parseFloat] reads, the average times the
      count) the value is rounded to binary64 by [JS.roundBinary64]; the total and the
      average are evaluated with it in module [Binary64].
    - [NaN] and the infinities appear only where the runtime produces them
      ([parseFloat], an invalid [Date], a comparator), as the type [number].
    - A time value is an integer number of milliseconds since the epoch; an invalid
      [Date] is [None].  The local time zone is a fixed offset from UTC.
    - What the host decides (the time zone, the collation behind [localeCompare], the
      digits of [Number::toString] for very large values, the dates it reads outside
      the Date Time String Format) is a field of [Host].
    - A text is a string of code units below 256. *)

From Stdlib Require Import List ZArith NArith QArith Qround Qabs Qpower Bool Ascii String.
From Stdlib Require Import Lia Lqa.
From Stdlib Require Import Permutation Sorted SetoidList SetoidPermutation OrderedTypeEx.
From Stdlib Require Import DecimalString PrimFloat Uint63 FloatOps SpecFloat.
From Stdlib Require DecimalFacts DecimalN.
Import ListNotations.

Local Open Scope string_scope.
Local Open Scope list_scope.

(* ===================================================================== *)
(** * The runtime: strings, numbers, arrays and objects                   *)
(* ===================================================================== *)

Module JS.

(** ** Strings *)

(** A text is a [string] of code units below 256, the Basic Latin and Latin-1
    Supplement blocks of Unicode.

    One code unit of [String.prototype.toLowerCase].  The upper-case letters of these
    blocks are A to Z (65 to 90), and in Latin-1 the letters from 192 to 214 and from
    216 to 222; the lower-case letter of each is 32 above it.  Every other code unit
    (215 is the multiplication sign, 223 the sharp s) maps to itself. *)
Definition lowerChar (c : ascii) : ascii :=
  let n := nat_of_ascii c in
  if ((65 <=? n)%nat && (n <=? 90)%nat)
     || ((192 <=? n)%nat && (n <=? 214)%nat)
     || ((216 <=? n)%nat && (n <=? 222)%nat)
  then ascii_of_nat (n + 32) else c.

Fixpoint toLowerCase (s : string) : string :=
  match s with
  | EmptyString => EmptyString
  | String c rest => String (lowerChar c) (toLowerCase rest)
  end.

(** [String.prototype.includes]: [searchString] occurs somewhere in [s]. *)
Fixpoint String_includes (s searchString : string) : bool :=
  String.prefix searchString s
  || match s with
     | EmptyString => false
     | String _ rest => String_includes rest searchString
     end.

(** [Array.prototype.join] on an array of strings. *)
Definition Array_join (l : list string) (separator : string) : string :=
  String.concat separator l.

(** ** Numbers *)

(** A number value as the runtime can produce it. *)
Inductive number : Type :=
| Finite (q : Q)
| NaN
| PosInfinity
| NegInfinity.

Definition Qgtb (x y : Q) : bool := negb (Qle_bool x y).

(** [Math.floor] and [Math.round] (halves go up) on a finite number. *)
Definition Math_floor (x : Q) : Z := Qfloor x.

Definition Math_round (x : Q) : Z := Qfloor (x + (1 # 2)).

(** Unary minus. *)
Definition neg (x : number) : number :=
  match x with
  | Finite q => Finite (- q)
  | NaN => NaN
  | PosInfinity => NegInfinity
  | NegInfinity => PosInfinity
  end.

(** [x > 0]; false for [NaN]. *)
Definition positive (x : number) : bool :=
  match x with
  | Finite q => Qgtb q 0
  | PosInfinity => true
  | NaN | NegInfinity => false
  end.

(** [x >= y] and [x <= y] for a finite [x]; a comparison with [NaN] is false. *)
Definition geb (x : Q) (y : number) : bool :=
  match y with
  | Finite q => Qle_bool q x
  | NegInfinity => true
  | NaN | PosInfinity => false
  end.

Definition leb (x : Q) (y : number) : bool :=
  match y with
  | Finite q => Qle_bool x q
  | PosInfinity => true
  | NaN | NegInfinity => false
  end.

(** The difference of two integers that may be [NaN] (time values). *)
Definition subtract (x y : option Z) : number :=
  match x, y with
  | Some a, Some b => Finite (inject_Z (a - b))
  | _, _ => NaN
  end.

(** [x === y] on values that may be [NaN]: [NaN] is equal to nothing. *)
Definition strictEquals (x y : option Z) : bool :=
  match x, y with
  | Some a, Some b => (a =? b)%Z
  | _, _ => false
  end.

(** ** [Array.prototype.sort]

    The sort is stable.  For a consistent comparator its result is the one stable
    sorted permutation of the input, which insertion from the right computes.  A
    comparator result that is [NaN] counts as [+0] (the sort's SortCompare step). *)
Section Sort.
Context {A : Type} (comparefn : A -> A -> number).

Fixpoint insert (x : A) (sorted : list A) : list A :=
  match sorted with
  | [] => [x]
  | y :: rest => if positive (comparefn x y) then y :: insert x rest else x :: sorted
  end.

Definition Array_sort (l : list A) : list A := fold_right insert [] l.

End Sort.

(** What ECMAScript calls a consistent comparator, for a comparator with integer
    results: reflexivity and symmetry of [= 0], transitivity of [= 0], [< 0], [> 0]. *)
Record ConsistentComparator {A : Type} (cmp : A -> A -> Z) : Prop := {
  cc_refl : forall a, cmp a a = 0%Z;
  cc_sym : forall a b, cmp a b = 0%Z -> cmp b a = 0%Z;
  cc_trans_eq : forall a b c, cmp a b = 0%Z -> cmp b c = 0%Z -> cmp a c = 0%Z;
  cc_trans_lt : forall a b c, (cmp a b < 0)%Z -> (cmp b c < 0)%Z -> (cmp a c < 0)%Z;
  cc_trans_gt : forall a b c, (cmp a b > 0)%Z -> (cmp b c > 0)%Z -> (cmp a c > 0)%Z
}.

(** ** Ordinary objects used as maps from strings

    An object literal [{}] has no own property and inherits those of
    [Object.prototype].  The own properties are kept in creation order. *)

(** A property value: a number, or a string that is not the text of a number (what
    adding a number to an inherited function or object gives). *)
Inductive value (A : Type) : Type :=
| Num (a : A)
| Text.
Arguments Num {A} a.
Arguments Text {A}.

Definition object (A : Type) : Type := list (string * value A).

(** The property names of [Object.prototype]. *)
Definition ObjectPrototype : list string :=
  ["constructor"; "hasOwnProperty"; "isPrototypeOf"; "propertyIsEnumerable";
   "toLocaleString"; "toString"; "valueOf"; "__proto__";
   "__defineGetter__"; "__defineSetter__"; "__lookupGetter__"; "__lookupSetter__"].

Definition inherited (key : string) : bool :=
  existsb (String.eqb key) ObjectPrototype.

Fixpoint getOwn {A : Type} (o : object A) (key : string) : option (value A) :=
  match o with
  | [] => None
  | (k, v) :: rest => if String.eqb k key then Some v else getOwn rest key
  end.

(** [o[key] = v] for a [key] other than [__proto__]: an own property keeps its
    place, a new one is created last. *)
Fixpoint setOwn {A : Type} (o : object A) (key : string) (v : value A) : object A :=
  match o with
  | [] => [(key, v)]
  | (k, w) :: rest =>
      if String.eqb k key then (k, v) :: rest else (k, w) :: setOwn rest key v
  end.

(** The statement [acc[key] = (acc[key] || 0) + x] for a number [x].
    - an own number [n] (truthy or [0]) gives [n + x];
    - a missing property that [Object.prototype] does not have gives [0 + x];
    - a string, or an inherited function or object, is truthy and [+] concatenates:
      the result is a string;
    - assigning a string to [__proto__] runs the inherited setter, which ignores it. *)
Definition accumulate {A : Type} (zero : A) (add : A -> A -> A)
  (acc : object A) (key : string) (x : A) : object A :=
  if String.eqb key "__proto__" then acc
  else
    match getOwn acc key with
    | Some (Num n) => setOwn acc key (Num (add n x))
    | Some Text => setOwn acc key Text
    | None =>
        if inherited key then setOwn acc key Text
        else setOwn acc key (Num (add zero x))
    end.

Definition isDigit (c : ascii) : bool :=
  let n := nat_of_ascii c in (48 <=? n)%nat && (n <=? 57)%nat.

Definition digitValue (c : ascii) : Z := Z.of_nat (nat_of_ascii c - 48).

(** The value of a string of decimal digits, most significant first. *)
Fixpoint digitsValue (acc : Z) (s : string) : Z :=
  match s with
  | EmptyString => acc
  | String c rest => digitsValue (10 * acc + digitValue c) rest
  end.

Fixpoint allDigits (s : string) : bool :=
  match s with
  | EmptyString => true
  | String c rest => isDigit c && allDigits rest
  end.

(** An array index: the canonical decimal text of an integer below [2^32 - 1]. *)
Definition arrayIndex (key : string) : option Z :=
  match key with
  | EmptyString => None
  | String c rest =>
      if allDigits key
         && (negb (Ascii.eqb c "0") || String.eqb rest EmptyString)
         && (String.length key <=? 10)%nat
         && (digitsValue 0 key <? 4294967295)%Z
      then Some (digitsValue 0 key)
      else None
  end.

Definition isArrayIndex (key : string) : bool :=
  match arrayIndex key with Some _ => true | None => false end.

Definition indexOrder {A : Type} (p q : string * A) : number :=
  subtract (arrayIndex (fst p)) (arrayIndex (fst q)).

(** [Object.entries]: the array-index keys in ascending numeric order, then the
    other keys in creation order. *)
Definition Object_entries {A : Type} (o : object A) : list (string * value A) :=
  Array_sort indexOrder (filter (fun p => isArrayIndex (fst p)) o)
  ++ filter (fun p => negb (isArrayIndex (fst p))) o.

(** ** The host *)

(** What the host environment decides.
    - [LocalTZA]: the offset of local time from UTC, in milliseconds;
    - [localeCompare]: the collation of [String.prototype.localeCompare];
    - [NumberToString]: [Number::toString], used by [toFixed] from [10^21] on;
    - [DateFallback]: what [Date.parse] makes of a string that is not a valid
      instance of the Date Time String Format, for which ECMAScript lets the
      implementation fall back to formats of its own: a time value, or [None] for
      [NaN]. *)
Record Host : Type := mkHost {
  LocalTZA : Z;
  localeCompare : string -> string -> Z;
  NumberToString : Q -> string;
  DateFallback : string -> option Z
}.

(** ** Rounding to binary64

    The Number value for a real number: the nearest value of the IEEE 754 binary64
    format, ties to the even significand; an infinity from [2^1024 - 2^970] on.  A
    zero is [+0]. *)

Definition pow2 (e : Z) : Q := Qpower 2 e.

(** The exponent [e] with [2^e <= x < 2^(e+1)], for a positive [x]: the difference
    of the binary lengths of numerator and denominator, or one less. *)
Definition ilog2 (x : Q) : Z :=
  let e := (Z.log2 (Qnum x) - Z.log2 (Zpos (Qden x)))%Z in
  if Qle_bool (pow2 e) x then e else (e - 1)%Z.

(** The nearest integer, the even one of two that are equally near. *)
Definition roundHalfEven (x : Q) : Z :=
  let n := Qfloor x in
  match Qcompare (x - inject_Z n) (1 # 2) with
  | Lt => n
  | Gt => (n + 1)%Z
  | Eq => if Z.even n then n else (n + 1)%Z
  end.

(** The distance between neighbouring values around a positive [x]: [2^(e-52)] for
    the exponent [e] of [x], which is at least [-1022] (below [2^-1022] the values
    are evenly spaced). *)
Definition ulp (x : Q) : Q := pow2 (Z.max (ilog2 x) (-1022) - 52).

Definition roundPositive (x : Q) : number :=
  let v := Qred (inject_Z (roundHalfEven (x / ulp x)) * ulp x) in
  if Qle_bool (pow2 1024) v then PosInfinity else Finite v.

Definition roundBinary64 (x : Q) : number :=
  match Qcompare x 0 with
  | Eq => Finite 0
  | Gt => roundPositive x
  | Lt => neg (roundPositive (- x))
  end.

(** ** [parseFloat] *)

Definition isWhiteSpace (c : ascii) : bool :=
  let n := nat_of_ascii c in
  ((9 <=? n)%nat && (n <=? 13)%nat) || (n =? 32)%nat || (n =? 160)%nat.

Fixpoint trimStart (s : string) : string :=
  match s with
  | EmptyString => EmptyString
  | String c rest => if isWhiteSpace c then trimStart rest else s
  end.

(** The longest prefix of decimal digits, and what follows it. *)
Fixpoint takeDigits (s : string) : string * string :=
  match s with
  | EmptyString => (EmptyString, EmptyString)
  | String c rest =>
      if isDigit c then let '(ds, tl) := takeDigits rest in (String c ds, tl)
      else (EmptyString, s)
  end.

Definition pow10 (e : Z) : Q :=
  if (0 <=? e)%Z then inject_Z (10 ^ e) else 1 # Z.to_pos (10 ^ (- e)).

(** ExponentPart, when one follows: [e] or [E], an optional sign, digits. *)
Definition exponentPart (s : string) : Z :=
  match s with
  | String c rest =>
      if Ascii.eqb c "e" || Ascii.eqb c "E" then
        let '(sign, body) :=
          match rest with
          | String "+" r => (1%Z, r)
          | String "-" r => ((-1)%Z, r)
          | _ => (1%Z, rest)
          end in
        let '(ds, _) := takeDigits body in
        if String.eqb ds EmptyString then 0%Z else (sign * digitsValue 0 ds)%Z
      else 0%Z
  | EmptyString => 0%Z
  end.

(** The Number value of the longest prefix that is a StrUnsignedDecimalLiteral: the
    decimal it denotes, rounded. *)
Definition unsignedDecimal (s : string) : number :=
  if String.prefix "Infinity" s then PosInfinity
  else
    let '(int, afterInt) := takeDigits s in
    match afterInt with
    | String "." afterDot =>
        let '(frac, afterFrac) := takeDigits afterDot in
        if String.eqb int EmptyString && String.eqb frac EmptyString then NaN
        else
          roundBinary64 (inject_Z (digitsValue 0 (int ++ frac)%string)
                         * pow10 (exponentPart afterFrac - Z.of_nat (String.length frac)))
    | _ =>
        if String.eqb int EmptyString then NaN
        else roundBinary64 (inject_Z (digitsValue 0 int) * pow10 (exponentPart afterInt))
    end.

Definition parseFloat (s : string) : number :=
  match trimStart s with
  | String "+" rest => unsignedDecimal rest
  | String "-" rest => neg (unsignedDecimal rest)
  | trimmed => unsignedDecimal trimmed
  end.

(** ** [Number.prototype.toFixed] *)

(** The decimal digits of a natural number, with no leading zero. *)
Definition decimal (n : Z) : string :=
  NilZero.string_of_uint (N.to_uint (Z.to_N n)).

Fixpoint zeros (k : nat) : string :=
  match k with
  | O => EmptyString
  | S k' => String "0" (zeros k')
  end.

(** The steps of [x.toFixed(fractionDigits)] for a finite [x]. *)
Definition toFixed (h : Host) (x : Q) (fractionDigits : nat) : string :=
  let f := fractionDigits in
  let '(s, x) := if Qgtb 0 x then ("-", (- x)%Q) else (EmptyString, x) in
  let m :=
    if Qle_bool (inject_Z (10 ^ 21)) x then NumberToString h x
    else
      (* the integer n for which n / 10^f - x is closest to zero, the larger of two *)
      let n := Qfloor (x * inject_Z (10 ^ Z.of_nat f) + (1 # 2)) in
      let m := if (n =? 0)%Z then "0" else decimal n in
      if (f =? 0)%nat then m
      else
        let k := String.length m in
        let m := if (k <=? f)%nat then (zeros (f + 1 - k) ++ m)%string else m in
        let k := String.length m in
        let a := String.substring 0 (k - f) m in
        let b := String.substring (k - f) f m in
        (a ++ "." ++ b)%string
  in
  (s ++ m)%string.

(** ** [Date]

    A time value is a number of milliseconds since 1970-01-01T00:00:00Z.  A [Date]
    holds a time value or is invalid ([None]). *)

Local Open Scope Z_scope.

Definition msPerDay : Z := 86400000.

Definition Day (t : Z) : Z := t / msPerDay.

Definition TimeWithinDay (t : Z) : Z := t mod msPerDay.

Definition DaysInYear (y : Z) : Z :=
  if negb (y mod 4 =? 0) then 365
  else if negb (y mod 100 =? 0) then 366
  else if negb (y mod 400 =? 0) then 365
  else 366.

Definition DayFromYear (y : Z) : Z :=
  365 * (y - 1970) + (y - 1969) / 4 - (y - 1901) / 100 + (y - 1601) / 400.

Definition TimeFromYear (y : Z) : Z := msPerDay * DayFromYear y.

(** The largest year [y] with [DayFromYear y <= d]: an estimate from the mean length
    of a year, corrected by at most one. *)
Definition YearFromDay (d : Z) : Z :=
  let y := 1970 + (400 * d) / 146097 in
  if d <? DayFromYear y then y - 1
  else if DayFromYear (y + 1) <=? d then y + 1
  else y.

Definition YearFromTime (t : Z) : Z := YearFromDay (Day t).

Definition leapDays (y : Z) : Z := if DaysInYear y =? 366 then 1 else 0.

Definition InLeapYear (t : Z) : Z := leapDays (YearFromTime t).

Definition DayWithinYear (t : Z) : Z := Day t - DayFromYear (YearFromTime t).

(** The month (0 to 11) that holds day [d] of a year, [leap] being 1 in a leap
    year and 0 otherwise. *)
Definition monthOfDay (leap d : Z) : Z :=
  if d <? 31 then 0
  else if d <? 59 + leap then 1
  else if d <? 90 + leap then 2
  else if d <? 120 + leap then 3
  else if d <? 151 + leap then 4
  else if d <? 181 + leap then 5
  else if d <? 212 + leap then 6
  else if d <? 243 + leap then 7
  else if d <? 273 + leap then 8
  else if d <? 304 + leap then 9
  else if d <? 334 + leap then 10
  else 11.

Definition MonthFromTime (t : Z) : Z := monthOfDay (InLeapYear t) (DayWithinYear t).

(** The day within the year on which month [m] (0 to 11) starts. *)
Definition monthStart (leap m : Z) : Z :=
  if m =? 0 then 0
  else if m =? 1 then 31
  else if m =? 2 then 59 + leap
  else if m =? 3 then 90 + leap
  else if m =? 4 then 120 + leap
  else if m =? 5 then 151 + leap
  else if m =? 6 then 181 + leap
  else if m =? 7 then 212 + leap
  else if m =? 8 then 243 + leap
  else if m =? 9 then 273 + leap
  else if m =? 10 then 304 + leap
  else 334 + leap.

Definition DateFromTime (t : Z) : Z :=
  DayWithinYear t - monthStart (InLeapYear t) (MonthFromTime t) + 1.

(** The number of days of month [m] (0 to 11) of year [y]. *)
Definition DaysInMonth (y m : Z) : Z :=
  if m =? 11 then 31 else monthStart (leapDays y) (m + 1) - monthStart (leapDays y) m.

Definition LocalTime (h : Host) (t : Z) : Z := t + LocalTZA h.

Definition UTC (h : Host) (t : Z) : Z := t - LocalTZA h.

(** [MakeDay]: the day number of the given date of month [month mod 12] of year
    [year + floor(month / 12)]. *)
Definition MakeDay (year month date : Z) : Z :=
  let ym := year + month / 12 in
  let mn := month mod 12 in
  DayFromYear ym + monthStart (leapDays ym) mn + date - 1.

Definition MakeDate (day time : Z) : Z := day * msPerDay + time.

Definition TimeClip (t : Z) : option Z :=
  if Z.abs t >? 8640000000000000 then None else Some t.

(** [new Date(year, month, date)]: local midnight; a year from 0 to 99 counts from
    1900. *)
Definition Date_local (h : Host) (year month date : Z) : option Z :=
  let yr := if (0 <=? year) && (year <=? 99) then 1900 + year else year in
  TimeClip (UTC h (MakeDate (MakeDay yr month date) 0)).

(** *** The Date Time String Format

    [YYYY], [YYYY-MM] or [YYYY-MM-DD], where the year may be an expanded year of a
    sign and six digits; then nothing, or [T] and [HH:mm], [HH:mm:ss] or
    [HH:mm:ss.sss], with nothing, [Z], [+HH:mm] or [-HH:mm] after it. *)

(** Exactly [n] decimal digits at the head of [s]: their value and what follows. *)
Fixpoint digitsHead (n : nat) (acc : Z) (s : string) : option (Z * string) :=
  match n, s with
  | O, _ => Some (acc, s)
  | S n', String c rest =>
      if isDigit c then digitsHead n' (10 * acc + digitValue c) rest else None
  | S _, EmptyString => None
  end.

(** A separator and [n] digits. *)
Definition field (separator : ascii) (n : nat) (s : string) : option (Z * string) :=
  match s with
  | String c rest => if Ascii.eqb c separator then digitsHead n 0 rest else None
  | EmptyString => None
  end.

Definition startsWith (c : ascii) (s : string) : bool :=
  match s with
  | String c' _ => Ascii.eqb c' c
  | EmptyString => false
  end.

(** The year: four digits, or a sign and six digits other than [-000000]. *)
Definition yearHead (s : string) : option (Z * string) :=
  if startsWith "+" s then field "+" 6 s
  else if startsWith "-" s then
    match field "-" 6 s with
    | Some (y, rest) => if y =? 0 then None else Some (- y, rest)
    | None => None
    end
  else digitsHead 4 0 s.

(** The date: a month or a day that is left out is the first. *)
Definition dateHead (s : string) : option (Z * Z * Z * string) :=
  match yearHead s with
  | Some (y, afterYear) =>
      if startsWith "-" afterYear then
        match field "-" 2 afterYear with
        | Some (m, afterMonth) =>
            if startsWith "-" afterMonth then
              match field "-" 2 afterMonth with
              | Some (d, afterDay) => Some (y, m, d, afterDay)
              | None => None
              end
            else Some (y, m, 1, afterMonth)
        | None => None
        end
      else Some (y, 1, 1, afterYear)
  | None => None
  end.

Definition MakeTime (hour min sec ms : Z) : Z :=
  hour * 3600000 + min * 60000 + sec * 1000 + ms.

(** Hours from 00 to 24, minutes and seconds from 00 to 59; 24 only as 24:00:00,
    the end of the day. *)
Definition validTime (hour min sec ms : Z) : bool :=
  ((hour <=? 23) && (min <=? 59) && (sec <=? 59))
  || ((hour =? 24) && (min =? 0) && (sec =? 0) && (ms =? 0)).

(** The seconds and milliseconds after [HH:mm], zero when left out. *)
Definition secondsHead (s : string) : option (Z * Z * string) :=
  if startsWith ":" s then
    match field ":" 2 s with
    | Some (sec, afterSeconds) =>
        if startsWith "." afterSeconds then
          match field "." 3 afterSeconds with
          | Some (ms, rest) => Some (sec, ms, rest)
          | None => None
          end
        else Some (sec, 0, afterSeconds)
    | None => None
    end
  else Some (0, 0, s).

(** The time within the day, in milliseconds. *)
Definition timeHead (s : string) : option (Z * string) :=
  match digitsHead 2 0 s with
  | Some (hour, afterHours) =>
      match field ":" 2 afterHours with
      | Some (min, afterMinutes) =>
          match secondsHead afterMinutes with
          | Some (sec, ms, rest) =>
              if validTime hour min sec ms then Some (MakeTime hour min sec ms, rest)
              else None
          | None => None
          end
      | None => None
      end
  | None => None
  end.

(** The offset of the time from UTC in milliseconds: [Z] is UTC, [+HH:mm] is ahead
    of UTC and [-HH:mm] behind it; with no offset the time is local time. *)
Definition offsetOf (h : Host) (s : string) : option Z :=
  if String.eqb s EmptyString then Some (LocalTZA h)
  else if String.eqb s "Z" then Some 0
  else if startsWith "+" s || startsWith "-" s then
    match s with
    | String _ rest =>
        match digitsHead 2 0 rest with
        | Some (hour, afterHours) =>
            match field ":" 2 afterHours with
            | Some (min, afterMinutes) =>
                if String.eqb afterMinutes EmptyString && (hour <=? 23) && (min <=? 59)
                then Some ((if startsWith "+" s then 1 else -1) * MakeTime hour min 0 0)
                else None
            | None => None
            end
        | None => None
        end
    | EmptyString => None
    end
  else None.

(** The time value of a string of the format whose elements are in range.  A date
    alone is midnight UTC of that day. *)
Definition dateTime (h : Host) (s : string) : option Z :=
  match dateHead s with
  | Some (y, m, d, afterDate) =>
      if (1 <=? m) && (m <=? 12) && (1 <=? d) && (d <=? DaysInMonth y (m - 1)) then
        let day := MakeDay y (m - 1) d in
        if String.eqb afterDate EmptyString then Some (MakeDate day 0)
        else if startsWith "T" afterDate then
          match afterDate with
          | String _ afterT =>
              match timeHead afterT with
              | Some (time, afterTime) =>
                  match offsetOf h afterTime with
                  | Some offset => Some (MakeDate day time - offset)
                  | None => None
                  end
              | None => None
              end
          | EmptyString => None
          end
        else None
      else None
  | None => None
  end.

(** [new Date(string)], that is [Date.parse]: the time value of a string of the Date
    Time String Format; for every other string, which includes one of the format
    with an element out of range (a 30th of February), what the host makes of it. *)
Definition Date_parse (h : Host) (s : string) : option Z :=
  match dateTime h s with
  | Some t => TimeClip t
  | None =>
      match DateFallback h s with
      | Some t => TimeClip t
      | None => None
      end
  end.

(** The fields of a string of the date-only form [YYYY-MM-DD] with a year of four
    digits. *)
Definition parseISODate (s : string) : option (Z * Z * Z) :=
  match s with
  | String y1 (String y2 (String y3 (String y4 (String dash1
      (String m1 (String m2 (String dash2 (String d1 (String d2 EmptyString))))))))) =>
      if Ascii.eqb dash1 "-" && Ascii.eqb dash2 "-"
         && forallb isDigit [y1; y2; y3; y4; m1; m2; d1; d2]
      then
        Some (1000 * digitValue y1 + 100 * digitValue y2 + 10 * digitValue y3 + digitValue y4,
              10 * digitValue m1 + digitValue m2,
              10 * digitValue d1 + digitValue d2)
      else None
  | _ => None
  end.

Definition getTime (d : option Z) : option Z := d.

Definition getFullYear (h : Host) (d : option Z) : option Z :=
  option_map (fun t => YearFromTime (LocalTime h t)) d.

Definition getMonth (h : Host) (d : option Z) : option Z :=
  option_map (fun t => MonthFromTime (LocalTime h t)) d.

Definition getDate (h : Host) (d : option Z) : option Z :=
  option_map (fun t => DateFromTime (LocalTime h t)) d.

(** [date.setDate(dt)] on a valid date: the new time value. *)
Definition setDate (h : Host) (t : Z) (dt : Z) : option Z :=
  let local := LocalTime h t in
  let newDate :=
    MakeDate (MakeDay (YearFromTime local) (MonthFromTime local) dt) (TimeWithinDay local) in
  TimeClip (UTC h newDate).

Definition monthShort (m : Z) : string :=
  nth (Z.to_nat m)
      ["Jan"; "Feb"; "Mar"; "Apr"; "May"; "Jun"; "Jul"; "Aug"; "Sep"; "Oct"; "Nov"; "Dec"]
      EmptyString.

(** [toLocaleDateString('en-US', { month: 'short', year: 'numeric' })]. *)
Definition toLocaleDateString_short (h : Host) (d : option Z) : string :=
  match d with
  | None => "Invalid Date"
  | Some t =>
      let y := YearFromTime (LocalTime h t) in
      let month := monthShort (MonthFromTime (LocalTime h t)) in
      let year := decimal (if 1 <=? y then y else 1 - y) in
      (month ++ " " ++ year)%string
  end.

Definition pad (width : nat) (n : Z) : string :=
  let s := decimal n in (zeros (width - String.length s) ++ s)%string.

(** [toISOString().split('T')[0]]: the UTC date of a time value. *)
Definition toISODate (t : Z) : string :=
  let y := YearFromTime t in
  let year :=
    if (0 <=? y) && (y <=? 9999) then pad 4 y
    else if 0 <=? y then String "+" (pad 6 y)
    else String "-" (pad 6 (- y)) in
  let month := pad 2 (MonthFromTime t + 1) in
  let date := pad 2 (DateFromTime t) in
  (year ++ "-" ++ month ++ "-" ++ date)%string.


(** ** Arithmetic on number values

    The quotient and the product on values that may be [NaN] or infinite, exact on
    finite values (module [Binary64] rounds them).  A zero is [+0]: no operation of
    these sources gives [-0]. *)

Local Close Scope Z_scope.

Definition sign (q : Q) : comparison := Qcompare q 0.

Definition infinity (s : comparison) : number :=
  match s with
  | Gt => PosInfinity
  | Lt => NegInfinity
  | Eq => NaN
  end.

Definition flip (s : comparison) : comparison :=
  match s with
  | Gt => Lt
  | Lt => Gt
  | Eq => Eq
  end.

(** [x / y]. *)
Definition divide (x y : number) : number :=
  match x, y with
  | NaN, _ | _, NaN => NaN
  | Finite a, Finite b =>
      match sign b with
      | Eq => infinity (sign a)
      | _ => Finite (a / b)
      end
  | Finite _, (PosInfinity | NegInfinity) => Finite 0
  | PosInfinity, Finite b => match sign b with Lt => NegInfinity | _ => PosInfinity end
  | NegInfinity, Finite b => match sign b with Lt => PosInfinity | _ => NegInfinity end
  | (PosInfinity | NegInfinity), (PosInfinity | NegInfinity) => NaN
  end.

(** [x * y]. *)
Definition times (x y : number) : number :=
  match x, y with
  | NaN, _ | _, NaN => NaN
  | Finite a, Finite b => Finite (a * b)
  | Finite a, PosInfinity | PosInfinity, Finite a => infinity (sign a)
  | Finite a, NegInfinity | NegInfinity, Finite a => infinity (flip (sign a))
  | PosInfinity, PosInfinity | NegInfinity, NegInfinity => PosInfinity
  | PosInfinity, NegInfinity | NegInfinity, PosInfinity => NegInfinity
  end.

(** [Math.abs] on a finite value. *)
Definition Math_abs (x : Q) : Q := if Qgtb 0 x then - x else x.

(** The larger of a number value and a finite value; [NaN] stays [NaN]. *)
Definition larger (best : number) (v : Q) : number :=
  match best with
  | Finite b => if Qgtb v b then Finite v else Finite b
  | NegInfinity => Finite v
  | PosInfinity => PosInfinity
  | NaN => NaN
  end.

(** [Math.max(...values)] on finite values: [-Infinity] when there is none. *)
Definition Math_max (values : list Q) : number :=
  fold_left larger values NegInfinity.

(** ** Property access on an object literal

    What [o[key]] gives for an object literal [o] whose own properties hold values
    of type [A]: the own property, else what [Object.prototype] has under that name
    (a function, whose [name] is kept, or through the getter [__proto__] the
    prototype itself), else [undefined]. *)
Inductive property (A : Type) : Type :=
| Own (a : A)
| InheritedFunction (name : string)
| InheritedObject
| Undefined.
Arguments Own {A} a.
Arguments InheritedFunction {A} name.
Arguments InheritedObject {A}.
Arguments Undefined {A}.

Definition get {A : Type} (o : list (string * A)) (key : string) : property A :=
  match find (fun entry => String.eqb (fst entry) key) o with
  | Some (_, a) => Own a
  | None =>
      if String.eqb key "__proto__" then InheritedObject
      else if inherited key then
        InheritedFunction (if String.eqb key "constructor" then "Object" else key)
      else Undefined
  end.

End JS.

(* ===================================================================== *)
(** * Records ([src/types/receipt.ts])                                    *)
(* ===================================================================== *)

Module Receipts.

Record Receipt : Type := mkReceipt {
  id : string;
  vendor : string;
  date : string;
  amount : Q;
  category : string;
  fileName : string;
  fileType : string;
  confidence : Q
}.

(** An entry [{ month, amount }] of [monthlyTrend]. *)
Module Trend.
Record point : Type := mkPoint { month : string; amount : Q }.
End Trend.

Record ReceiptStats : Type := mkStats {
  totalReceipts : nat;
  totalAmount : Q;
  averageAmount : Q;
  medianAmount : Q;
  topVendor : string;
  currentMonthSpend : Q;
  lastMonthSpend : Q;
  categoryBreakdown : JS.object Q;
  monthlyTrend : list Trend.point
}.

(** ** [generateMockReceipt] *)

Definition vendors : list string :=
  ["Walmart"; "Target"; "Amazon"; "Costco"; "Home Depot"; "Starbucks";
   "McDonald's"; "Shell"; "Verizon"; "AT&T"; "Netflix"; "Spotify";
   "Best Buy"; "CVS Pharmacy"; "Whole Foods"; "Safeway"; "Kroger"].

Definition vendorCategories : list (string * string) :=
  [("Walmart", "groceries"); ("Target", "shopping"); ("Amazon", "shopping");
   ("Costco", "groceries"); ("Home Depot", "other"); ("Starbucks", "dining");
   ("McDonald's", "dining"); ("Shell", "transportation"); ("Verizon", "utilities");
   ("AT&T", "utilities"); ("Netflix", "entertainment"); ("Spotify", "entertainment");
   ("Best Buy", "shopping"); ("CVS Pharmacy", "healthcare"); ("Whole Foods", "groceries");
   ("Safeway", "groceries"); ("Kroger", "groceries")].

(** [vendorCategories[vendor] || 'other'], which is only called on a name of
    [vendors]. *)
Definition getRandomCategory (vendor : string) : string :=
  match find (fun entry => String.eqb (fst entry) vendor) vendorCategories with
  | Some (_, category) => if String.eqb category EmptyString then "other" else category
  | None => "other"
  end.

(** What one call draws: the results of its calls of [Math.random()], each at least
    0 and less than 1, in the order of the calls; for the identifier, the text that
    [Math.random().toString(36).substring(7)] gives. *)
Record Random : Type := mkRandom {
  forVendor : Q;
  forAmount : Q;
  forDaysAgo : Q;
  identifier : string;
  forConfidence : Q
}.

(** [generateMockReceipt(file)] for a file of the given name and type, [now] being the
    time value of its [new Date()].  [None] stands for the RangeError that
    [toISOString] throws on an invalid date. *)
Definition generateMockReceipt (h : JS.Host) (now : Z) (name type : string)
  (random : Random) : option Receipt :=
  let randomVendor :=
    nth (Z.to_nat (JS.Math_floor (forVendor random * inject_Z (Z.of_nat (length vendors)))))
        vendors EmptyString in
  let randomAmount :=
    inject_Z (JS.Math_round ((forAmount random * 200 + 5) * 100)) / 100 in
  let randomDaysAgo := JS.Math_floor (forDaysAgo random * 365) in
  match JS.getDate h (Some now) with
  | None => None
  | Some today =>
      match JS.setDate h now (today - randomDaysAgo) with
      | None => None
      | Some t =>
          Some (mkReceipt (identifier random) randomVendor (JS.toISODate t) randomAmount
                  (getRandomCategory randomVendor) name type
                  (inject_Z (JS.Math_round ((forConfidence random * (3 # 10) + (7 # 10)) * 100))
                   / 100))
      end
  end.


(** ** [receiptCategories] *)

(** The configuration of a category.  Its third field, [icon], holds an emoji that
    no component reads; it is left out. *)
Module Category.
Record config : Type := mkConfig { name : string; color : string }.
End Category.

Definition receiptCategories : list (string * Category.config) :=
  [("groceries", Category.mkConfig "Groceries" "bg-green-500");
   ("utilities", Category.mkConfig "Utilities" "bg-blue-500");
   ("internet", Category.mkConfig "Internet" "bg-purple-500");
   ("dining", Category.mkConfig "Dining" "bg-orange-500");
   ("transportation", Category.mkConfig "Transportation" "bg-red-500");
   ("shopping", Category.mkConfig "Shopping" "bg-pink-500");
   ("healthcare", Category.mkConfig "Healthcare" "bg-teal-500");
   ("entertainment", Category.mkConfig "Entertainment" "bg-indigo-500");
   ("education", Category.mkConfig "Education" "bg-amber-500");
   ("other", Category.mkConfig "Other" "bg-gray-500")].

End Receipts.
(* ===================================================================== *)
(** * The filter and sort engine ([src/components/ReceiptTable.tsx])      *)
(* ===================================================================== *)

Module ReceiptTable.
Import Receipts.

Module SortField.
Inductive t : Type := date | amount | vendor | category.
End SortField.

Module SortDirection.
Inductive t : Type := asc | desc.
End SortDirection.

(** The component state: one field per [useState]. *)
Record State : Type := mkState {
  searchTerm : string;
  categoryFilter : string;
  dateFilter : string;
  sortField : SortField.t;
  sortDirection : SortDirection.t;
  amountMin : string;
  amountMax : string
}.

Definition initialState : State :=
  mkState EmptyString "all" "all" SortField.date SortDirection.desc EmptyString EmptyString.

Section Engine.
(** [now] is the time value of [new Date()] during the evaluation. *)
Variables (h : JS.Host) (now : Z) (st : State).

Definition matchesSearch (receipt : Receipt) : bool :=
  let searchFields :=
    JS.toLowerCase (JS.Array_join [vendor receipt; category receipt] " ") in
  String.eqb (searchTerm st) EmptyString
  || JS.String_includes searchFields (JS.toLowerCase (searchTerm st)).

Definition matchesCategory (receipt : Receipt) : bool :=
  String.eqb (categoryFilter st) "all"
  || String.eqb (category receipt) (categoryFilter st).

(** [a >= b] on two dates: on their time values, false when one is invalid. *)
Definition dateGeb (a b : option Z) : bool :=
  match a, b with
  | Some x, Some y => (y <=? x)%Z
  | _, _ => false
  end.

Definition matchesDate (receipt : Receipt) : bool :=
  let receiptDate := JS.Date_parse h (date receipt) in
  if String.eqb (dateFilter st) "last30" then
    let thirtyDaysAgo := JS.TimeClip (now - 30 * 24 * 60 * 60 * 1000)%Z in
    dateGeb receiptDate thirtyDaysAgo
  else if String.eqb (dateFilter st) "last90" then
    let ninetyDaysAgo := JS.TimeClip (now - 90 * 24 * 60 * 60 * 1000)%Z in
    dateGeb receiptDate ninetyDaysAgo
  else if String.eqb (dateFilter st) "thisYear" then
    JS.strictEquals (JS.getFullYear h receiptDate) (JS.getFullYear h (Some now))
  else true.

Definition matchesAmount (receipt : Receipt) : bool :=
  (String.eqb (amountMin st) EmptyString
   || JS.geb (amount receipt) (JS.parseFloat (amountMin st)))
  && (String.eqb (amountMax st) EmptyString
      || JS.leb (amount receipt) (JS.parseFloat (amountMax st))).

(** The callback of [receipts.filter]. *)
Definition keeps (receipt : Receipt) : bool :=
  matchesSearch receipt && matchesCategory receipt
  && matchesDate receipt && matchesAmount receipt.

(** The [switch (sortField)] of the comparator. *)
Definition comparison (a b : Receipt) : JS.number :=
  match sortField st with
  | SortField.date =>
      JS.subtract (JS.getTime (JS.Date_parse h (date a)))
                  (JS.getTime (JS.Date_parse h (date b)))
  | SortField.amount => JS.Finite (amount a - amount b)
  | SortField.vendor =>
      JS.Finite (inject_Z (JS.localeCompare h (vendor a) (vendor b)))
  | SortField.category =>
      JS.Finite (inject_Z (JS.localeCompare h (category a) (category b)))
  end.

(** The comparator given to [filtered.sort]. *)
Definition compare (a b : Receipt) : JS.number :=
  match sortDirection st with
  | SortDirection.asc => comparison a b
  | SortDirection.desc => JS.neg (comparison a b)
  end.

Definition filteredAndSortedReceipts (receipts : list Receipt) : list Receipt :=
  let filtered := filter keeps receipts in
  JS.Array_sort compare filtered.

End Engine.

Definition handleSort (st : State) (field : SortField.t) : State :=
  let same :=
    match sortField st, field with
    | SortField.date, SortField.date
    | SortField.amount, SortField.amount
    | SortField.vendor, SortField.vendor
    | SortField.category, SortField.category => true
    | _, _ => false
    end in
  if same then
    mkState (searchTerm st) (categoryFilter st) (dateFilter st) (sortField st)
            (match sortDirection st with
             | SortDirection.asc => SortDirection.desc
             | SortDirection.desc => SortDirection.asc
             end)
            (amountMin st) (amountMax st)
  else
    mkState (searchTerm st) (categoryFilter st) (dateFilter st) field
            SortDirection.asc (amountMin st) (amountMax st).


(** ** What a row shows *)

(** [getCategoryColor]: [categoryConfig?.color || 'bg-muted'].  A function and the
    prototype object have no property [color]. *)
Definition getCategoryColor (category : string) : string :=
  match JS.get receiptCategories category with
  | JS.Own categoryConfig =>
      if String.eqb (Category.color categoryConfig) EmptyString then "bg-muted"
      else Category.color categoryConfig
  | _ => "bg-muted"
  end.

(** The text of the badge, [receiptCategories[receipt.category]?.name || receipt.category].
    A function has a [name]; the prototype object has none. *)
Definition badgeText (receipt : Receipt) : string :=
  match JS.get receiptCategories (category receipt) with
  | JS.Own categoryConfig =>
      if String.eqb (Category.name categoryConfig) EmptyString then category receipt
      else Category.name categoryConfig
  | JS.InheritedFunction name =>
      if String.eqb name EmptyString then category receipt else name
  | _ => category receipt
  end.

(** The values of the category filter's options: ['all'] and
    [Object.keys(receiptCategories)]. *)
Definition categoryOptions : list string := "all" :: map fst receiptCategories.

(** ** [SortIcon] *)

Inductive Icon : Type :=
| SortAsc (className : string)
| SortDesc (className : string).

Definition sameField (a b : SortField.t) : bool :=
  match a, b with
  | SortField.date, SortField.date
  | SortField.amount, SortField.amount
  | SortField.vendor, SortField.vendor
  | SortField.category, SortField.category => true
  | _, _ => false
  end.

Definition SortIcon (st : State) (field : SortField.t) : Icon :=
  if negb (sameField (sortField st) field) then SortAsc "h-4 w-4 opacity-30"
  else
    match sortDirection st with
    | SortDirection.asc => SortAsc "h-4 w-4 text-primary"
    | SortDirection.desc => SortDesc "h-4 w-4 text-primary"
    end.


(** ** The setters of the filter controls

    The search box, the date select and the two amount inputs each write one cell of
    the state. *)

Definition setSearchTerm (st : State) (value : string) : State :=
  mkState value (categoryFilter st) (dateFilter st) (sortField st) (sortDirection st)
          (amountMin st) (amountMax st).

Definition setDateFilter (st : State) (value : string) : State :=
  mkState (searchTerm st) (categoryFilter st) value (sortField st) (sortDirection st)
          (amountMin st) (amountMax st).

Definition setAmountMin (st : State) (value : string) : State :=
  mkState (searchTerm st) (categoryFilter st) (dateFilter st) (sortField st)
          (sortDirection st) value (amountMax st).

Definition setAmountMax (st : State) (value : string) : State :=
  mkState (searchTerm st) (categoryFilter st) (dateFilter st) (sortField st)
          (sortDirection st) (amountMin st) value.

End ReceiptTable.

(* ===================================================================== *)
(** * The aggregation engine ([Dashboard], third part of Index.tsx)       *)
(* ===================================================================== *)

Module Dashboard.
Import Receipts.

(** [receipts.reduce((sum, r) => sum + r.amount, 0)]. *)
Definition sumAmounts (receipts : list Receipt) : Q :=
  fold_left (fun sum r => sum + amount r) receipts 0.

(** The median; [None] stands for the TypeError of reading [.amount] of
    [undefined]. *)
Definition median (receipts : list Receipt) : option Q :=
  let sortedAmounts :=
    JS.Array_sort (fun a b => JS.Finite (amount a - amount b)) receipts in
  let length := List.length receipts in
  if (length mod 2 =? 0)%nat then
    match nth_error sortedAmounts (length / 2 - 1), nth_error sortedAmounts (length / 2) with
    | Some lower, Some upper => Some ((amount lower + amount upper) / 2)
    | _, _ => None
    end
  else
    match nth_error sortedAmounts (length / 2) with
    | Some middle => Some (amount middle)
    | None => None
    end.

Definition vendorCounts (receipts : list Receipt) : JS.object nat :=
  fold_left (fun acc receipt => JS.accumulate 0%nat Nat.add acc (vendor receipt) 1%nat)
            receipts [].

(** The comparator [([,a], [,b]) => b - a]; a string value makes it [NaN]. *)
Definition byCountDescending (p q : string * JS.value nat) : JS.number :=
  match snd p, snd q with
  | JS.Num a, JS.Num b => JS.Finite (inject_Z (Z.of_nat b - Z.of_nat a))
  | _, _ => JS.NaN
  end.

(** [Object.entries(vendorCounts).sort(...)[0]?.[0] || '']. *)
Definition mostFrequentVendor (receipts : list Receipt) : string :=
  match JS.Array_sort byCountDescending (JS.Object_entries (vendorCounts receipts)) with
  | (name, _) :: _ => if String.eqb name EmptyString then EmptyString else name
  | [] => EmptyString
  end.

Section Monthly.
Variables (h : JS.Host) (now : Z).

Definition currentMonth : Z := JS.MonthFromTime (JS.LocalTime h now).
Definition currentYear : Z := JS.YearFromTime (JS.LocalTime h now).
Definition lastMonth : Z := if (currentMonth =? 0)%Z then 11%Z else (currentMonth - 1)%Z.
Definition lastMonthYear : Z :=
  if (currentMonth =? 0)%Z then (currentYear - 1)%Z else currentYear.

(** The sum of the amounts of the receipts whose date has the given month and year,
    each of which may be [NaN]. *)
Definition spendIn (month year : option Z) (receipts : list Receipt) : Q :=
  sumAmounts
    (filter (fun r =>
               let date := JS.Date_parse h (date r) in
               JS.strictEquals (JS.getMonth h date) month
               && JS.strictEquals (JS.getFullYear h date) year)
            receipts).

Definition categoryTotals (receipts : list Receipt) : JS.object Q :=
  fold_left (fun acc receipt => JS.accumulate 0 Qplus acc (category receipt) (amount receipt))
            receipts [].

(** One turn of the loop [for (let i = 5; i >= 0; i--)]. *)
Definition trendPoint (receipts : list Receipt) (i : nat) : Trend.point :=
  let targetDate := JS.Date_local h currentYear (currentMonth - Z.of_nat i) 1 in
  let monthStr := JS.toLocaleDateString_short h targetDate in
  let monthSpend :=
    spendIn (JS.getMonth h targetDate) (JS.getFullYear h targetDate) receipts in
  Trend.mkPoint monthStr monthSpend.

(** The loop from [i] down to [0], pushing one entry per turn. *)
Fixpoint trendFrom (receipts : list Receipt) (i : nat) : list Trend.point :=
  trendPoint receipts i
  :: match i with
     | O => []
     | S j => trendFrom receipts j
     end.

(** The body of [useMemo]; [None] stands for a thrown TypeError. *)
Definition stats (receipts : list Receipt) : option ReceiptStats :=
  if (List.length receipts =? 0)%nat then
    Some (mkStats 0 0 0 0 EmptyString 0 0 [] [])
  else
    let totalAmount := sumAmounts receipts in
    let averageAmount := totalAmount / inject_Z (Z.of_nat (List.length receipts)) in
    match median receipts with
    | None => None
    | Some medianAmount =>
        let topVendor := mostFrequentVendor receipts in
        let currentMonthSpend :=
          spendIn (Some currentMonth) (Some currentYear) receipts in
        let lastMonthSpend :=
          spendIn (Some lastMonth) (Some lastMonthYear) receipts in
        let categoryBreakdown := categoryTotals receipts in
        let monthlyTrend := trendFrom receipts 5 in
        Some (mkStats (List.length receipts) totalAmount averageAmount medianAmount
                      topVendor currentMonthSpend lastMonthSpend categoryBreakdown
                      monthlyTrend)
    end.

End Monthly.


(** ** What the cards show *)

(** [monthlyChange]: the divisor is positive where the quotient is taken. *)
Definition monthlyChange (stats : ReceiptStats) : Q :=
  if JS.Qgtb (lastMonthSpend stats) 0
  then (currentMonthSpend stats - lastMonthSpend stats) / lastMonthSpend stats * 100
  else 0.

Inductive TrendIcon : Type := TrendingUp | TrendingDown.

(** The line under last month's figure. *)
Module Change.
Record line : Type := mkLine { className : string; icon : TrendIcon; text : string }.
End Change.

(** The line is rendered when [stats.lastMonthSpend > 0]. *)
Definition changeLine (h : JS.Host) (stats : ReceiptStats) : option Change.line :=
  if JS.Qgtb (lastMonthSpend stats) 0 then
    let change := monthlyChange stats in
    Some (Change.mkLine
            ("flex items-center space-x-1 text-sm "
             ++ (if JS.Qgtb change 0 then "text-destructive"
                 else if JS.Qgtb 0 change then "text-accent"
                 else "text-muted-foreground"))%string
            (if JS.Qgtb change 0 then TrendingUp else TrendingDown)
            (JS.toFixed h (JS.Math_abs change) 1 ++ "% "
             ++ (if JS.Qgtb change 0 then "increase" else "decrease"))%string)
  else None.

(** The value of the fourth card, [stats.topVendor || 'N/A']. *)
Definition topVendorText (stats : ReceiptStats) : string :=
  if String.eqb (topVendor stats) EmptyString then "N/A" else topVendor stats.

(** ** Spending by category *)

(** What the callback of [.map(([category, amount]) => ...)] computes for one entry. *)
Module Breakdown.
Record row : Type := mkRow {
  category : string;
  name : string;
  color : string;
  amount : Q;
  percentage : JS.number
}.
End Breakdown.

(** The comparator [([,a], [,b]) => b - a]; a string value makes it [NaN]. *)
Definition byAmountDescending (p q : string * JS.value Q) : JS.number :=
  match snd p, snd q with
  | JS.Num a, JS.Num b => JS.Finite (b - a)
  | _, _ => JS.NaN
  end.

(** One row; [None] stands for the TypeError of calling [toFixed] on a string. *)
Definition categoryRow (stats : ReceiptStats) (entry : string * JS.value Q)
  : option Breakdown.row :=
  let '(category, value) := entry in
  match value with
  | JS.Num amount =>
      let percentage :=
        JS.times (JS.divide (JS.Finite amount) (JS.Finite (totalAmount stats)))
                 (JS.Finite 100) in
      let categoryInfo := JS.get receiptCategories category in
      Some (Breakdown.mkRow category
              (match categoryInfo with
               | JS.Own info =>
                   if String.eqb (Category.name info) EmptyString then category
                   else Category.name info
               | JS.InheritedFunction name =>
                   if String.eqb name EmptyString then category else name
               | _ => category
               end)
              (match categoryInfo with
               | JS.Own info =>
                   if String.eqb (Category.color info) EmptyString then "bg-muted"
                   else Category.color info
               | _ => "bg-muted"
               end)
              amount percentage)
  | JS.Text => None
  end.

(** [entries.map(callback)] for a callback that may throw. *)
Fixpoint mapRows (stats : ReceiptStats) (entries : list (string * JS.value Q))
  : option (list Breakdown.row) :=
  match entries with
  | [] => Some []
  | entry :: rest =>
      match categoryRow stats entry with
      | None => None
      | Some row =>
          match mapRows stats rest with
          | None => None
          | Some rows => Some (row :: rows)
          end
      end
  end.

(** [Object.entries(stats.categoryBreakdown).sort(...).slice(0, 6).map(...)]. *)
Definition categoryRows (stats : ReceiptStats) : option (list Breakdown.row) :=
  mapRows stats
    (firstn 6 (JS.Array_sort byAmountDescending (JS.Object_entries (categoryBreakdown stats)))).

(** ** The six-month trend *)

(** [barWidth] for one entry of the trend. *)
Definition barWidth (stats : ReceiptStats) (month : Trend.point) : JS.number :=
  let maxAmount := JS.Math_max (map Trend.amount (monthlyTrend stats)) in
  if JS.positive maxAmount
  then JS.times (JS.divide (JS.Finite (Trend.amount month)) maxAmount) (JS.Finite 100)
  else JS.Finite 0.

End Dashboard.

(* ===================================================================== *)
(** * The page ([Index], first part of Index.tsx)                         *)
(* ===================================================================== *)

Module Index.
Import Receipts.

(** What a handler does besides updating the state. *)
Inductive Effect : Type :=
| Toast (title description variant : string)
| Download (fileName : string) (content : string) (mimeType : string).

(** The state of the page: the three [useState] cells of [Index], and the state of
    the [ReceiptTable] it mounts. *)
Record State : Type := mkState {
  receipts : list Receipt;
  isProcessing : bool;
  activeTab : string;
  table : ReceiptTable.State
}.

Definition quote : string := String (ascii_of_nat 34) EmptyString.

Definition newline : string := String (ascii_of_nat 10) EmptyString.

Definition headers : list string :=
  ["Date"; "Vendor"; "Amount"; "Category"; "File"; "Confidence"].

(** The row of one receipt. *)
Definition row (h : JS.Host) (receipt : Receipt) : string :=
  JS.Array_join
    [date receipt;
     (quote ++ vendor receipt ++ quote)%string;
     JS.toFixed h (amount receipt) 2;
     category receipt;
     (quote ++ fileName receipt ++ quote)%string;
     JS.toFixed h (confidence receipt) 2]
    ",".

Definition csvContent (h : JS.Host) (receipts : list Receipt) : string :=
  JS.Array_join (JS.Array_join headers "," :: map (row h) receipts) newline.

(** [handleExport]: the state after it and its effects in order.  [now] is the time
    value of the [new Date()] that names the downloaded file. *)
Definition handleExport (h : JS.Host) (now : Z) (st : State) : State * list Effect :=
  if (List.length (receipts st) =? 0)%nat then
    (st, [Toast "No data to export" "Upload some receipts first." "destructive"])
  else
    let csv := csvContent h (receipts st) in
    (st, [Download ("receipt-data-" ++ JS.toISODate now ++ ".csv")%string csv "text/csv";
          Toast "Export successful" "Receipt data has been downloaded as CSV." "default"]).

End Index.

(* ===================================================================== *)
(** * The upload surface ([ReceiptUpload], second part of Index.tsx)      *)
(* ===================================================================== *)

Module ReceiptUpload.

(** The fields of a browser [File] that the component reads. *)
Record File := mkFile { name : string; type : string; size : N }.

(** A call of [toast({ title, description, variant })]. *)
Record Toast := mkToast { title : string; description : string; variant : string }.

(** [Array.prototype.includes] on an array of strings. *)
Definition Array_includes (l : list string) (s : string) : bool :=
  existsb (String.eqb s) l.

Definition allowedTypes : list string :=
  ["image/jpeg"; "image/png"; "application/pdf"; "text/plain"].

(** The 10 MB cap, [10 * 1024 * 1024] bytes. *)
Definition sizeLimit : N := 10 * 1024 * 1024.

Definition invalidType (file : File) : Toast :=
  mkToast "Invalid file type"
          (name file ++ " is not a supported format. Please upload JPG, PNG, PDF, or TXT files.")
          "destructive".

Definition tooLarge (file : File) : Toast :=
  mkToast "File too large" (name file ++ " exceeds 10MB limit.") "destructive".

(** The callback given to [newFiles.filter]: its verdict and the toasts it raises. *)
Definition check (file : File) : bool * list Toast :=
  if negb (Array_includes allowedTypes (type file)) then (false, [invalidType file])
  else if (sizeLimit <? size file)%N then (false, [tooLarge file])
  else (true, []).

(** [newFiles.filter(callback)], run from left to right; the toasts are collected in
    the order in which they are raised. *)
Fixpoint filterWithToasts (newFiles : list File) : list File * list Toast :=
  match newFiles with
  | [] => ([], [])
  | file :: rest =>
      let '(keep, raised) := check file in
      let '(validFiles, later) := filterWithToasts rest in
      ((if keep then file :: validFiles else validFiles), raised ++ later)
  end.

(** [handleFiles]: [files] is the component state, updated by
    [setFiles(prev => [...prev, ...validFiles])]. *)
Definition handleFiles (files : list File) (newFiles : list File)
  : list File * list Toast :=
  let '(validFiles, toasts) := filterWithToasts newFiles in
  (files ++ validFiles, toasts).

(** The acceptance condition as the specification words it. *)
Definition accepted (file : File) : Prop :=
  In (type file) ["image/jpeg"; "image/png"; "application/pdf"; "text/plain"]
  /\ (size file <= 10 * 1024 * 1024)%N.

Definition acceptedb (file : File) : bool :=
  fst (check file).

(** The notice raised for a rejected file. *)
Definition notice (file : File) : Toast :=
  if Array_includes allowedTypes (type file) then tooLarge file else invalidType file.


(** ** The component state and its other handlers *)

(** The two [useState] cells of the component. *)
Record State : Type := mkState { dragActive : bool; files : list File }.

Definition initialState : State := mkState false [].

(** What a handler does besides updating the state: a toast, or a call of the
    [onUpload] it was given. *)
Inductive Effect : Type :=
| Notify (toast : Toast)
| OnUpload (uploaded : list File).

(** [handleDrag], on the [type] of the event. *)
Definition handleDrag (st : State) (eventType : string) : State :=
  if String.eqb eventType "dragenter" || String.eqb eventType "dragover"
  then mkState true (files st)
  else if String.eqb eventType "dragleave" then mkState false (files st)
  else st.

(** [handleDrop], on the files of the drop. *)
Definition handleDrop (st : State) (droppedFiles : list File) : State * list Effect :=
  let '(selected, toasts) := handleFiles (files st) droppedFiles in
  (mkState false selected, map Notify toasts).

(** The [onChange] of the file input, [handleFiles(Array.from(e.target.files || []))]. *)
Definition handleChange (st : State) (chosen : list File) : State * list Effect :=
  let '(selected, toasts) := handleFiles (files st) chosen in
  (mkState (dragActive st) selected, map Notify toasts).

(** [l.filter((_, i) => keep(i))], [i] being the index of the first element of [l]. *)
Fixpoint filterByIndex {A : Type} (keep : nat -> bool) (i : nat) (l : list A) : list A :=
  match l with
  | [] => []
  | x :: rest =>
      if keep i then x :: filterByIndex keep (S i) rest else filterByIndex keep (S i) rest
  end.

(** [removeFile], called with an index of the rendered list. *)
Definition removeFile (st : State) (index : nat) : State :=
  mkState (dragActive st)
          (filterByIndex (fun i => negb (i =? index)%nat) 0 (files st)).

(** [handleSubmit]. *)
Definition handleSubmit (st : State) : State * list Effect :=
  if (List.length (files st) =? 0)%nat then
    (st, [Notify (mkToast "No files selected" "Please select files to upload." "destructive")])
  else
    (mkState (dragActive st) [], [OnUpload (files st)]).

End ReceiptUpload.


(* ===================================================================== *)
(** * Processing an upload ([handleFileUpload], first part of Index.tsx)  *)
(* ===================================================================== *)

Module Processing.
Import Receipts.

(** What the calls of [generateMockReceipt] made by [files.map] meet: for the call on
    the file at index [i], the time value of its [new Date()] and its draws. *)
Record Environment : Type := mkEnvironment {
  clock : nat -> Z;
  draws : nat -> Random
}.

(** [files.map(file => generateMockReceipt(file))] from the file at index [i] on;
    [None] when a call throws. *)
Fixpoint generateFrom (h : JS.Host) (env : Environment) (i : nat)
  (files : list ReceiptUpload.File) : option (list Receipt) :=
  match files with
  | [] => Some []
  | file :: rest =>
      match generateMockReceipt h (clock env i) (ReceiptUpload.name file)
                                (ReceiptUpload.type file) (draws env i) with
      | None => None
      | Some receipt =>
          match generateFrom h env (S i) rest with
          | None => None
          | Some receipts => Some (receipt :: receipts)
          end
      end
  end.

(** [handleFileUpload] up to its [await]: [setIsProcessing(true)]. *)
Definition beforeAwait (st : Index.State) : Index.State :=
  Index.mkState (Index.receipts st) true (Index.activeTab st) (Index.table st).

(** [handleFileUpload] from its [await] on, [st] being the state the updates meet:
    the [try] block, its [catch] and its [finally]. *)
Definition afterAwait (h : JS.Host) (env : Environment) (files : list ReceiptUpload.File)
  (st : Index.State) : Index.State * list Index.Effect :=
  match generateFrom h env 0 files with
  | Some newReceipts =>
      (Index.mkState (Index.receipts st ++ newReceipts) false "records" (Index.table st),
       [Index.Toast "Files processed successfully!"
          ("Extracted data from " ++ JS.decimal (Z.of_nat (List.length files)) ++ " file"
           ++ (if (1 <? List.length files)%nat then "s" else EmptyString))%string
          "default"])
  | None =>
      (Index.mkState (Index.receipts st) false (Index.activeTab st) (Index.table st),
       [Index.Toast "Processing failed"
          "There was an error processing your files. Please try again." "destructive"])
  end.

(** [handleFileUpload] when nothing else happens during the wait. *)
Definition handleFileUpload (h : JS.Host) (env : Environment)
  (files : list ReceiptUpload.File) (st : Index.State) : Index.State * list Index.Effect :=
  afterAwait h env files (beforeAwait st).

(** What [Index] renders under the records tab: the invitation to upload, or the
    table with its export button. *)
Inductive RecordsTab : Type :=
| UploadFirstReceipt
| Table (receipts : list Receipt).

Definition recordsTab (st : Index.State) : RecordsTab :=
  if (List.length (Index.receipts st) =? 0)%nat then UploadFirstReceipt
  else Table (Index.receipts st).

End Processing.
(* ===================================================================== *)
(** * The total and the average in binary64                               *)
(* ===================================================================== *)

(** The first two lines of the statistics in the arithmetic of the runtime, IEEE 754
    binary64 with rounding to nearest, ties to even: every sum, quotient and product
    is the exact one, rounded. *)
Module Binary64.
Import Receipts.

Definition rounded (x : JS.number) : JS.number :=
  match x with
  | JS.Finite q => JS.roundBinary64 q
  | other => other
  end.

(** [x + y]. *)
Definition plus (x y : JS.number) : JS.number :=
  match x, y with
  | JS.NaN, _ | _, JS.NaN => JS.NaN
  | JS.Finite a, JS.Finite b => JS.roundBinary64 (a + b)
  | JS.PosInfinity, JS.NegInfinity | JS.NegInfinity, JS.PosInfinity => JS.NaN
  | JS.PosInfinity, _ | _, JS.PosInfinity => JS.PosInfinity
  | JS.NegInfinity, _ | _, JS.NegInfinity => JS.NegInfinity
  end.

(** [x / y] and [x * y]. *)
Definition divide (x y : JS.number) : JS.number := rounded (JS.divide x y).

Definition times (x y : JS.number) : JS.number := rounded (JS.times x y).

(** [receipts.length] as a number. *)
Definition count (receipts : list Receipt) : JS.number :=
  JS.Finite (inject_Z (Z.of_nat (List.length receipts))).

(** [receipts.reduce((sum, receipt) => sum + receipt.amount, 0)]. *)
Definition totalAmount (receipts : list Receipt) : JS.number :=
  fold_left (fun sum receipt => plus sum (JS.Finite (amount receipt))) receipts (JS.Finite 0).

(** The average of the statistics: 0 for the empty set, else
    [totalAmount / receipts.length]. *)
Definition averageAmount (receipts : list Receipt) : JS.number :=
  if (List.length receipts =? 0)%nat then JS.Finite 0
  else divide (totalAmount receipts) (count receipts).

End Binary64.


(* ===================================================================== *)
(** * Sample data                                                         *)
(* ===================================================================== *)

Module Sample.
Import Receipts.

(** A collation: the order of the code units. *)
Definition byCodeUnits (a b : string) : Z :=
  match String.compare a b with
  | Eq => 0%Z
  | Lt => (-1)%Z
  | Gt => 1%Z
  end.

(** A host on UTC, and one five hours west of it; both read no date outside the
    Date Time String Format. *)
Definition utc : JS.Host := JS.mkHost 0 byCodeUnits (fun _ => "1e+21") (fun _ => None).
Definition newYork : JS.Host :=
  JS.mkHost (-18000000) byCodeUnits (fun _ => "1e+21") (fun _ => None).

(** 2024-03-15T17:00:00Z, which is noon of that day in [newYork]. *)
Definition now : Z := 1710522000000.

Definition coffee : Receipt :=
  mkReceipt "k3x9zq" "Starbucks" "2024-03-01" (575 # 100) "dining" "latte.jpg" "image/jpeg" (93 # 100).
Definition groceries : Receipt :=
  mkReceipt "p0a7mm" "Walmart" "2024-02-11" (8412 # 100) "groceries" "walmart.pdf" "application/pdf" (88 # 100).
Definition burger : Receipt :=
  mkReceipt "b81hc2" "McDonald's" "2023-12-24" (1230 # 100) "dining" "lunch.png" "image/png" (71 # 100).
Definition fuel : Receipt :=
  mkReceipt "z44e0t" "Shell" "2024-03-14" (4000 # 100) "transportation" "shell.txt" "text/plain" 1.

Definition receipts : list Receipt := [coffee; groceries; burger; fuel].

End Sample.

(* ===================================================================== *)
(** * [Array.prototype.sort]: permutation and order                       *)
(* ===================================================================== *)

Section SortFacts.
Context {A : Type} (comparefn : A -> A -> JS.number).

(** [x] may stay before [y]: the comparator does not ask for a swap. *)
Definition keepsOrder (x y : A) : Prop := JS.positive (comparefn x y) = false.

Lemma insert_perm (x : A) (l : list A) : Permutation (JS.insert comparefn x l) (x :: l).
Proof.
  induction l as [|y rest IH]; simpl; [reflexivity |].
  destruct (JS.positive (comparefn x y)); [| reflexivity].
  rewrite IH. apply perm_swap.
Qed.

Lemma Array_sort_perm (l : list A) : Permutation (JS.Array_sort comparefn l) l.
Proof.
  induction l as [|x rest IH]; simpl; [reflexivity |].
  rewrite insert_perm. now constructor.
Qed.

Lemma Array_sort_In (l : list A) (x : A) : In x (JS.Array_sort comparefn l) <-> In x l.
Proof.
  split; apply Permutation_in; [| symmetry]; apply Array_sort_perm.
Qed.

Lemma Array_sort_length (l : list A) : length (JS.Array_sort comparefn l) = length l.
Proof. apply Permutation_length, Array_sort_perm. Qed.

(** On a set [P] of elements where the comparator is total and transitive, the
    result is ordered. *)
Section Ordered.
Variable P : A -> Prop.
Hypothesis total : forall x y, P x -> P y -> JS.positive (comparefn x y) = true -> keepsOrder y x.
Hypothesis trans : forall x y z, P x -> P y -> P z ->
  keepsOrder x y -> keepsOrder y z -> keepsOrder x z.

Lemma insert_sorted (x : A) (l : list A) :
  P x -> Forall P l -> StronglySorted keepsOrder l ->
  StronglySorted keepsOrder (JS.insert comparefn x l).
Proof.
  intros Px Pl Hs. induction Hs as [|y rest Hrest IH Hy]; simpl.
  - constructor; constructor.
  - inversion Pl as [|? ? Py Prest]; subst.
    destruct (JS.positive (comparefn x y)) eqn:Hxy.
    + constructor; [now apply IH |].
      apply Forall_forall. intros z Hz.
      apply (Permutation_in _ (insert_perm x rest)) in Hz.
      destruct Hz as [<- | Hz]; [now apply total |].
      rewrite Forall_forall in Hy. now apply Hy.
    + constructor; [now constructor |].
      constructor; [exact Hxy |].
      apply Forall_forall. intros z Hz.
      rewrite Forall_forall in Hy, Prest.
      apply (trans x y z); auto.
Qed.

Lemma Array_sort_sorted (l : list A) :
  Forall P l -> StronglySorted keepsOrder (JS.Array_sort comparefn l).
Proof.
  induction 1 as [|x rest Px Prest IH]; simpl; [constructor |].
  apply insert_sorted; [exact Px | | exact IH].
  apply Forall_forall. intros z Hz. apply (proj1 (Array_sort_In _ _)) in Hz.
  rewrite Forall_forall in Prest. auto.
Qed.

End Ordered.
End SortFacts.

Lemma StronglySorted_weaken {A : Type} (P : A -> Prop) (R R' : A -> A -> Prop) (l : list A) :
  (forall a b, P a -> P b -> R a b -> R' a b) ->
  Forall P l -> StronglySorted R l -> StronglySorted R' l.
Proof.
  intros Himp Pl Hs. induction Hs as [|x rest Hrest IH Hx]; [constructor |].
  inversion Pl as [|? ? Px Prest]; subst.
  constructor; [auto |].
  rewrite Forall_forall in *. intros z Hz. apply Himp; auto.
Qed.

(* ===================================================================== *)
(** * The filter and sort engine: proofs                                  *)
(* ===================================================================== *)

Lemma positive_Finite_true (q : Q) : JS.positive (JS.Finite q) = true <-> 0 < q.
Proof.
  unfold JS.positive, JS.Qgtb. rewrite negb_true_iff.
  destruct (Qle_bool q 0) eqn:E.
  - apply Qle_bool_iff in E. split; [discriminate | intros; lra].
  - split; [intros _ | reflexivity].
    apply Qnot_le_lt. intros Hle. apply Qle_bool_iff in Hle. congruence.
Qed.

Lemma positive_Finite_false (q : Q) : JS.positive (JS.Finite q) = false <-> q <= 0.
Proof.
  destruct (JS.positive (JS.Finite q)) eqn:E.
  - apply positive_Finite_true in E. split; [discriminate | intros; lra].
  - split; [intros _ | reflexivity].
    apply Qnot_lt_le. intros Hlt. apply positive_Finite_true in Hlt. congruence.
Qed.

Lemma inject_Z_nonpos (z : Z) : inject_Z z <= 0 <-> (z <= 0)%Z.
Proof. rewrite (Zle_Qle z 0). reflexivity. Qed.

Lemma inject_Z_pos (z : Z) : 0 < inject_Z z <-> (0 < z)%Z.
Proof. rewrite (Zlt_Qlt 0 z). reflexivity. Qed.

(** Consequences of consistency. *)
Section Consistent.
Context {A : Type} (cmp : A -> A -> Z) (ok : JS.ConsistentComparator cmp).

Lemma cc_flip_gt (a b : A) : (cmp a b > 0)%Z -> (cmp b a < 0)%Z.
Proof.
  intros Hab. destruct (Z.lt_trichotomy (cmp b a) 0) as [H | [H | H]]; [exact H | |].
  - apply (JS.cc_sym cmp ok) in H. lia.
  - pose proof (JS.cc_trans_gt cmp ok a b a Hab ltac:(lia)) as Haa.
    rewrite (JS.cc_refl cmp ok) in Haa. lia.
Qed.

Lemma cc_flip_lt (a b : A) : (cmp a b < 0)%Z -> (cmp b a > 0)%Z.
Proof.
  intros Hab. destruct (Z.lt_trichotomy (cmp b a) 0) as [H | [H | H]]; [| | lia].
  - pose proof (JS.cc_trans_lt cmp ok a b a Hab H) as Haa.
    rewrite (JS.cc_refl cmp ok) in Haa. lia.
  - apply (JS.cc_sym cmp ok) in H. lia.
Qed.

Lemma cc_le_trans (a b c : A) : (cmp a b <= 0)%Z -> (cmp b c <= 0)%Z -> (cmp a c <= 0)%Z.
Proof.
  intros Hab Hbc.
  destruct (Z.lt_trichotomy (cmp a c) 0) as [H | [H | H]]; [lia | lia |].
  exfalso.
  assert (cmp c a < 0)%Z as Hca by (apply cc_flip_gt; lia).
  destruct (Z.eq_dec (cmp a b) 0) as [Eab | Nab].
  - destruct (Z.eq_dec (cmp b c) 0) as [Ebc | Nbc].
    + pose proof (JS.cc_trans_eq cmp ok a b c Eab Ebc). lia.
    + pose proof (JS.cc_trans_lt cmp ok b c a ltac:(lia) Hca) as Hba.
      apply (JS.cc_sym cmp ok) in Eab. lia.
  - pose proof (JS.cc_trans_lt cmp ok c a b Hca ltac:(lia)) as Hcb.
    destruct (Z.eq_dec (cmp b c) 0) as [Ebc | Nbc].
    + apply (JS.cc_sym cmp ok) in Ebc. lia.
    + pose proof (cc_flip_lt b c ltac:(lia)). lia.
Qed.

Lemma cc_ge_le (a b : A) : (cmp a b >= 0)%Z <-> (cmp b a <= 0)%Z.
Proof.
  split; intros H.
  - destruct (Z.eq_dec (cmp a b) 0) as [E | N].
    + apply (JS.cc_sym cmp ok) in E. lia.
    + pose proof (cc_flip_gt a b ltac:(lia)). lia.
  - destruct (Z.eq_dec (cmp b a) 0) as [E | N].
    + apply (JS.cc_sym cmp ok) in E. lia.
    + pose proof (cc_flip_lt b a ltac:(lia)). lia.
Qed.

Lemma cc_ge_trans (a b c : A) : (cmp a b >= 0)%Z -> (cmp b c >= 0)%Z -> (cmp a c >= 0)%Z.
Proof.
  rewrite !cc_ge_le. intros Hba Hcb. now apply (cc_le_trans c b a).
Qed.

End Consistent.

Section TableFacts.
Import Receipts ReceiptTable.

Definition validDate (h : JS.Host) (r : Receipt) : Prop :=
  JS.Date_parse h (date r) <> None.

(** [a] may stand before [b] in the order of the chosen key and direction. *)
Definition precedes (h : JS.Host) (st : State) (a b : Receipt) : Prop :=
  match sortField st, sortDirection st with
  | SortField.date, SortDirection.asc =>
      exists ta tb, JS.Date_parse h (date a) = Some ta /\ JS.Date_parse h (date b) = Some tb
                    /\ (ta <= tb)%Z
  | SortField.date, SortDirection.desc =>
      exists ta tb, JS.Date_parse h (date a) = Some ta /\ JS.Date_parse h (date b) = Some tb
                    /\ (tb <= ta)%Z
  | SortField.amount, SortDirection.asc => amount a <= amount b
  | SortField.amount, SortDirection.desc => amount b <= amount a
  | SortField.vendor, SortDirection.asc =>
      (JS.localeCompare h (vendor a) (vendor b) <= 0)%Z
  | SortField.vendor, SortDirection.desc =>
      (JS.localeCompare h (vendor a) (vendor b) >= 0)%Z
  | SortField.category, SortDirection.asc =>
      (JS.localeCompare h (category a) (category b) <= 0)%Z
  | SortField.category, SortDirection.desc =>
      (JS.localeCompare h (category a) (category b) >= 0)%Z
  end.



Variables (h : JS.Host) (now : Z) (st : State).







Lemma filter_none {A : Type} (f : A -> bool) (l : list A) :
  (forall x, In x l -> f x = false) -> filter f l = [].
Proof.
  induction l as [|x rest IH]; intros Hnone; cbn [filter]; [reflexivity |].
  rewrite (Hnone x (or_introl eq_refl)). apply IH. intros y Hy. apply Hnone. now right.
Qed.



Lemma subtract_valid (a b : Receipt) :
  validDate h a -> validDate h b ->
  exists ta tb, JS.Date_parse h (date a) = Some ta /\ JS.Date_parse h (date b) = Some tb
    /\ JS.subtract (JS.getTime (JS.Date_parse h (date a))) (JS.getTime (JS.Date_parse h (date b)))
       = JS.Finite (inject_Z (ta - tb)).
Proof.
  unfold validDate. intros Ha Hb.
  destruct (JS.Date_parse h (date a)) as [ta|]; [| congruence].
  destruct (JS.Date_parse h (date b)) as [tb|]; [| congruence].
  exists ta, tb. auto.
Qed.

(** The elements on which the comparator of the chosen key is consistent. *)
Definition comparable (r : Receipt) : Prop :=
  match sortField st with
  | SortField.date => validDate h r
  | _ => True
  end.

Hypothesis collation :
  sortField st = SortField.vendor \/ sortField st = SortField.category ->
  JS.ConsistentComparator (JS.localeCompare h).

Lemma keepsOrder_precedes (a b : Receipt) :
  comparable a -> comparable b ->
  (keepsOrder (compare h st) a b <-> precedes h st a b).
Proof.
  unfold comparable, keepsOrder, compare, comparison, precedes.
  destruct (sortField st) eqn:Ef; destruct (sortDirection st) eqn:Ed; intros Ha Hb;
    try (destruct (subtract_valid a b Ha Hb) as (ta & tb & Eta & Etb & ->));
    cbn [JS.neg]; rewrite positive_Finite_false.
  - rewrite inject_Z_nonpos. split.
    + intros Hle. exists ta, tb. repeat split; auto. lia.
    + intros (ta' & tb' & Ea & Eb & Hle). rewrite Eta in Ea. rewrite Etb in Eb.
      injection Ea as <-. injection Eb as <-. lia.
  - rewrite <- inject_Z_opp, inject_Z_nonpos. split.
    + intros Hle. exists ta, tb. repeat split; auto. lia.
    + intros (ta' & tb' & Ea & Eb & Hle). rewrite Eta in Ea. rewrite Etb in Eb.
      injection Ea as <-. injection Eb as <-. lia.
  - split; intros; lra.
  - split; intros; lra.
  - apply inject_Z_nonpos.
  - rewrite <- inject_Z_opp, inject_Z_nonpos. lia.
  - apply inject_Z_nonpos.
  - rewrite <- inject_Z_opp, inject_Z_nonpos. lia.
Qed.

Lemma precedes_total (a b : Receipt) :
  comparable a -> comparable b ->
  JS.positive (compare h st a b) = true -> keepsOrder (compare h st) b a.
Proof.
  intros Ha Hb Hpos. apply keepsOrder_precedes; auto.
  assert (~ precedes h st a b) as Hn.
  { intros Hp. apply keepsOrder_precedes in Hp; auto. unfold keepsOrder in Hp. congruence. }
  revert Hn. unfold precedes, comparable in *.
  destruct (sortField st) eqn:Ef; destruct (sortDirection st) eqn:Ed; intros Hn;
    try (destruct (subtract_valid a b Ha Hb) as (ta & tb & Eta & Etb & _)).
  - exists tb, ta. repeat split; auto.
    destruct (Z_le_gt_dec tb ta); [assumption |]. exfalso. apply Hn. exists ta, tb. repeat split; auto; lia.
  - exists tb, ta. repeat split; auto.
    destruct (Z_le_gt_dec ta tb); [assumption |]. exfalso. apply Hn. exists ta, tb. repeat split; auto; lia.
  - lra.
  - lra.
  - pose proof (cc_flip_gt _ (collation (or_introl eq_refl)) (vendor a) (vendor b)). lia.
  - pose proof (cc_flip_lt _ (collation (or_introl eq_refl)) (vendor a) (vendor b)). lia.
  - pose proof (cc_flip_gt _ (collation (or_intror eq_refl)) (category a) (category b)). lia.
  - pose proof (cc_flip_lt _ (collation (or_intror eq_refl)) (category a) (category b)). lia.
Qed.

Lemma precedes_trans (a b c : Receipt) :
  comparable a -> comparable b -> comparable c ->
  keepsOrder (compare h st) a b -> keepsOrder (compare h st) b c ->
  keepsOrder (compare h st) a c.
Proof.
  intros Ha Hb Hc Hab Hbc.
  apply keepsOrder_precedes in Hab, Hbc; auto. apply keepsOrder_precedes; auto.
  revert Hab Hbc. unfold precedes.
  destruct (sortField st) eqn:Ef; destruct (sortDirection st) eqn:Ed.
  - intros (ta & tb & Ea & Eb & H1) (tb' & tc & Eb' & Ec & H2).
    rewrite Eb in Eb'. injection Eb' as <-. exists ta, tc. repeat split; auto. lia.
  - intros (ta & tb & Ea & Eb & H1) (tb' & tc & Eb' & Ec & H2).
    rewrite Eb in Eb'. injection Eb' as <-. exists ta, tc. repeat split; auto. lia.
  - intros; lra.
  - intros; lra.
  - apply (cc_le_trans _ (collation (or_introl eq_refl))).
  - apply (cc_ge_trans _ (collation (or_introl eq_refl))).
  - apply (cc_le_trans _ (collation (or_intror eq_refl))).
  - apply (cc_ge_trans _ (collation (or_intror eq_refl))).
Qed.

Lemma filteredAndSortedReceipts_sorted (receipts : list Receipt) :
  Forall comparable receipts ->
  StronglySorted (precedes h st) (filteredAndSortedReceipts h now st receipts).
Proof.
  intros Hall. unfold filteredAndSortedReceipts.
  assert (Forall comparable (filter (keeps h now st) receipts)) as Hf.
  { rewrite Forall_forall in *. intros r Hr. apply filter_In in Hr. now apply Hall. }
  apply (StronglySorted_weaken comparable (keepsOrder (compare h st))).
  - intros a b Ha Hb. now apply keepsOrder_precedes.
  - rewrite Forall_forall in *. intros r Hr. apply Hf.
    now apply (proj1 (Array_sort_In _ _ _)) in Hr.
  - apply (Array_sort_sorted _ comparable); auto.
    + apply precedes_total.
    + apply precedes_trans.
Qed.

End TableFacts.



(** Choosing the sort key that is already active flips the direction, and doing so
    twice gives the state back; choosing another key makes it the active one, in
    ascending direction.  The filters are never touched. *)
Theorem handleSort_toggles_direction :
  forall (st : ReceiptTable.State) (field : ReceiptTable.SortField.t),
    (ReceiptTable.sortField st = field ->
     ReceiptTable.sortField (ReceiptTable.handleSort st field) = field
     /\ ReceiptTable.sortDirection (ReceiptTable.handleSort st field)
        <> ReceiptTable.sortDirection st
     /\ ReceiptTable.handleSort (ReceiptTable.handleSort st field) field = st)
    /\ (ReceiptTable.sortField st <> field ->
        ReceiptTable.sortField (ReceiptTable.handleSort st field) = field
        /\ ReceiptTable.sortDirection (ReceiptTable.handleSort st field)
           = ReceiptTable.SortDirection.asc)
    /\ ReceiptTable.searchTerm (ReceiptTable.handleSort st field) = ReceiptTable.searchTerm st
    /\ ReceiptTable.categoryFilter (ReceiptTable.handleSort st field)
       = ReceiptTable.categoryFilter st
    /\ ReceiptTable.dateFilter (ReceiptTable.handleSort st field) = ReceiptTable.dateFilter st
    /\ ReceiptTable.amountMin (ReceiptTable.handleSort st field) = ReceiptTable.amountMin st
    /\ ReceiptTable.amountMax (ReceiptTable.handleSort st field) = ReceiptTable.amountMax st.
Proof.
  intros [search cat dat key dir lo hi] field.
  destruct key, field, dir; cbn; repeat split; intros; congruence.
Qed.

(* ===================================================================== *)
(** * The aggregation engine: totals, average and median                  *)
(* ===================================================================== *)

(** Two lists in the same order that hold the same elements are equal, when the
    order is antisymmetric on them. *)
Lemma sorted_permutation_unique {A : Type} (R : A -> A -> Prop) (P : A -> Prop) :
  (forall a b, P a -> P b -> R a b -> R b a -> a = b) ->
  forall l1 l2, Forall P l1 -> Permutation l1 l2 ->
    StronglySorted R l1 -> StronglySorted R l2 -> l1 = l2.
Proof.
  intros Hanti.
  induction l1 as [|a t1 IH]; intros l2 HP Hperm Hs1 Hs2.
  - apply Permutation_nil in Hperm. now subst.
  - destruct l2 as [|b t2]; [apply Permutation_sym, Permutation_nil in Hperm; discriminate |].
    inversion Hs1 as [|? ? Hs1' Ha]; subst. inversion Hs2 as [|? ? Hs2' Hb]; subst.
    inversion HP as [|? ? Pa Pt1]; subst.
    assert (a = b) as ->.
    { assert (In a (b :: t2)) as Ina by (apply (Permutation_in _ Hperm); now left).
      assert (In b (a :: t1)) as Inb
          by (apply (Permutation_in _ (Permutation_sym Hperm)); now left).
      destruct Ina as [-> | Ina]; [reflexivity |].
      destruct Inb as [-> | Inb]; [reflexivity |].
      rewrite Forall_forall in Ha, Hb, Pt1. apply Hanti; auto. }
    f_equal. apply IH; auto. now apply Permutation_cons_inv in Hperm.
Qed.

Lemma StronglySorted_map {A B : Type} (f : A -> B) (R : B -> B -> Prop) (l : list A) :
  StronglySorted (fun a b => R (f a) (f b)) l -> StronglySorted R (map f l).
Proof.
  induction 1 as [|a rest Hs IH Ha]; simpl; constructor; auto.
  rewrite Forall_forall in *. intros y Hy. apply in_map_iff in Hy.
  destruct Hy as (x & <- & Hx). auto.
Qed.

(** Two ascending arrangements of the same amounts agree position by position. *)
Lemma ascending_unique (s1 s2 : list Q) :
  Permutation s1 s2 -> StronglySorted Qle s1 -> StronglySorted Qle s2 ->
  map Qred s1 = map Qred s2.
Proof.
  intros Hperm H1 H2.
  apply (sorted_permutation_unique Qle (fun q => Qred q = q)).
  - intros a b Ha Hb Hab Hba. rewrite <- Ha, <- Hb. apply Qred_complete. lra.
  - apply Forall_forall. intros q Hq. apply in_map_iff in Hq.
    destruct Hq as (x & <- & _). apply Qred_complete, Qred_correct.
  - now apply Permutation_map.
  - apply StronglySorted_map. eapply StronglySorted_weaken with (P := fun _ => True); eauto.
    + intros a b _ _ Hab. now rewrite !Qred_correct.
    + apply Forall_forall; auto.
  - apply StronglySorted_map. eapply StronglySorted_weaken with (P := fun _ => True); eauto.
    + intros a b _ _ Hab. now rewrite !Qred_correct.
    + apply Forall_forall; auto.
Qed.

Lemma nth_Qred_eq (s1 s2 : list Q) (i : nat) :
  map Qred s1 = map Qred s2 -> nth i s1 0 == nth i s2 0.
Proof.
  intros Heq. apply Qred_eq_iff.
  rewrite <- !(map_nth Qred). now rewrite Heq.
Qed.

Section MedianFacts.
Import Receipts Dashboard.

(** The median as the specification words it, on amounts already sorted ascending:
    the middle element for an odd count, the mean of the two central elements for
    an even count. *)
Definition centre (sorted : list Q) : Q :=
  let n := length sorted in
  if (n mod 2 =? 0)%nat
  then (nth (n / 2 - 1) sorted 0 + nth (n / 2) sorted 0) / 2
  else nth (n / 2) sorted 0.

Definition byAmount (a b : Receipt) : JS.number := JS.Finite (amount a - amount b).

Lemma byAmount_keepsOrder (a b : Receipt) :
  keepsOrder byAmount a b <-> amount a <= amount b.
Proof.
  unfold keepsOrder, byAmount. rewrite positive_Finite_false. split; intros; lra.
Qed.

Lemma sortedAmounts_ascending (receipts : list Receipt) :
  StronglySorted Qle (map amount (JS.Array_sort byAmount receipts)).
Proof.
  apply StronglySorted_map.
  apply (StronglySorted_weaken (fun _ => True) (keepsOrder byAmount)).
  - intros a b _ _. apply byAmount_keepsOrder.
  - apply Forall_forall; auto.
  - apply (Array_sort_sorted _ (fun _ => True)).
    + intros x y _ _ Hpos. apply byAmount_keepsOrder.
      unfold byAmount in Hpos. apply positive_Finite_true in Hpos. lra.
    + intros x y z _ _ _. rewrite !byAmount_keepsOrder. intros; lra.
    + apply Forall_forall; auto.
Qed.

Lemma nth_error_amount (l : list Receipt) (i : nat) :
  (i < length l)%nat ->
  exists r, nth_error l i = Some r /\ amount r = nth i (map amount l) 0.
Proof.
  revert i. induction l as [|x rest IH]; intros i Hi; simpl in Hi; [lia |].
  destruct i as [|i]; simpl.
  - now exists x.
  - apply IH. lia.
Qed.

Lemma median_centre (receipts : list Receipt) :
  receipts <> [] ->
  exists m, median receipts = Some m
    /\ m = centre (map amount (JS.Array_sort byAmount receipts)).
Proof.
  intros Hne. unfold median, centre. fold byAmount.
  set (sorted := JS.Array_sort byAmount receipts).
  assert (length sorted = length receipts) as Hlen by apply Array_sort_length.
  rewrite length_map, Hlen.
  assert (0 < length receipts)%nat as Hpos by (destruct receipts; simpl; [congruence | lia]).
  set (n := length receipts) in *.
  assert (n / 2 < n)%nat as Hhalf by (apply Nat.div_lt; lia).
  destruct (n mod 2 =? 0)%nat eqn:Heven.
  - destruct (nth_error_amount sorted (n / 2 - 1) ltac:(lia)) as (lo & -> & Elo).
    destruct (nth_error_amount sorted (n / 2) ltac:(lia)) as (hi & -> & Ehi).
    eexists. split; [reflexivity |]. now rewrite Elo, Ehi.
  - destruct (nth_error_amount sorted (n / 2) ltac:(lia)) as (mid & -> & Emid).
    eexists. split; [reflexivity |]. exact Emid.
Qed.

Lemma centre_ascending_unique (s1 s2 : list Q) :
  Permutation s1 s2 -> StronglySorted Qle s1 -> StronglySorted Qle s2 ->
  centre s1 == centre s2.
Proof.
  intros Hperm H1 H2. pose proof (ascending_unique s1 s2 Hperm H1 H2) as Heq.
  unfold centre. rewrite (Permutation_length Hperm).
  destruct (length s2 mod 2 =? 0)%nat.
  - rewrite (nth_Qred_eq s1 s2 _ Heq), (nth_Qred_eq s1 s2 (length s2 / 2) Heq). reflexivity.
  - apply nth_Qred_eq, Heq.
Qed.

Lemma median_spec (receipts : list Receipt) :
  receipts <> [] ->
  exists m, median receipts = Some m
    /\ forall sorted, Permutation sorted (map amount receipts) ->
                      StronglySorted Qle sorted -> m == centre sorted.
Proof.
  intros Hne. destruct (median_centre receipts Hne) as (m & Hm & ->).
  exists (centre (map amount (JS.Array_sort byAmount receipts))). split; [exact Hm |].
  intros sorted Hperm Hsorted. apply centre_ascending_unique.
  - rewrite Hperm. apply Permutation_map, Array_sort_perm.
  - apply sortedAmounts_ascending.
  - exact Hsorted.
Qed.

(** The sum of a list of amounts. *)
Definition total (amounts : list Q) : Q := fold_right Qplus 0 amounts.

Lemma sumAmounts_from (receipts : list Receipt) (start : Q) :
  fold_left (fun sum r => sum + amount r) receipts start
  == start + total (map amount receipts).
Proof.
  revert start. induction receipts as [|r rest IH]; intros start; simpl.
  - unfold total; simpl. lra.
  - rewrite IH. unfold total; simpl. lra.
Qed.

Lemma sumAmounts_total (receipts : list Receipt) :
  sumAmounts receipts == total (map amount receipts).
Proof. unfold sumAmounts. rewrite sumAmounts_from. lra. Qed.

Lemma stats_nonempty (h : JS.Host) (now : Z) (receipts : list Receipt) :
  receipts <> [] ->
  exists m, median receipts = Some m
    /\ stats h now receipts
       = Some (mkStats (length receipts) (sumAmounts receipts)
                 (sumAmounts receipts / inject_Z (Z.of_nat (length receipts))) m
                 (mostFrequentVendor receipts)
                 (spendIn h (Some (currentMonth h now)) (Some (currentYear h now)) receipts)
                 (spendIn h (Some (lastMonth h now)) (Some (lastMonthYear h now)) receipts)
                 (categoryTotals receipts)
                 (trendFrom h now receipts 5)).
Proof.
  intros Hne. destruct (median_centre receipts Hne) as (m & Hm & _).
  exists m. split; [exact Hm |].
  unfold stats. destruct receipts as [|r rest]; [congruence |].
  cbn [length Nat.eqb]. now rewrite Hm.
Qed.

End MedianFacts.
(* ===================================================================== *)
(** * Rounding to binary64: how far the rounded value is                  *)
(* ===================================================================== *)

Section RoundingFacts.
Import JS.

Lemma pow2_pos (e : Z) : 0 < pow2 e.
Proof. apply Qpower_0_lt. reflexivity. Qed.

Lemma pow2_add (a b : Z) : pow2 (a + b) == pow2 a * pow2 b.
Proof. apply Qpower_plus. discriminate. Qed.

Lemma pow2_le (a b : Z) : (a <= b)%Z -> pow2 a <= pow2 b.
Proof. intros Hab. apply Qpower_le_compat_l; [exact Hab | discriminate]. Qed.

Lemma pow2_Z (e : Z) : (0 <= e)%Z -> pow2 e == inject_Z (2 ^ e).
Proof. intros He. symmetry. apply (Zpower_Qpower 2 e He). Qed.

Lemma pow2_half (e : Z) : pow2 e == 2 * pow2 (e - 1).
Proof.
  replace e with (1 + (e - 1))%Z at 1 by lia. rewrite pow2_add. reflexivity.
Qed.

(** [ilog2] does not overshoot. *)
Lemma ilog2_le (x : Q) : 0 < x -> pow2 (ilog2 x) <= x.
Proof.
  intros Hx. unfold ilog2.
  destruct (Qle_bool (pow2 (Z.log2 (Qnum x) - Z.log2 (Z.pos (Qden x)))) x) eqn:E;
    [now apply Qle_bool_iff |].
  clear E. destruct x as [num den]. cbn [Qnum Qden].
  assert (0 < num)%Z as Hnum by (unfold Qlt in Hx; cbn in Hx; lia).
  set (a := Z.log2 num). set (b := Z.log2 (Z.pos den)).
  pose proof (Z.log2_nonneg num) as Ha. pose proof (Z.log2_nonneg (Z.pos den)) as Hb.
  fold a in Ha. fold b in Hb.
  destruct (Z.log2_spec num Hnum) as [Hlo _]. fold a in Hlo.
  destruct (Z.log2_spec (Z.pos den) ltac:(lia)) as [_ Hhi]. fold b in Hhi.
  rewrite (Qmake_Qdiv num den).
  apply Qle_shift_div_l; [reflexivity |].
  apply Qle_trans with (pow2 (a - b - 1) * pow2 (b + 1)).
  - apply Qmult_le_l; [apply pow2_pos |].
    rewrite (pow2_Z (b + 1)) by lia. rewrite <- Zle_Qle.
    replace (b + 1)%Z with (Z.succ b) by lia. lia.
  - rewrite <- pow2_add. replace (a - b - 1 + (b + 1))%Z with a by lia.
    rewrite (pow2_Z a Ha). now rewrite <- Zle_Qle.
Qed.

(** The nearest integer is at most one half away. *)
Lemma roundHalfEven_near (x : Q) : Qabs (inject_Z (roundHalfEven x) - x) <= 1 # 2.
Proof.
  unfold roundHalfEven.
  pose proof (Qfloor_le x) as Hlo. pose proof (Qlt_floor x) as Hhi.
  rewrite inject_Z_plus in Hhi. change (inject_Z 1) with 1 in Hhi.
  apply Qabs_Qle_condition.
  destruct (Qcompare (x - inject_Z (Qfloor x)) (1 # 2)) eqn:E.
  - apply Qeq_alt in E.
    destruct (Z.even (Qfloor x)); [| rewrite inject_Z_plus; change (inject_Z 1) with 1];
      split; lra.
  - apply Qlt_alt in E. split; lra.
  - apply Qgt_alt in E. rewrite inject_Z_plus. change (inject_Z 1) with 1. split; lra.
Qed.

Lemma ulp_pos (x : Q) : 0 < ulp x.
Proof. apply pow2_pos. Qed.

(** From [2^-1022] on, neighbouring values around [x] are at most [x * 2^-52]
    apart. *)
Lemma ulp_le (x : Q) : 0 < x -> pow2 (-1022) <= x -> ulp x <= x * pow2 (-52).
Proof.
  intros Hx Hnormal. unfold ulp.
  replace (Z.max (ilog2 x) (-1022) - 52)%Z with (Z.max (ilog2 x) (-1022) + -52)%Z by lia.
  rewrite pow2_add. apply Qmult_le_compat_r; [| apply Qlt_le_weak, pow2_pos].
  destruct (Z.max_spec (ilog2 x) (-1022)) as [[_ ->] | [_ ->]];
    [exact Hnormal | now apply ilog2_le].
Qed.

(** The value before the check for overflow. *)
Definition nearest (x : Q) : Q := inject_Z (roundHalfEven (x / ulp x)) * ulp x.

Lemma nearest_within_half_ulp (x : Q) : Qabs (nearest x - x) <= ulp x * (1 # 2).
Proof.
  unfold nearest. pose proof (ulp_pos x) as Hu.
  assert (inject_Z (roundHalfEven (x / ulp x)) * ulp x - x
          == (inject_Z (roundHalfEven (x / ulp x)) - x / ulp x) * ulp x) as ->
      by (field; lra).
  rewrite Qabs_Qmult, (Qabs_pos (ulp x)) by lra.
  rewrite (Qmult_comm _ (ulp x)). apply Qmult_le_l; [exact Hu |].
  apply roundHalfEven_near.
Qed.

Lemma nearest_error (x : Q) :
  0 < x -> pow2 (-1022) <= x -> Qabs (nearest x - x) <= x * pow2 (-53).
Proof.
  intros Hx Hnormal.
  apply Qle_trans with (ulp x * (1 # 2)); [apply nearest_within_half_ulp |].
  pose proof (ulp_le x Hx Hnormal) as Hu.
  rewrite (pow2_half (-52)) in Hu. change (-52 - 1)%Z with (-53)%Z in Hu. lra.
Qed.

Lemma pow2_53_small : pow2 (-53) <= 1 # 4.
Proof. vm_compute. discriminate. Qed.

Lemma roundPositive_near (x : Q) :
  0 < x -> pow2 (-1022) <= x -> x <= (3 # 2) * pow2 1023 ->
  exists v, roundPositive x = Finite v /\ Qabs (v - x) <= x * pow2 (-53).
Proof.
  intros Hx Hnormal Hmax. unfold roundPositive. fold (nearest x).
  pose proof (nearest_error x Hx Hnormal) as Herr.
  assert (Qred (nearest x) == nearest x) as Hred by apply Qred_correct.
  assert (Qle_bool (pow2 1024) (Qred (nearest x)) = false) as ->.
  { destruct (Qle_bool (pow2 1024) (Qred (nearest x))) eqn:E; [| reflexivity].
    exfalso. apply Qle_bool_iff in E. rewrite Hred in E.
    rewrite (pow2_half 1024) in E. change (1024 - 1)%Z with 1023%Z in E.
    apply Qabs_Qle_condition in Herr. destruct Herr as [_ Herr].
    pose proof pow2_53_small as Hsmall.
    assert (x * pow2 (-53) <= x * (1 # 4)) as Hprod by (apply Qmult_le_l; assumption).
    pose proof (pow2_pos 1023). lra. }
  exists (Qred (nearest x)). split; [reflexivity |]. now rewrite Hred.
Qed.

(** The rounded value of a number of the normal range is within one part in [2^53]
    of it. *)
Lemma roundBinary64_near (x : Q) :
  pow2 (-1022) <= Qabs x -> Qabs x <= (3 # 2) * pow2 1023 ->
  exists v, roundBinary64 x = Finite v /\ Qabs (v - x) <= Qabs x * pow2 (-53).
Proof.
  intros Hnormal Hmax. unfold roundBinary64.
  pose proof (pow2_pos (-1022)) as Hpos.
  destruct (Qcompare x 0) eqn:E.
  - apply Qeq_alt in E. rewrite E in Hnormal. change (Qabs 0) with 0 in Hnormal. lra.
  - apply Qlt_alt in E.
    assert (Qabs x == - x) as Habs by (apply Qabs_neg; lra).
    rewrite Habs in Hnormal, Hmax.
    destruct (roundPositive_near (- x) ltac:(lra) Hnormal Hmax) as (w & -> & Hw).
    exists (- w). split; [reflexivity |]. rewrite Habs.
    assert (- w - x == - (w - - x)) as -> by ring. now rewrite Qabs_opp.
  - apply Qgt_alt in E.
    assert (Qabs x == x) as Habs by (apply Qabs_pos; lra).
    rewrite Habs in Hnormal, Hmax.
    destruct (roundPositive_near x E Hnormal Hmax) as (v & -> & Hv).
    exists v. split; [reflexivity |]. now rewrite Habs.
Qed.

Lemma roundBinary64_zero (x : Q) : x == 0 -> roundBinary64 x = Finite 0.
Proof. intros Hx. unfold roundBinary64. apply Qeq_alt in Hx. now rewrite Hx. Qed.

(** Below [2^-1022] neighbouring values are [2^-1074] apart. *)
Lemma ulp_le_anywhere (x : Q) : 0 < x -> ulp x <= x * pow2 (-52) + pow2 (-1074).
Proof.
  intros Hx. unfold ulp.
  pose proof (pow2_pos (-52)) as H52. pose proof (pow2_pos (-1074)) as H1074.
  assert (0 <= x * pow2 (-52)) as Hprod by (apply Qmult_le_0_compat; lra).
  destruct (Z.max_spec (ilog2 x) (-1022)) as [[_ ->] | [_ ->]].
  - change (-1022 - 52)%Z with (-1074)%Z. lra.
  - replace (ilog2 x - 52)%Z with (ilog2 x + -52)%Z by lia. rewrite pow2_add.
    assert (pow2 (ilog2 x) * pow2 (-52) <= x * pow2 (-52)) as Hle
        by (apply Qmult_le_compat_r; [now apply ilog2_le | lra]).
    lra.
Qed.

Lemma nearest_close (x : Q) :
  0 < x -> Qabs (nearest x - x) <= x * pow2 (-53) + pow2 (-1075).
Proof.
  intros Hx.
  apply Qle_trans with (ulp x * (1 # 2)); [apply nearest_within_half_ulp |].
  pose proof (ulp_le_anywhere x Hx) as Hu.
  rewrite (pow2_half (-52)), (pow2_half (-1074)) in Hu.
  change (-52 - 1)%Z with (-53)%Z in Hu. change (-1074 - 1)%Z with (-1075)%Z in Hu. lra.
Qed.

Lemma pow2_1075_small : pow2 32 * pow2 (-1075) <= (1 # 16) * pow2 1023.
Proof.
  rewrite <- pow2_add.
  assert (pow2 1023 == 16 * pow2 1019) as -> by (rewrite <- (pow2_add 4 1019); reflexivity).
  assert (pow2 (32 + -1075) <= pow2 1019) by (apply pow2_le; lia). lra.
Qed.

Lemma pow2_1075_tiny : pow2 (-1075) <= (1 # 16) * pow2 1023.
Proof.
  apply Qle_trans with (pow2 32 * pow2 (-1075)); [| apply pow2_1075_small].
  rewrite <- pow2_add. apply pow2_le. lia.
Qed.

Lemma roundPositive_close (x : Q) :
  0 < x -> x <= (3 # 2) * pow2 1023 ->
  exists v, roundPositive x = Finite v /\ Qabs (v - x) <= x * pow2 (-53) + pow2 (-1075).
Proof.
  intros Hx Hmax. unfold roundPositive. fold (nearest x).
  pose proof (nearest_close x Hx) as Herr.
  assert (Qred (nearest x) == nearest x) as Hred by apply Qred_correct.
  assert (Qle_bool (pow2 1024) (Qred (nearest x)) = false) as ->.
  { destruct (Qle_bool (pow2 1024) (Qred (nearest x))) eqn:E; [| reflexivity].
    exfalso. apply Qle_bool_iff in E. rewrite Hred in E.
    rewrite (pow2_half 1024) in E. change (1024 - 1)%Z with 1023%Z in E.
    apply Qabs_Qle_condition in Herr. destruct Herr as [_ Herr].
    pose proof pow2_53_small as Hsmall. pose proof pow2_1075_tiny as Htiny.
    assert (x * pow2 (-53) <= x * (1 # 4)) as Hprod by (apply Qmult_le_l; assumption).
    pose proof (pow2_pos 1023). lra. }
  exists (Qred (nearest x)). split; [reflexivity |]. now rewrite Hred.
Qed.

(** The rounded value of a number of whatever size below the largest values is
    within one part in [2^53] of it, or within [2^-1075]. *)
Lemma roundBinary64_close (x : Q) :
  Qabs x <= (3 # 2) * pow2 1023 ->
  exists v, roundBinary64 x = Finite v
            /\ Qabs (v - x) <= Qabs x * pow2 (-53) + pow2 (-1075).
Proof.
  intros Hmax. unfold roundBinary64.
  destruct (Qcompare x 0) eqn:E.
  - apply Qeq_alt in E. exists 0. split; [reflexivity |].
    pose proof (pow2_pos (-1075)). pose proof (pow2_pos (-53)).
    assert (0 - x == 0) as -> by lra. change (Qabs 0) with 0.
    assert (0 <= Qabs x * pow2 (-53)) by (apply Qmult_le_0_compat; [apply Qabs_nonneg | lra]).
    lra.
  - apply Qlt_alt in E.
    assert (Qabs x == - x) as Habs by (apply Qabs_neg; lra).
    rewrite Habs in Hmax.
    destruct (roundPositive_close (- x) ltac:(lra) Hmax) as (w & -> & Hw).
    exists (- w). split; [reflexivity |]. rewrite Habs.
    assert (- w - x == - (w - - x)) as -> by ring. now rewrite Qabs_opp.
  - apply Qgt_alt in E.
    assert (Qabs x == x) as Habs by (apply Qabs_pos; lra).
    rewrite Habs in Hmax.
    destruct (roundPositive_close x E Hmax) as (v & -> & Hv).
    exists v. split; [reflexivity |]. now rewrite Habs.
Qed.

End RoundingFacts.

(* ===================================================================== *)
(** * The average times the count                                         *)
(* ===================================================================== *)

Section AverageFacts.
Import Receipts.

Lemma Qmult_le_left (z x y : Q) : 0 <= z -> x <= y -> z * x <= z * y.
Proof.
  intros Hz Hxy. rewrite (Qmult_comm z x), (Qmult_comm z y).
  now apply Qmult_le_compat_r.
Qed.

Lemma count_positive (receipts : list Receipt) :
  receipts <> [] ->
  (Z.of_nat (length receipts) < 2 ^ 32)%Z ->
  1 <= inject_Z (Z.of_nat (length receipts))
  /\ inject_Z (Z.of_nat (length receipts)) <= JS.pow2 32.
Proof.
  intros Hne Hlen. destruct receipts as [|r rest]; [congruence |].
  rewrite (pow2_Z 32) by lia. change 1 with (inject_Z 1).
  rewrite <- !Zle_Qle. cbn [length] in *. lia.
Qed.

Lemma divide_by_count (x n : Q) :
  0 < n -> Binary64.divide (JS.Finite x) (JS.Finite n) = JS.roundBinary64 (x / n).
Proof.
  intros Hn. unfold Binary64.divide, JS.divide, JS.sign.
  apply Qgt_alt in Hn. now rewrite Hn.
Qed.

(** The quotient by the count and then the product with it, each rounded, end
    within one part in [2^51] of where they started. *)
Lemma divide_then_times (total n : Q) :
  1 <= n -> n <= JS.pow2 32 ->
  JS.pow2 (-990) <= Qabs total -> Qabs total <= JS.pow2 1023 ->
  exists average product,
    JS.roundBinary64 (total / n) = JS.Finite average
    /\ JS.roundBinary64 (average * n) = JS.Finite product
    /\ Qabs (product - total) <= Qabs total * JS.pow2 (-51).
Proof.
  intros Hn1 Hn2 Hlo Hhi.
  pose proof (pow2_pos (-1022)) as Hmin. pose proof (pow2_pos 1023) as Hmax.
  pose proof (pow2_pos (-53)) as Hu. pose proof pow2_53_small as Hsmall.
  set (u := JS.pow2 (-53)) in *. set (t := Qabs total) in *.
  assert (0 <= t) as Ht by apply Qabs_nonneg.
  assert (JS.pow2 (-990) == JS.pow2 (-1022) * JS.pow2 32) as H990
      by (rewrite <- pow2_add; reflexivity).
  assert (JS.pow2 (-51) == 4 * u) as H51.
  { unfold u. rewrite (pow2_half (-51)), (pow2_half (-52)). change (-51 - 1)%Z with (-52)%Z.
    change (-52 - 1)%Z with (-53)%Z. ring. }
  assert (Qabs n == n) as Hnabs by (apply Qabs_pos; lra).
  assert (Qabs (total / n) * n == t) as Hquot.
  { unfold Qdiv. rewrite Qabs_Qmult, Qabs_Qinv, Hnabs. fold t. field. lra. }
  assert (t * u <= t * (1 # 4)) as Htu by (apply Qmult_le_left; lra).
  (* the quotient *)
  destruct (roundBinary64_near (total / n)) as (average & Haverage & Ha).
  { apply Qmult_le_r with n; [lra |]. rewrite Hquot.
    apply Qle_trans with (JS.pow2 (-1022) * JS.pow2 32); [| lra].
    apply Qmult_le_l; lra. }
  { apply Qle_trans with (Qabs (total / n) * n); [| rewrite Hquot; lra].
    rewrite <- (Qmult_1_r (Qabs (total / n))) at 1.
    apply Qmult_le_left; [apply Qabs_nonneg | exact Hn1]. }
  fold u in Ha.
  (* the product is near the total *)
  assert (Qabs (average * n - total) <= t * u) as Hnear.
  { assert (average * n - total == (average - total / n) * n) as -> by (field; lra).
    rewrite Qabs_Qmult, Hnabs.
    apply Qle_trans with (Qabs (total / n) * u * n);
      [apply Qmult_le_compat_r; [exact Ha | lra] |].
    assert (Qabs (total / n) * u * n == Qabs (total / n) * n * u) as -> by ring.
    rewrite Hquot. lra. }
  assert (t - t * u <= Qabs (average * n) /\ Qabs (average * n) <= t + t * u) as [Hp1 Hp2].
  { pose proof (Qabs_triangle_reverse (average * n) total) as H1.
    pose proof (Qabs_triangle_reverse total (average * n)) as H2.
    rewrite (Qabs_Qminus total) in H2. fold t in H1, H2. split; lra. }
  destruct (roundBinary64_near (average * n)) as (product & Hproduct & Hp).
  { rewrite (pow2_half (-990)) in Hlo.
    assert (JS.pow2 (-1022) <= JS.pow2 (-990 - 1)) by (apply pow2_le; lia). lra. }
  { lra. }
  fold u in Hp.
  exists average, product. split; [exact Haverage |]. split; [exact Hproduct |].
  rewrite H51.
  assert (product - total == (product - average * n) + (average * n - total)) as -> by ring.
  eapply Qle_trans; [apply Qabs_triangle |].
  assert (Qabs (average * n) * u <= (t + t * u) * u) as Hpu
      by (apply Qmult_le_compat_r; lra).
  assert (t * u * u <= t * u * (1 # 4)) as Huu.
  { apply Qmult_le_left; [| lra]. apply Qmult_le_0_compat; lra. }
  lra.
Qed.

(** The same from whatever total: the distance is within one part in [2^51] of the
    total, or a few times [2^-1074]. *)
Lemma divide_then_times_anywhere (total n : Q) :
  1 <= n -> n <= JS.pow2 32 -> Qabs total <= JS.pow2 1023 ->
  exists average product,
    JS.roundBinary64 (total / n) = JS.Finite average
    /\ JS.roundBinary64 (average * n) = JS.Finite product
    /\ Qabs (product - total) <= Qabs total * JS.pow2 (-51) + (n + 1) * JS.pow2 (-1074).
Proof.
  intros Hn1 Hn2 Hhi.
  pose proof (pow2_pos 1023) as Hmax. pose proof (pow2_pos 32) as H32.
  pose proof (pow2_pos (-53)) as Hu. pose proof pow2_53_small as Hsmall.
  pose proof (pow2_pos (-1075)) as Heta. pose proof pow2_1075_small as Htiny.
  set (u := JS.pow2 (-53)) in *. set (eta := JS.pow2 (-1075)) in *.
  set (t := Qabs total) in *.
  assert (0 <= t) as Ht by apply Qabs_nonneg.
  assert (JS.pow2 (-51) == 4 * u) as H51.
  { unfold u. rewrite (pow2_half (-51)), (pow2_half (-52)). change (-51 - 1)%Z with (-52)%Z.
    change (-52 - 1)%Z with (-53)%Z. ring. }
  assert (JS.pow2 (-1074) == 2 * eta) as H1074.
  { unfold eta. rewrite (pow2_half (-1074)). reflexivity. }
  assert (Qabs n == n) as Hnabs by (apply Qabs_pos; lra).
  assert (Qabs (total / n) * n == t) as Hquot.
  { unfold Qdiv. rewrite Qabs_Qmult, Qabs_Qinv, Hnabs. fold t. field. lra. }
  assert (t * u <= t * (1 # 4)) as Htu by (apply Qmult_le_left; lra).
  assert (n * eta <= JS.pow2 32 * eta) as Hneta by (apply Qmult_le_compat_r; lra).
  assert (0 <= n * eta) as Hneta0 by (apply Qmult_le_0_compat; lra).
  assert (Qabs (total / n) <= t) as Hq.
  { rewrite <- Hquot. rewrite <- (Qmult_1_r (Qabs (total / n))) at 1.
    apply Qmult_le_left; [apply Qabs_nonneg | exact Hn1]. }
  destruct (roundBinary64_close (total / n)) as (average & Haverage & Ha); [lra |].
  fold u eta in Ha.
  assert (Qabs (average * n - total) <= t * u + n * eta) as Hnear.
  { assert (average * n - total == (average - total / n) * n) as -> by (field; lra).
    rewrite Qabs_Qmult, Hnabs.
    apply Qle_trans with ((Qabs (total / n) * u + eta) * n);
      [apply Qmult_le_compat_r; [exact Ha | lra] |].
    assert ((Qabs (total / n) * u + eta) * n == Qabs (total / n) * n * u + n * eta) as ->
        by ring.
    rewrite Hquot. lra. }
  assert (Qabs (average * n) <= t + (t * u + n * eta)) as Hp2.
  { pose proof (Qabs_triangle_reverse (average * n) total) as H1. fold t in H1. lra. }
  destruct (roundBinary64_close (average * n)) as (product & Hproduct & Hp); [lra |].
  fold u eta in Hp.
  exists average, product. split; [exact Haverage |]. split; [exact Hproduct |].
  rewrite H51, H1074.
  assert (product - total == (product - average * n) + (average * n - total)) as -> by ring.
  eapply Qle_trans; [apply Qabs_triangle |].
  assert (Qabs (average * n) * u <= (t + (t * u + n * eta)) * u) as Hpu
      by (apply Qmult_le_compat_r; lra).
  assert (t * u * u <= t * u * (1 # 4)) as Huu.
  { apply Qmult_le_left; [| lra]. apply Qmult_le_0_compat; lra. }
  assert (n * eta * u <= n * eta * (1 # 4)) as Heu by (apply Qmult_le_left; lra).
  assert (0 <= t * u) as Htu0 by (apply Qmult_le_0_compat; lra).
  lra.
Qed.

(** Adding finite amounts never gives [NaN]. *)
Lemma plus_finite_number (x : JS.number) (a : Q) :
  x <> JS.NaN -> Binary64.plus x (JS.Finite a) <> JS.NaN.
Proof.
  destruct x as [q | | |]; cbn [Binary64.plus]; intros Hx; try congruence; [| discriminate ..].
  unfold JS.roundBinary64, JS.roundPositive.
  destruct (Qcompare (q + a) 0); [discriminate | |].
  - destruct (Qle_bool _ _); discriminate.
  - destruct (Qle_bool _ _); discriminate.
Qed.

Lemma totalAmount_number (receipts : list Receipt) : Binary64.totalAmount receipts <> JS.NaN.
Proof.
  unfold Binary64.totalAmount.
  assert (forall start, start <> JS.NaN ->
            fold_left (fun sum receipt => Binary64.plus sum (JS.Finite (amount receipt)))
                      receipts start <> JS.NaN) as Hfold.
  { induction receipts as [|r rest IH]; intros start Hstart; cbn [fold_left]; [exact Hstart |].
    apply IH. now apply plus_finite_number. }
  apply Hfold. discriminate.
Qed.

End AverageFacts.

(** C2: the statistics of the empty record set are the snapshot with every number
    zero, no top vendor, no category and no trend entry, computed without error and
    without a division.  For a record set that is not empty the statistics are
    computed, and in the binary64 arithmetic of the runtime the average multiplied by
    the number of records is the total within floating-point tolerance.  The total (the
    amounts added up in order, each sum rounded) is a finite number or an infinity.
    When it is finite and of a magnitude up to [2^1023], the rounded product is within
    one part in [2^51] of it, give or take a few times [2^-1074], the smallest
    positive number; the latter term is not needed from [2^-990] on, and a total of
    zero gives a product of zero.  When the total has overflowed to an infinity, the
    product is that infinity.  An array holds fewer than [2^32] elements. *)
Theorem stats_empty_snapshot_and_average_within_tolerance :
  forall (h : JS.Host) (now : Z),
    Dashboard.stats h now []
    = Some (Receipts.mkStats 0 0 0 0 EmptyString 0 0 [] [])
    /\ Binary64.totalAmount [] = JS.Finite 0
    /\ Binary64.averageAmount [] = JS.Finite 0
    /\ forall receipts : list Receipts.Receipt,
         receipts <> [] ->
         (Z.of_nat (length receipts) < 2 ^ 32)%Z ->
         (exists s,
             Dashboard.stats h now receipts = Some s
             /\ Receipts.totalReceipts s = length receipts)
         /\ Binary64.totalAmount receipts <> JS.NaN
         /\ (forall total,
                Binary64.totalAmount receipts = JS.Finite total ->
                Qabs total <= JS.pow2 1023 ->
                exists average product,
                  Binary64.averageAmount receipts = JS.Finite average
                  /\ Binary64.times (JS.Finite average) (Binary64.count receipts)
                     = JS.Finite product
                  /\ Qabs (product - total)
                     <= Qabs total * JS.pow2 (-51)
                        + (inject_Z (Z.of_nat (length receipts)) + 1) * JS.pow2 (-1074)
                  /\ (JS.pow2 (-990) <= Qabs total ->
                      Qabs (product - total) <= Qabs total * JS.pow2 (-51))
                  /\ (total == 0 -> product == 0))
         /\ (forall total,
                Binary64.totalAmount receipts = total ->
                total = JS.PosInfinity \/ total = JS.NegInfinity ->
                Binary64.averageAmount receipts = total
                /\ Binary64.times (Binary64.averageAmount receipts)
                                  (Binary64.count receipts) = total).
Proof.
  intros h now. split; [reflexivity |]. split; [reflexivity |]. split; [reflexivity |].
  intros receipts Hne Hlen.
  destruct (count_positive receipts Hne Hlen) as [Hn1 Hn2].
  assert (Binary64.averageAmount receipts
          = Binary64.divide (Binary64.totalAmount receipts) (Binary64.count receipts))
    as Haverage.
  { unfold Binary64.averageAmount. destruct receipts; [congruence | reflexivity]. }
  assert (JS.sign (inject_Z (Z.of_nat (length receipts))) = Gt) as Hsign
      by (unfold JS.sign; apply Qgt_alt; lra).
  split; [| split; [apply totalAmount_number | split]].
  - destruct (stats_nonempty h now receipts Hne) as (m & _ & ->).
    eexists. split; reflexivity.
  - intros total Htotal Hhi.
    rewrite Haverage, Htotal. unfold Binary64.count.
    rewrite divide_by_count by lra.
    unfold Binary64.times, JS.times, Binary64.rounded.
    destruct (divide_then_times_anywhere total _ Hn1 Hn2 Hhi)
      as (average & product & Ha & Hp & Hnear).
    exists average, product. rewrite Ha.
    split; [reflexivity |]. split; [exact Hp |]. split; [exact Hnear |]. split.
    + intros Hlo.
      destruct (divide_then_times total _ Hn1 Hn2 Hlo Hhi)
        as (average' & product' & Ha' & Hp' & Hnear').
      rewrite Ha in Ha'. injection Ha' as <-.
      rewrite Hp in Hp'. injection Hp' as <-. exact Hnear'.
    + intros Hzero.
      rewrite roundBinary64_zero in Ha by (rewrite Hzero; field; lra).
      injection Ha as <-.
      rewrite roundBinary64_zero in Hp by ring. injection Hp as <-. reflexivity.
  - intros total Htotal Hinf. rewrite Haverage, Htotal. unfold Binary64.count.
    unfold Binary64.divide, Binary64.times, JS.divide, JS.times.
    destruct Hinf as [-> | ->]; rewrite Hsign; cbn [Binary64.rounded JS.infinity JS.flip];
      rewrite ?Hsign; split; reflexivity.
Qed.

(** The amount 5.03 as the runtime holds it, and six receipts of that amount. *)
Definition roundedOr0 (x : JS.number) : Q :=
  match x with
  | JS.Finite v => v
  | _ => 0
  end.

Definition sixReceipts : list Receipts.Receipt :=
  repeat (Receipts.mkReceipt "k3x9zq" "Starbucks" "2024-03-01"
            (roundedOr0 (JS.roundBinary64 (503 # 100))) "dining" "latte.jpg" "image/jpeg" 1)
         6.

(** Their total is 30.180000000000003... and their average times six is
    30.17999999999999971578...: the two differ, within the tolerance. *)
Lemma stats_average_witness :
  exists total average product,
    Binary64.totalAmount sixReceipts = JS.Finite total
    /\ Binary64.averageAmount sixReceipts = JS.Finite average
    /\ Binary64.times (JS.Finite average) (Binary64.count sixReceipts) = JS.Finite product
    /\ JS.roundBinary64 (503 # 100) = JS.Finite average
    /\ product < total
    /\ Qabs (product - total) <= Qabs total * JS.pow2 (-51).
Proof.
  destruct (stats_empty_snapshot_and_average_within_tolerance Sample.utc Sample.now)
    as (_ & _ & _ & H).
  destruct (H sixReceipts ltac:(discriminate) ltac:(reflexivity)) as (_ & _ & Hnear & _).
  set (total := roundedOr0 (Binary64.totalAmount sixReceipts)).
  assert (Binary64.totalAmount sixReceipts = JS.Finite total) as Htotal
      by (vm_compute; reflexivity).
  destruct (Hnear total Htotal) as (average & product & Ha & Hp & _ & Hclose & _).
  { apply Qle_bool_iff. vm_compute. reflexivity. }
  assert (JS.pow2 (-990) <= Qabs total) as Hnormal
      by (apply Qle_bool_iff; vm_compute; reflexivity).
  specialize (Hclose Hnormal).
  exists total, average, product.
  split; [exact Htotal |]. split; [exact Ha |]. split; [exact Hp |].
  assert (average = roundedOr0 (Binary64.averageAmount sixReceipts)) as Hav
      by (rewrite Ha; reflexivity).
  assert (product
          = roundedOr0 (Binary64.times (Binary64.averageAmount sixReceipts)
                                       (Binary64.count sixReceipts))) as Hpr
      by (rewrite Ha, Hp; reflexivity).
  split; [rewrite Hav; vm_compute; reflexivity |].
  split; [rewrite Hpr; vm_compute; reflexivity | exact Hclose].
Defined.

(** The number value of a primitive float. *)
Definition valueOf (f : float) : JS.number :=
  match Prim2SF f with
  | S754_zero _ => JS.Finite 0
  | S754_infinity false => JS.PosInfinity
  | S754_infinity true => JS.NegInfinity
  | S754_nan => JS.NaN
  | S754_finite negative m e =>
      JS.Finite (Qred ((if negative then -1 else 1) * inject_Z (Z.pos m) * JS.pow2 e))
  end.

(** [k / 100] in primitive floats. *)
Definition ofCents (k : Z) : float :=
  PrimFloat.div (PrimFloat.of_uint63 (Uint63.of_Z k)) 100%float.

Definition sumOf (l : list float) : float := fold_left PrimFloat.add l 0%float.

(** The rounded arithmetic of [Binary64] computes what the primitive binary64
    numbers of the proof assistant compute, on the six receipts of 5.03 and on a bound
    of the amount range written with more digits than a binary64 number holds; also
    where a product overflows, where one is too small for any number but zero, and
    where a quotient falls below the normal range. *)
Lemma Binary64_agrees_with_primitive_floats :
  let six := repeat (ofCents 503) 6 in
  let huge := Z.ldexp 1%float 1000%Z in
  let tiny := Z.ldexp 1%float (-1040)%Z in
  valueOf (ofCents 503) = JS.roundBinary64 (503 # 100)
  /\ valueOf (sumOf six) = Binary64.totalAmount sixReceipts
  /\ valueOf (PrimFloat.div (sumOf six) 6%float) = Binary64.averageAmount sixReceipts
  /\ valueOf (PrimFloat.mul (PrimFloat.div (sumOf six) 6%float) 6%float)
     = Binary64.times (Binary64.averageAmount sixReceipts) (Binary64.count sixReceipts)
  /\ valueOf (ofCents 8412) = JS.parseFloat "84.12"
  /\ valueOf (ofCents 8412) = JS.parseFloat "84.12000000000000001"
  /\ valueOf (PrimFloat.div 1%float 3%float) = JS.roundBinary64 (1 # 3)
  /\ valueOf (PrimFloat.mul huge huge) = Binary64.times (valueOf huge) (valueOf huge)
  /\ valueOf (PrimFloat.mul huge huge) = JS.PosInfinity
  /\ valueOf (PrimFloat.mul tiny tiny) = Binary64.times (valueOf tiny) (valueOf tiny)
  /\ valueOf (PrimFloat.div tiny 3%float) = Binary64.divide (valueOf tiny) (valueOf 3%float)
  /\ valueOf (PrimFloat.add (Z.ldexp 1%float 53%Z) 1%float)
     = Binary64.plus (valueOf (Z.ldexp 1%float 53%Z)) (valueOf 1%float).
Proof. cbv zeta. repeat split; vm_compute; reflexivity. Qed.

(** C3: for a record set that is not empty the median is what sorting the amounts
    in ascending order and taking the middle element (odd count) or the mean of the two
    central elements (even count) gives, whichever ascending arrangement of the amounts
    is taken.  The median of 10, 20, 30 is 20 and that of 10, 20, 30, 40 is 25, in
    whatever order the records hold these amounts. *)
Theorem medianAmount_is_centre_of_sorted_amounts :
  forall (h : JS.Host) (now : Z) (receipts : list Receipts.Receipt),
    receipts <> [] ->
    exists s,
      Dashboard.stats h now receipts = Some s
      /\ (forall sorted,
             Permutation sorted (map Receipts.amount receipts) ->
             StronglySorted Qle sorted ->
             Receipts.medianAmount s == centre sorted)
      /\ (Permutation (map Receipts.amount receipts) [10; 20; 30] ->
          Receipts.medianAmount s == 20)
      /\ (Permutation (map Receipts.amount receipts) [10; 20; 30; 40] ->
          Receipts.medianAmount s == 25).
Proof.
  intros h now receipts Hne.
  destruct (stats_nonempty h now receipts Hne) as (m & Hm & ->).
  destruct (median_spec receipts Hne) as (m' & Hm' & Hspec).
  rewrite Hm in Hm'. injection Hm' as <-.
  eexists. split; [reflexivity |]. cbn [Receipts.medianAmount].
  split; [exact Hspec |].
  split; intros Hperm.
  - rewrite (Hspec [10; 20; 30]); [reflexivity | now symmetry |].
    repeat constructor; unfold Qle; simpl; lia.
  - rewrite (Hspec [10; 20; 30; 40]); [reflexivity | now symmetry |].
    repeat constructor; unfold Qle; simpl; lia.
Qed.

Lemma medianAmount_witness :
  exists s,
    Dashboard.stats Sample.utc Sample.now Sample.receipts = Some s
    /\ Receipts.medianAmount s == 2615 # 100.
Proof.
  destruct (medianAmount_is_centre_of_sorted_amounts
              Sample.utc Sample.now Sample.receipts ltac:(discriminate))
    as (s & Hs & Hspec & _).
  exists s. split; [exact Hs |].
  rewrite (Hspec [575 # 100; 1230 # 100; 4000 # 100; 8412 # 100]).
  - reflexivity.
  - vm_compute. apply Permutation_sym.
    apply perm_skip. apply Permutation_sym.
    change [8412 # 100; 1230 # 100; 4000 # 100] with ([8412 # 100] ++ [1230 # 100; 4000 # 100]).
    change [1230 # 100; 4000 # 100; 8412 # 100] with ([1230 # 100; 4000 # 100] ++ [8412 # 100]).
    apply Permutation_app_comm.
  - repeat constructor; unfold Qle; simpl; lia.
Defined.

(* ===================================================================== *)
(** * Objects as maps, and the most frequent vendor                       *)
(* ===================================================================== *)

Section ObjectFacts.
Context {A : Type}.
Implicit Types (o : JS.object A) (k : string) (v : JS.value A).

Lemma getOwn_In o k v : NoDup (map fst o) -> (JS.getOwn o k = Some v <-> In (k, v) o).
Proof.
  induction o as [|[k' v'] rest IH]; simpl; intros Hnd.
  - split; [discriminate | tauto].
  - inversion Hnd as [|? ? Hnotin Hnd']; subst.
    destruct (String.eqb_spec k' k) as [-> | Hne].
    + split.
      * intros [= ->]. now left.
      * intros [[= ->] | Hin]; [reflexivity |].
        exfalso. apply Hnotin. apply in_map_iff. now exists (k, v).
    + rewrite (IH Hnd'). split; [tauto |].
      intros [[= -> ->] | Hin]; [congruence | exact Hin].
Qed.

Lemma getOwn_None o k : JS.getOwn o k = None <-> ~ In k (map fst o).
Proof.
  induction o as [|[k' v'] rest IH]; simpl.
  - tauto.
  - destruct (String.eqb_spec k' k) as [-> | Hne].
    + split; [discriminate | tauto].
    + rewrite IH. tauto.
Qed.

Lemma setOwn_keys_present o k v :
  In k (map fst o) -> map fst (JS.setOwn o k v) = map fst o.
Proof.
  induction o as [|[k' v'] rest IH]; simpl; [tauto |].
  destruct (String.eqb_spec k' k) as [-> | Hne]; simpl; [reflexivity |].
  intros [Heq | Hin]; [congruence |]. now rewrite IH.
Qed.

Lemma setOwn_keys_absent o k v :
  ~ In k (map fst o) -> map fst (JS.setOwn o k v) = map fst o ++ [k].
Proof.
  induction o as [|[k' v'] rest IH]; simpl; [reflexivity |].
  destruct (String.eqb_spec k' k) as [-> | Hne]; simpl; [tauto |].
  intros Hnotin. rewrite IH; tauto.
Qed.

Lemma setOwn_NoDup o k v : NoDup (map fst o) -> NoDup (map fst (JS.setOwn o k v)).
Proof.
  intros Hnd. destruct (in_dec string_dec k (map fst o)) as [Hin | Hnotin].
  - now rewrite setOwn_keys_present.
  - rewrite setOwn_keys_absent by assumption.
    apply NoDup_app; [assumption | repeat constructor; simpl; tauto |].
    intros x Hx [<- | []]. contradiction.
Qed.

Lemma setOwn_In o k v k' v' :
  NoDup (map fst o) ->
  (In (k', v') (JS.setOwn o k v) <-> (k' = k /\ v' = v) \/ (k' <> k /\ In (k', v') o)).
Proof.
  induction o as [|[k0 v0] rest IH]; simpl; intros Hnd.
  - split.
    + intros [[= -> ->] | []]. now left.
    + intros [[-> ->] | [_ []]]. now left.
  - inversion Hnd as [|? ? Hnotin Hnd']; subst.
    destruct (String.eqb_spec k0 k) as [-> | Hne]; simpl.
    + split.
      * intros [[= -> ->] | Hin]; [now left |].
        right. split; [| now right]. intros ->. apply Hnotin.
        apply in_map_iff. now exists (k, v').
      * intros [[-> ->] | [Hne [[= -> ->] | Hin]]]; [now left | congruence | now right].
    + rewrite (IH Hnd'). split.
      * intros [[= -> ->] | [[-> ->] | [Hne' Hin]]];
          [right; split; [congruence | now left] | now left | right; split; [assumption | now right]].
      * intros [[-> ->] | [Hne' [[= -> ->] | Hin]]];
          [right; now left | now left | right; right; now split].
Qed.

Lemma partition_perm (f : string * JS.value A -> bool) (l : list (string * JS.value A)) :
  Permutation (filter f l ++ filter (fun p => negb (f p)) l) l.
Proof.
  induction l as [|x rest IH]; simpl; [reflexivity |].
  destruct (f x); simpl.
  - now constructor.
  - rewrite <- Permutation_middle. now constructor.
Qed.

Lemma Object_entries_perm o : Permutation (JS.Object_entries o) o.
Proof.
  unfold JS.Object_entries. rewrite Array_sort_perm. apply partition_perm.
Qed.

End ObjectFacts.

Section VendorFacts.
Import Receipts Dashboard.

(** How often a vendor occurs in a record set. *)
Definition occurrences (receipts : list Receipt) (name : string) : nat :=
  count_occ string_dec (map vendor receipts) name.

(** No vendor name of the record set is a property name of [Object.prototype]. *)
Definition plainVendors (receipts : list Receipt) : Prop :=
  Forall (fun r => JS.inherited (vendor r) = false) receipts.

Definition countStep (acc : JS.object nat) (receipt : Receipt) : JS.object nat :=
  JS.accumulate 0%nat Nat.add acc (vendor receipt) 1%nat.

(** The counts held by the object after the receipts seen so far. *)
Definition counted (seen : list Receipt) (o : JS.object nat) : Prop :=
  NoDup (map fst o)
  /\ forall k v, In (k, v) o <-> (v = JS.Num (occurrences seen k) /\ (0 < occurrences seen k)%nat).

Lemma inherited_proto (k : string) :
  JS.inherited k = false -> String.eqb k "__proto__" = false.
Proof.
  intros Hk. destruct (String.eqb_spec k "__proto__") as [-> | ]; [| reflexivity].
  vm_compute in Hk. discriminate.
Qed.

Lemma occurrences_snoc (seen : list Receipt) (r : Receipt) (k : string) :
  occurrences (seen ++ [r]) k
  = (occurrences seen k + if string_dec (vendor r) k then 1 else 0)%nat.
Proof.
  unfold occurrences. rewrite map_app, count_occ_app. simpl.
  destruct (string_dec (vendor r) k); reflexivity.
Qed.

Lemma counted_step (seen : list Receipt) (o : JS.object nat) (r : Receipt) :
  JS.inherited (vendor r) = false -> counted seen o -> counted (seen ++ [r]) (countStep o r).
Proof.
  intros Hplain [Hnd Hin]. unfold countStep, JS.accumulate.
  rewrite (inherited_proto _ Hplain), Hplain.
  assert (forall w, JS.getOwn o (vendor r) = Some w ->
                    w = JS.Num (occurrences seen (vendor r))
                    /\ (0 < occurrences seen (vendor r))%nat) as Hown.
  { intros w Hw. apply getOwn_In in Hw; [| exact Hnd]. now apply Hin. }
  assert (JS.getOwn o (vendor r) = None -> occurrences seen (vendor r) = 0%nat) as Hnone.
  { intros Hn. apply getOwn_None in Hn.
    destruct (occurrences seen (vendor r)) as [|c] eqn:Ec; [reflexivity |].
    exfalso. apply Hn. apply in_map_iff.
    exists (vendor r, JS.Num (S c)). split; [reflexivity |]. apply Hin. rewrite Ec. split; [reflexivity | lia]. }
  assert (forall c, (c = occurrences seen (vendor r) + 1)%nat ->
                    counted (seen ++ [r]) (JS.setOwn o (vendor r) (JS.Num c))) as Hset.
  { intros c Hc. split; [now apply setOwn_NoDup |].
    intros k v. rewrite setOwn_In by exact Hnd. rewrite occurrences_snoc, Hin.
    destruct (string_dec (vendor r) k) as [<- | Hne].
    - split.
      + intros [[_ ->] | [Habs _]]; [| congruence]. split; [now rewrite Hc | lia].
      + intros [-> _]. left. split; [reflexivity | now rewrite Hc].
    - rewrite Nat.add_0_r. split.
      + intros [[-> _] | [_ H]]; [congruence | exact H].
      + intros H. right. split; [congruence | exact H]. }
  destruct (JS.getOwn o (vendor r)) as [[n |] |] eqn:Eget.
  - destruct (Hown _ eq_refl) as [[= ->] _]. apply Hset. reflexivity.
  - destruct (Hown _ eq_refl) as [Habs _]. discriminate.
  - apply Hset. rewrite (Hnone eq_refl). reflexivity.
Qed.

Lemma counted_fold (receipts seen : list Receipt) (o : JS.object nat) :
  plainVendors receipts -> counted seen o ->
  counted (seen ++ receipts) (fold_left countStep receipts o).
Proof.
  revert seen o. induction receipts as [|r rest IH]; intros seen o Hplain Hc; simpl.
  - now rewrite app_nil_r.
  - inversion Hplain as [|? ? Hr Hrest]; subst.
    replace (seen ++ r :: rest) with ((seen ++ [r]) ++ rest) by now rewrite <- app_assoc.
    apply IH; [exact Hrest |]. now apply counted_step.
Qed.

Lemma vendorCounts_counted (receipts : list Receipt) :
  plainVendors receipts -> counted receipts (vendorCounts receipts).
Proof.
  intros Hplain. apply (counted_fold receipts [] []); [exact Hplain |].
  split; [constructor |]. intros k v. unfold occurrences. simpl. split; [tauto | lia].
Qed.

Lemma byCountDescending_keepsOrder (k1 k2 : string) (c1 c2 : nat) :
  keepsOrder byCountDescending (k1, JS.Num c1) (k2, JS.Num c2) <-> (c2 <= c1)%nat.
Proof.
  unfold keepsOrder, byCountDescending. cbn [snd].
  rewrite positive_Finite_false, inject_Z_nonpos. lia.
Qed.

Lemma mostFrequentVendor_spec (receipts : list Receipt) :
  receipts <> [] -> plainVendors receipts ->
  In (mostFrequentVendor receipts) (map vendor receipts)
  /\ forall name, (occurrences receipts name <= occurrences receipts (mostFrequentVendor receipts))%nat.
Proof.
  intros Hne Hplain.
  destruct (vendorCounts_counted receipts Hplain) as [Hnd Hin].
  set (o := vendorCounts receipts) in *.
  set (isCount := fun p : string * JS.value nat =>
                    snd p = JS.Num (occurrences receipts (fst p))
                    /\ (0 < occurrences receipts (fst p))%nat).
  assert (forall p, In p o -> isCount p) as Hcount.
  { intros [k v] Hp. now apply Hin. }
  set (sorted := JS.Array_sort byCountDescending (JS.Object_entries o)).
  assert (Permutation sorted o) as Hperm.
  { unfold sorted. rewrite Array_sort_perm. apply Object_entries_perm. }
  assert (Forall isCount (JS.Object_entries o)) as Hall.
  { apply Forall_forall. intros p Hp. apply Hcount.
    now apply (Permutation_in _ (Object_entries_perm o)). }
  assert (StronglySorted (keepsOrder byCountDescending) sorted) as Hsorted.
  { apply (Array_sort_sorted _ isCount); [| | exact Hall].
    - intros [k1 v1] [k2 v2] [H1 _] [H2 _] Hpos. simpl in H1, H2. subst v1 v2.
      apply byCountDescending_keepsOrder.
      unfold byCountDescending in Hpos. cbn [snd] in Hpos.
      rewrite positive_Finite_true, inject_Z_pos in Hpos. lia.
    - intros [k1 v1] [k2 v2] [k3 v3] [H1 _] [H2 _] [H3 _]. simpl in H1, H2, H3. subst v1 v2 v3.
      rewrite !byCountDescending_keepsOrder. lia. }
  unfold mostFrequentVendor. fold o. fold sorted.
  destruct sorted as [|[top v] rest] eqn:Es.
  - exfalso. apply Permutation_nil in Hperm.
    destruct receipts as [|r rest]; [congruence |].
    assert (In (vendor r, JS.Num (occurrences (r :: rest) (vendor r))) o) as Habs.
    { apply Hin. split; [reflexivity |]. unfold occurrences. simpl.
      destruct (string_dec (vendor r) (vendor r)); [lia | congruence]. }
    rewrite Hperm in Habs. exact Habs.
  - assert (isCount (top, v)) as [Hv Hpos].
    { apply Hcount. apply (Permutation_in _ Hperm). now left. }
    simpl in Hv, Hpos. subst v.
    assert ((if String.eqb top EmptyString then EmptyString else top) = top) as ->.
    { destruct (String.eqb_spec top EmptyString); congruence. }
    split.
    + unfold occurrences in Hpos. now apply (count_occ_In string_dec).
    + intros name. destruct (occurrences receipts name) as [|c] eqn:Ec; [lia |].
      assert (In (name, JS.Num (S c)) ((top, JS.Num (occurrences receipts top)) :: rest)) as Hn.
      { apply (Permutation_in _ (Permutation_sym Hperm)). apply Hin. rewrite Ec. split; [reflexivity | lia]. }
      destruct Hn as [[= -> Heq] | Hn]; [lia |].
      inversion Hsorted as [|? ? _ Hhd]; subst.
      rewrite Forall_forall in Hhd. specialize (Hhd _ Hn).
      apply byCountDescending_keepsOrder in Hhd. exact Hhd.
Qed.

Lemma generated_vendors_plain :
  Forall (fun name => JS.inherited name = false) vendors.
Proof. repeat constructor. Qed.

End VendorFacts.

(** C6: for a record set that is not empty, the top vendor is the vendor of one of its
    records and no vendor occurs more often; it is a function of the record set alone,
    the same on every host and at every time.  Vendor names are text that is not a
    property name of [Object.prototype], as the names of the generator are. *)
Theorem topVendor_is_a_most_frequent_vendor :
  forall (h : JS.Host) (now : Z) (receipts : list Receipts.Receipt),
    receipts <> [] ->
    plainVendors receipts ->
    exists s,
      Dashboard.stats h now receipts = Some s
      /\ In (Receipts.topVendor s) (map Receipts.vendor receipts)
      /\ (forall name,
            (occurrences receipts name <= occurrences receipts (Receipts.topVendor s))%nat)
      /\ (forall h' now' s',
            Dashboard.stats h' now' receipts = Some s' ->
            Receipts.topVendor s' = Receipts.topVendor s).
Proof.
  intros h now receipts Hne Hplain.
  destruct (stats_nonempty h now receipts Hne) as (m & _ & Hs).
  destruct (mostFrequentVendor_spec receipts Hne Hplain) as [Hin Hmax].
  eexists. split; [exact Hs |]. cbn [Receipts.topVendor].
  split; [exact Hin |]. split; [exact Hmax |].
  intros h' now' s' Hs'.
  destruct (stats_nonempty h' now' receipts Hne) as (m' & _ & Hs'').
  rewrite Hs'' in Hs'. injection Hs' as <-. reflexivity.
Qed.

Lemma topVendor_witness :
  exists s,
    Dashboard.stats Sample.utc Sample.now (Sample.coffee :: Sample.receipts) = Some s
    /\ Receipts.topVendor s = "Starbucks"
    /\ occurrences (Sample.coffee :: Sample.receipts) (Receipts.topVendor s) = 2%nat.
Proof.
  destruct (topVendor_is_a_most_frequent_vendor
              Sample.utc Sample.now (Sample.coffee :: Sample.receipts)
              ltac:(discriminate) ltac:(repeat constructor))
    as (s & Hs & _ & _ & Hsame).
  exists s. split; [exact Hs |].
  assert (Receipts.topVendor s = "Starbucks") as ->.
  { vm_compute in Hs. injection Hs as <-. reflexivity. }
  split; reflexivity.
Defined.

(* ===================================================================== *)
(** * The calendar of [Date]                                              *)
(* ===================================================================== *)

Section CalendarFacts.
Import JS.
Local Open Scope Z_scope.

Ltac floors := Z.to_euclidean_division_equations; lia.

Lemma DayFromYear_shift (y : Z) : DayFromYear (y + 400) = DayFromYear y + 146097.
Proof. unfold DayFromYear. floors. Qed.

Lemma DaysInYear_shift (y : Z) : DaysInYear (y + 400) = DaysInYear y.
Proof.
  unfold DaysInYear.
  replace ((y + 400) mod 4) with (y mod 4) by floors.
  replace ((y + 400) mod 100) with (y mod 100) by floors.
  replace ((y + 400) mod 400) with (y mod 400) by floors.
  reflexivity.
Qed.

(** A property of years that has period 400 holds of every year when it holds of the
    years 0 to 399. *)
Lemma cycle_400 (P : Z -> Prop) :
  (forall y, P y <-> P (y + 400)) ->
  (forall b, 0 <= b < 400 -> P b) -> forall y, P y.
Proof.
  intros Hper Hbase y.
  assert (forall (n : nat) b, 0 <= b < 400 ->
            P (b + 400 * Z.of_nat n) /\ P (b - 400 * Z.of_nat n)) as H.
  { induction n as [|n IH]; intros b Hb.
    - rewrite Z.mul_0_r, Z.add_0_r, Z.sub_0_r. auto.
    - destruct (IH b Hb) as [Hp Hm]. split.
      + replace (b + 400 * Z.of_nat (S n)) with (b + 400 * Z.of_nat n + 400) by lia.
        apply (proj1 (Hper _)). exact Hp.
      + apply (proj2 (Hper _)).
        replace (b - 400 * Z.of_nat (S n) + 400) with (b - 400 * Z.of_nat n) by lia.
        exact Hm. }
  destruct (Z_le_gt_dec 0 (y / 400)) as [Hq | Hq].
  - replace y with (y mod 400 + 400 * Z.of_nat (Z.to_nat (y / 400))) by floors.
    apply H. floors.
  - replace y with (y mod 400 - 400 * Z.of_nat (Z.to_nat (- (y / 400)))) by floors.
    apply H. floors.
Qed.

Definition cycleYears : list Z := map Z.of_nat (seq 0 400).

Lemma in_cycleYears (b : Z) : 0 <= b < 400 -> In b cycleYears.
Proof.
  intros Hb. unfold cycleYears. apply in_map_iff. exists (Z.to_nat b).
  split; [lia |]. apply in_seq. lia.
Qed.

Lemma DayFromYear_succ (y : Z) : DayFromYear (y + 1) = DayFromYear y + DaysInYear y.
Proof.
  revert y. apply cycle_400.
  - intros y. replace (y + 400 + 1) with (y + 1 + 400) by lia.
    rewrite !DayFromYear_shift, DaysInYear_shift. lia.
  - intros b Hb.
    assert (forallb (fun b => DayFromYear (b + 1) =? DayFromYear b + DaysInYear b)
                    cycleYears = true) as Hall by (vm_compute; reflexivity).
    rewrite forallb_forall in Hall. apply Z.eqb_eq, Hall. now apply in_cycleYears.
Qed.

Lemma DaysInYear_leapDays (y : Z) :
  DaysInYear y = 365 + leapDays y /\ 0 <= leapDays y <= 1.
Proof.
  unfold leapDays, DaysInYear.
  destruct (y mod 4 =? 0), (y mod 100 =? 0), (y mod 400 =? 0); simpl; lia.
Qed.

Lemma DayFromYear_mono (a b : Z) : a <= b -> DayFromYear a <= DayFromYear b.
Proof. unfold DayFromYear. intros. floors. Qed.

(** [YearFromDay d] is the year that holds day [d]. *)
Lemma YearFromDay_spec (d : Z) :
  DayFromYear (YearFromDay d) <= d < DayFromYear (YearFromDay d + 1).
Proof.
  unfold YearFromDay.
  set (y := 1970 + 400 * d / 146097).
  destruct (d <? DayFromYear y) eqn:E1.
  - apply Z.ltb_lt in E1. replace (y - 1 + 1) with y by lia. split; [| lia].
    unfold DayFromYear in *. subst y. floors.
  - apply Z.ltb_ge in E1. destruct (DayFromYear (y + 1) <=? d) eqn:E2.
    + apply Z.leb_le in E2. split; [lia |]. unfold DayFromYear in *. subst y. floors.
    + apply Z.leb_gt in E2. lia.
Qed.

Lemma YearFromDay_unique (d y : Z) :
  DayFromYear y <= d < DayFromYear (y + 1) -> YearFromDay d = y.
Proof.
  intros Hy. pose proof (YearFromDay_spec d) as Hs.
  destruct (Z.lt_trichotomy (YearFromDay d) y) as [Hlt | [Heq | Hgt]]; [| exact Heq |].
  - pose proof (DayFromYear_mono (YearFromDay d + 1) y ltac:(lia)). lia.
  - pose proof (DayFromYear_mono (y + 1) (YearFromDay d) ltac:(lia)). lia.
Qed.

(** The largest year whose first instant is not after [t], as the language
    specification defines [YearFromTime]. *)
Lemma YearFromTime_largest (t : Z) :
  TimeFromYear (YearFromTime t) <= t
  /\ forall y, TimeFromYear y <= t -> y <= YearFromTime t.
Proof.
  unfold TimeFromYear, YearFromTime, Day, msPerDay.
  pose proof (YearFromDay_spec (t / 86400000)) as [Hlo Hhi]. split; [floors |].
  intros y Hy. destruct (Z_le_gt_dec y (YearFromDay (t / 86400000))) as [| Hgt]; [assumption |].
  pose proof (DayFromYear_mono (YearFromDay (t / 86400000) + 1) y ltac:(lia)).
  floors.
Qed.

Lemma Day_MakeDate (day time : Z) : 0 <= time < msPerDay -> Day (MakeDate day time) = day.
Proof. unfold Day, MakeDate, msPerDay. intros. floors. Qed.

Lemma monthOfDay_range (leap d : Z) : 0 <= monthOfDay leap d <= 11.
Proof.
  unfold monthOfDay.
  repeat match goal with |- context [if ?c then _ else _] => destruct c end; lia.
Qed.

Lemma MonthFromTime_range (t : Z) : 0 <= MonthFromTime t <= 11.
Proof. apply monthOfDay_range. Qed.

(** Day [dd] of month [m] lies in the year and in that month. *)
Lemma month_table (leap m dd : Z) :
  leap = 0 \/ leap = 1 -> 0 <= m <= 11 ->
  1 <= dd <= (if m =? 11 then 31 else monthStart leap (m + 1) - monthStart leap m) ->
  0 <= monthStart leap m + dd - 1 < 365 + leap
  /\ monthOfDay leap (monthStart leap m + dd - 1) = m.
Proof.
  intros Hleap Hm.
  assert (m = 0 \/ m = 1 \/ m = 2 \/ m = 3 \/ m = 4 \/ m = 5 \/ m = 6 \/ m = 7 \/ m = 8
          \/ m = 9 \/ m = 10 \/ m = 11) as Hc by lia.
  destruct Hleap as [-> | ->];
    repeat (destruct Hc as [-> | Hc]); try subst m;
    vm_compute (monthStart _ _); vm_compute (_ =? _); cbv iota; intros Hdd;
    (split; [lia |]); unfold monthOfDay;
    repeat match goal with
           | |- context [if ?a <? ?b then _ else _] => destruct (Z.ltb_spec a b); try lia
           end.
Qed.

(** The fields of a time that falls on day [dd] of month [m] of year [y]. *)
Lemma fields_of_day (t y m dd : Z) :
  0 <= m <= 11 -> 1 <= dd <= DaysInMonth y m ->
  Day t = DayFromYear y + monthStart (leapDays y) m + dd - 1 ->
  YearFromTime t = y /\ MonthFromTime t = m /\ DateFromTime t = dd.
Proof.
  intros Hm Hdd Hday.
  destruct (DaysInYear_leapDays y) as [Hlen Hleap].
  destruct (month_table (leapDays y) m dd ltac:(lia) Hm Hdd) as [Hoff Hmonth].
  assert (YearFromTime t = y) as Hy.
  { unfold YearFromTime. apply YearFromDay_unique. rewrite DayFromYear_succ. lia. }
  assert (DayWithinYear t = monthStart (leapDays y) m + dd - 1) as Hdwy.
  { unfold DayWithinYear. rewrite Hy. lia. }
  assert (MonthFromTime t = m) as Hmo.
  { unfold MonthFromTime, InLeapYear. now rewrite Hdwy, Hy. }
  split; [exact Hy |]. split; [exact Hmo |].
  unfold DateFromTime, InLeapYear. rewrite Hmo, Hy, Hdwy. lia.
Qed.

Lemma DaysInMonth_positive (y m : Z) : 0 <= m <= 11 -> 28 <= DaysInMonth y m <= 31.
Proof.
  intros Hm. unfold DaysInMonth.
  destruct (DaysInYear_leapDays y) as [_ Hleap].
  assert (leapDays y = 0 \/ leapDays y = 1) as [-> | ->] by lia;
    assert (m = 0 \/ m = 1 \/ m = 2 \/ m = 3 \/ m = 4 \/ m = 5 \/ m = 6 \/ m = 7 \/ m = 8
            \/ m = 9 \/ m = 10 \/ m = 11) as Hc by lia;
    repeat (destruct Hc as [-> | Hc]); try subst m; vm_compute; split; discriminate.
Qed.

Lemma first_of_month (year month : Z) :
  let t := MakeDate (MakeDay year month 1) 0 in
  YearFromTime t = year + month / 12 /\ MonthFromTime t = month mod 12.
Proof.
  intros t.
  assert (0 <= month mod 12 <= 11) as Hm by floors.
  destruct (fields_of_day t (year + month / 12) (month mod 12) 1 Hm) as (Hy & Hmo & _).
  - pose proof (DaysInMonth_positive (year + month / 12) (month mod 12) Hm). lia.
  - unfold t. rewrite Day_MakeDate by (unfold msPerDay; lia). unfold MakeDay. lia.
  - auto.
Qed.

End CalendarFacts.

(* ===================================================================== *)
(** * Spend by month and the six-month trend                              *)
(* ===================================================================== *)

(** The clock reads a time value from 1970-01-02 on, and local time is less than a
    day away from UTC. *)
Definition plausibleClock (h : JS.Host) (now : Z) : Prop :=
  (Z.abs (JS.LocalTZA h) < JS.msPerDay)%Z
  /\ (JS.msPerDay <= now <= 8640000000000000)%Z.

Section TrendFacts.
Import Receipts Dashboard JS.
Local Open Scope Z_scope.

Ltac floors := Z.to_euclidean_division_equations; lia.

Lemma YearFromTime_after_epoch (t : Z) : 0 <= t -> 1970 <= YearFromTime t.
Proof.
  intros Ht. apply (proj2 (YearFromTime_largest t)).
  replace (TimeFromYear 1970) with 0 by reflexivity. exact Ht.
Qed.

Lemma monthStart_monotone (leap a b : Z) :
  0 <= leap <= 1 -> 0 <= a <= b -> b <= 11 -> monthStart leap a <= monthStart leap b.
Proof.
  intros Hl Ha Hb. unfold monthStart.
  repeat match goal with |- context [if ?x =? ?y then _ else _] =>
    destruct (Z.eqb_spec x y) end; lia.
Qed.

Lemma monthStart_monthOfDay (leap d : Z) :
  0 <= leap <= 1 -> 0 <= d -> monthStart leap (monthOfDay leap d) <= d.
Proof.
  intros Hl Hd. unfold monthOfDay.
  repeat match goal with |- context [if ?a <? ?b then _ else _] =>
    destruct (Z.ltb_spec a b) end;
  unfold monthStart; cbn [Z.eqb Pos.eqb]; lia.
Qed.

Section Clock.
Variables (h : Host) (now : Z).
Hypothesis clock : plausibleClock h now.

Let local : Z := LocalTime h now.

Lemma local_after_epoch : 0 <= local.
Proof. destruct clock as [Hz Hn]. unfold local, LocalTime, msPerDay in *. lia. Qed.

Lemma currentYear_after_epoch : 1970 <= currentYear h now.
Proof. apply YearFromTime_after_epoch, local_after_epoch. Qed.

Lemma currentMonth_range : 0 <= currentMonth h now <= 11.
Proof. apply MonthFromTime_range. Qed.

(** The first day of the current month is not after today. *)
Lemma month_started :
  DayFromYear (currentYear h now)
  + monthStart (leapDays (currentYear h now)) (currentMonth h now) <= Day local.
Proof.
  unfold currentMonth, currentYear, MonthFromTime, InLeapYear. fold local.
  destruct (DaysInYear_leapDays (YearFromTime local)) as [_ Hleap].
  assert (0 <= DayWithinYear local) as Hd.
  { unfold DayWithinYear, YearFromTime. pose proof (YearFromDay_spec (Day local)). lia. }
  pose proof (monthStart_monthOfDay (leapDays (YearFromTime local)) (DayWithinYear local) Hleap Hd).
  unfold DayWithinYear in *. lia.
Qed.

(** The target date of turn [i] of the trend loop is the first day of the month
    [i] months before the current one. *)
Lemma target_fields (i : Z) :
  0 <= i <= 11 ->
  let target := Date_local h (currentYear h now) (currentMonth h now - i) 1 in
  getMonth h target = Some ((currentMonth h now - i) mod 12)
  /\ getFullYear h target = Some (currentYear h now + (currentMonth h now - i) / 12).
Proof.
  intros Hi target.
  pose proof currentYear_after_epoch as Hy. pose proof currentMonth_range as Hm.
  pose proof month_started as Hstart. pose proof local_after_epoch as Hlocal.
  destruct clock as [Hz Hn].
  set (Y := currentYear h now) in *. set (M := currentMonth h now) in *.
  set (X := MakeDate (MakeDay Y (M - i) 1) 0).
  assert (target = Some (UTC h X)) as ->.
  { unfold target, Date_local.
    assert ((0 <=? Y) && (Y <=? 99) = false) as ->
        by (apply andb_false_iff; right; apply Z.leb_gt; lia).
    fold X. unfold TimeClip.
    assert (MakeDay Y (M - i) 1 <= Day local) as Hle.
    { unfold MakeDay.
      destruct (Z_le_gt_dec 0 (M - i)) as [Hpos | Hneg].
      - replace ((M - i) / 12) with 0 by floors.
        replace ((M - i) mod 12) with (M - i) by floors.
        rewrite Z.add_0_r.
        destruct (DaysInYear_leapDays Y) as [_ Hleap].
        pose proof (monthStart_monotone (leapDays Y) (M - i) M Hleap ltac:(lia) ltac:(lia)).
        lia.
      - replace ((M - i) / 12) with (-1) by floors.
        destruct (DaysInYear_leapDays (Y + -1)) as [Hlen Hleap].
        pose proof (monthStart_monotone (leapDays (Y + -1)) ((M - i) mod 12) 11 Hleap
                      ltac:(floors) ltac:(floors)) as Hmono.
        replace (monthStart (leapDays (Y + -1)) 11) with (334 + leapDays (Y + -1)) in Hmono
          by reflexivity.
        pose proof (DayFromYear_succ (Y + -1)) as Hsucc.
        replace (Y + -1 + 1) with Y in Hsucc by lia.
        destruct (DaysInYear_leapDays Y) as [_ HleapY].
        pose proof (monthStart_monotone (leapDays Y) 0 M HleapY ltac:(lia) ltac:(lia)) as H0.
        replace (monthStart (leapDays Y) 0) with 0 in H0 by reflexivity.
        lia. }
    assert (DayFromYear 1969 <= MakeDay Y (M - i) 1) as Hlow.
    { unfold MakeDay.
      assert (Y - 1 <= Y + (M - i) / 12) as Hym by floors.
      pose proof (DayFromYear_mono 1969 (Y + (M - i) / 12) ltac:(lia)).
      destruct (DaysInYear_leapDays (Y + (M - i) / 12)) as [_ Hleap].
      pose proof (monthStart_monotone (leapDays (Y + (M - i) / 12)) 0 ((M - i) mod 12) Hleap
                    ltac:(floors) ltac:(floors)) as H0.
      replace (monthStart (leapDays (Y + (M - i) / 12)) 0) with 0 in H0 by reflexivity.
      lia. }
    replace (DayFromYear 1969) with (-365) in Hlow by reflexivity.
    assert ((Z.abs (UTC h X) >? 8640000000000000) = false) as Hclip.
    { rewrite Z.gtb_ltb. apply Z.ltb_ge.
      unfold UTC, X, MakeDate. unfold local, LocalTime, Day, msPerDay in *. floors. }
    now rewrite Hclip. }
  unfold getMonth, getFullYear, option_map.
  assert (LocalTime h (UTC h X) = X) as -> by (unfold LocalTime, UTC; lia).
  destruct (first_of_month Y (M - i)) as [Hyear Hmonth]. fold X in Hyear, Hmonth.
  now rewrite Hyear, Hmonth.
Qed.

Lemma toLocaleDateString_short_fields (d : option Z) (month year : Z) :
  getMonth h d = Some month -> getFullYear h d = Some year -> 1 <= year ->
  toLocaleDateString_short h d = (monthShort month ++ " " ++ decimal year)%string.
Proof.
  destruct d as [t|]; cbn [getMonth getFullYear option_map]; [| discriminate].
  intros Hmonth Hyear Hpos.
  assert (MonthFromTime (LocalTime h t) = month) as Em by congruence.
  assert (YearFromTime (LocalTime h t) = year) as Ey by congruence.
  unfold toLocaleDateString_short. cbv zeta. rewrite Em, Ey.
  apply Z.leb_le in Hpos. rewrite Hpos. reflexivity.
Qed.

(** The year and the month (0 to 11) of the month [i] months before the current
    one. *)
Definition trendYear (i : Z) : Z := currentYear h now + (currentMonth h now - i) / 12.
Definition trendMonth (i : Z) : Z := (currentMonth h now - i) mod 12.

Lemma trendPoint_spec (receipts : list Receipt) (i : nat) :
  (i <= 11)%nat ->
  trendPoint h now receipts i
  = Trend.mkPoint
      (monthShort (trendMonth (Z.of_nat i)) ++ " " ++ decimal (trendYear (Z.of_nat i)))%string
      (spendIn h (Some (trendMonth (Z.of_nat i))) (Some (trendYear (Z.of_nat i))) receipts).
Proof.
  intros Hi. unfold trendPoint.
  destruct (target_fields (Z.of_nat i) ltac:(lia)) as [Hmo Hyr].
  fold (trendMonth (Z.of_nat i)) in Hmo. fold (trendYear (Z.of_nat i)) in Hyr.
  rewrite Hmo, Hyr.
  rewrite (toLocaleDateString_short_fields _ _ _ Hmo Hyr); [reflexivity |].
  pose proof currentYear_after_epoch. pose proof currentMonth_range.
  unfold trendYear. floors.
Qed.

Lemma trend_current_month (receipts : list Receipt) :
  Trend.amount (trendPoint h now receipts 0)
  = spendIn h (Some (currentMonth h now)) (Some (currentYear h now)) receipts.
Proof.
  rewrite trendPoint_spec by lia. cbn [Trend.amount].
  pose proof currentMonth_range. change (Z.of_nat 0) with 0.
  replace (trendMonth 0) with (currentMonth h now) by (unfold trendMonth; floors).
  replace (trendYear 0) with (currentYear h now) by (unfold trendYear; floors).
  reflexivity.
Qed.

End Clock.
End TrendFacts.

(** C10: for a record set that is not empty, evaluated at one time, the trend has six
    entries and the amount of the last of them is the current-month spend. *)
Theorem monthlyTrend_last_is_currentMonthSpend :
  forall (h : JS.Host) (now : Z) (receipts : list Receipts.Receipt),
    receipts <> [] ->
    plausibleClock h now ->
    exists s,
      Dashboard.stats h now receipts = Some s
      /\ length (Receipts.monthlyTrend s) = 6%nat
      /\ exists p,
           nth_error (Receipts.monthlyTrend s) 5 = Some p
           /\ last (Receipts.monthlyTrend s) p = p
           /\ Receipts.Trend.amount p = Receipts.currentMonthSpend s.
Proof.
  intros h now receipts Hne Hclock.
  destruct (stats_nonempty h now receipts Hne) as (m & _ & ->).
  eexists. split; [reflexivity |].
  cbn [Receipts.monthlyTrend Receipts.currentMonthSpend].
  split; [reflexivity |].
  exists (Dashboard.trendPoint h now receipts 0).
  split; [reflexivity |]. split; [reflexivity |].
  now apply trend_current_month.
Qed.

Lemma sample_clock : plausibleClock Sample.newYork Sample.now.
Proof. unfold plausibleClock. vm_compute. repeat split; discriminate. Qed.

Lemma monthlyTrend_last_witness :
  exists s p,
    Dashboard.stats Sample.newYork Sample.now Sample.receipts = Some s
    /\ nth_error (Receipts.monthlyTrend s) 5 = Some p
    /\ Receipts.Trend.month p = "Mar 2024"
    /\ Receipts.Trend.amount p = Receipts.currentMonthSpend s.
Proof.
  destruct (monthlyTrend_last_is_currentMonthSpend
              Sample.newYork Sample.now Sample.receipts ltac:(discriminate) sample_clock)
    as (s & Hs & _ & p & Hp & _ & Hamount).
  exists s, p. split; [exact Hs |]. split; [exact Hp |]. split; [| exact Hamount].
  vm_compute in Hs. injection Hs as <-. vm_compute in Hp. injection Hp as <-. reflexivity.
Defined.
(* ===================================================================== *)
(** * The month a receipt is dated in                                     *)
(* ===================================================================== *)

(** The receipt is dated in month [month] (0 to 11) of year [year]: its date is a
    valid date of the form [YYYY-MM-DD] that names this year and month. *)
Definition datedIn (year month : Z) (r : Receipts.Receipt) : bool :=
  match JS.parseISODate (Receipts.date r) with
  | Some (y, m, d) =>
      ((1 <=? m) && (m <=? 12) && (1 <=? d) && (d <=? JS.DaysInMonth y (m - 1))
       && (y =? year) && (m - 1 =? month))%Z
  | None => false
  end.

(** The date of the receipt is a calendar date with no time component: a string of
    the form [YYYY-MM-DD] that names a day that exists. *)
Definition calendarDate (r : Receipts.Receipt) : bool :=
  match JS.parseISODate (Receipts.date r) with
  | Some (y, m, d) =>
      ((1 <=? m) && (m <=? 12) && (1 <=? d) && (d <=? JS.DaysInMonth y (m - 1)))%Z
  | None => false
  end.

(** Local time is at or ahead of UTC, by less than a day. *)
Definition eastOfUTC (h : JS.Host) : Prop := (0 <= JS.LocalTZA h < JS.msPerDay)%Z.

Section DatedFacts.
Import Receipts Dashboard JS.
Local Open Scope Z_scope.

Ltac floors := Z.to_euclidean_division_equations; lia.

Lemma digitValue_range (c : ascii) : isDigit c = true -> 0 <= digitValue c <= 9.
Proof.
  unfold isDigit, digitValue. rewrite andb_true_iff, !Nat.leb_le. lia.
Qed.

Lemma digit_is_no_sign (c : ascii) :
  isDigit c = true -> Ascii.eqb c "+" = false /\ Ascii.eqb c "-" = false.
Proof.
  intros Hd. split; apply Ascii.eqb_neq; intros ->; discriminate.
Qed.

Lemma parseISODate_range (s : string) (y m d : Z) :
  parseISODate s = Some (y, m, d) -> 0 <= y <= 9999.
Proof.
  unfold parseISODate.
  destruct s as [|y1 [|y2 [|y3 [|y4 [|c1 [|m1 [|m2 [|c2 [|d1 [|d2 [|? ?]]]]]]]]]]];
    try discriminate.
  destruct (Ascii.eqb c1 "-" && Ascii.eqb c2 "-"
            && forallb isDigit [y1; y2; y3; y4; m1; m2; d1; d2]) eqn:E; [| discriminate].
  intros Heq.
  assert (y = 1000 * digitValue y1 + 100 * digitValue y2 + 10 * digitValue y3 + digitValue y4)
    as -> by congruence.
  clear Heq.
  apply andb_true_iff in E. destruct E as [_ E]. cbn [forallb] in E.
  repeat (apply andb_true_iff in E; destruct E as [?H E]).
  repeat match goal with H : isDigit _ = true |- _ => apply digitValue_range in H end.
  lia.
Qed.

(** A string of the form [YYYY-MM-DD] is a date of the Date Time String Format with
    these fields and nothing after them. *)
Lemma dateHead_date_only (s : string) (y m d : Z) :
  parseISODate s = Some (y, m, d) -> dateHead s = Some (y, m, d, EmptyString).
Proof.
  unfold parseISODate.
  destruct s as [|y1 [|y2 [|y3 [|y4 [|c1 [|m1 [|m2 [|c2 [|d1 [|d2 [|? ?]]]]]]]]]]];
    try discriminate.
  destruct (Ascii.eqb c1 "-" && Ascii.eqb c2 "-"
            && forallb isDigit [y1; y2; y3; y4; m1; m2; d1; d2]) eqn:E; [| discriminate].
  intros Heq.
  change (Some (y, m, d, EmptyString))
    with (option_map (fun fields : Z * Z * Z => (fields, EmptyString)) (Some (y, m, d))).
  rewrite <- Heq. clear Heq. cbn [option_map].
  apply andb_true_iff in E. destruct E as [E Hdigits].
  apply andb_true_iff in E. destruct E as [E1 E2].
  apply Ascii.eqb_eq in E1, E2. subst c1 c2.
  cbn [forallb] in Hdigits.
  repeat (apply andb_true_iff in Hdigits; destruct Hdigits as [?H Hdigits]).
  destruct (digit_is_no_sign y1 H) as [Hplus Hminus].
  unfold dateHead, yearHead. cbn [startsWith]. rewrite Hplus, Hminus.
  cbn [digitsHead]. rewrite H, H0, H1, H2.
  cbn [startsWith field digitsHead]. rewrite Ascii.eqb_refl, H3, H4.
  cbn [startsWith field digitsHead]. rewrite Ascii.eqb_refl, H5, H6.
  match goal with
  | |- Some (?a, ?b, ?c, _) = Some (?a', ?b', ?c', _) =>
      replace a with a' by lia; replace b with b' by lia; replace c with c' by lia
  end.
  reflexivity.
Qed.

(** The time value of a calendar date: midnight UTC of the day it names, on every
    host. *)
Lemma Date_parse_valid (h : Host) (s : string) (y m d : Z) :
  parseISODate s = Some (y, m, d) ->
  1 <= m <= 12 -> 1 <= d <= DaysInMonth y (m - 1) ->
  Date_parse h s = Some (MakeDate (MakeDay y (m - 1) d) 0).
Proof.
  intros Hp Hm Hd. unfold Date_parse, dateTime. rewrite (dateHead_date_only s y m d Hp).
  assert ((1 <=? m) && (m <=? 12) && (1 <=? d) && (d <=? DaysInMonth y (m - 1)) = true) as ->.
  { rewrite !andb_true_iff, !Z.leb_le. lia. }
  cbn [String.eqb].
  pose proof (parseISODate_range s y m d Hp) as Hy.
  unfold TimeClip.
  assert ((Z.abs (MakeDate (MakeDay y (m - 1) d) 0) >? 8640000000000000) = false) as Hclip;
    [| now rewrite Hclip].
  rewrite Z.gtb_ltb. apply Z.ltb_ge.
  pose proof (DaysInMonth_positive y (m - 1) ltac:(lia)) as Hlen.
  unfold MakeDate, MakeDay, msPerDay.
  replace ((m - 1) / 12) with 0 by floors. replace ((m - 1) mod 12) with (m - 1) by floors.
  rewrite !Z.add_0_r.
  pose proof (DayFromYear_mono 0 y ltac:(lia)) as Hlo.
  pose proof (DayFromYear_mono y 9999 ltac:(lia)) as Hhi.
  replace (DayFromYear 0) with (-719528) in Hlo by reflexivity.
  replace (DayFromYear 9999) with 2932532 in Hhi by reflexivity.
  destruct (DaysInYear_leapDays y) as [_ Hleap].
  pose proof (monthStart_monotone (leapDays y) 0 (m - 1) Hleap ltac:(lia) ltac:(lia)) as H0.
  pose proof (monthStart_monotone (leapDays y) (m - 1) 11 Hleap ltac:(lia) ltac:(lia)) as H1.
  replace (monthStart (leapDays y) 0) with 0 in H0 by reflexivity.
  replace (monthStart (leapDays y) 11) with (334 + leapDays y) in H1 by reflexivity.
  lia.
Qed.

Lemma calendarDate_fields (r : Receipt) :
  calendarDate r = true ->
  exists y m d, parseISODate (date r) = Some (y, m, d)
                /\ 1 <= m <= 12 /\ 1 <= d <= DaysInMonth y (m - 1).
Proof.
  unfold calendarDate. destruct (parseISODate (date r)) as [[[y m] d] |]; [| discriminate].
  rewrite !andb_true_iff, !Z.leb_le. intros Hok. exists y, m, d. split; [reflexivity | lia].
Qed.

Variable h : Host.
Hypothesis east : eastOfUTC h.

(** At or east of UTC the local month and year of a calendar date are those the
    string names. *)
Lemma local_fields_of_date (r : Receipt) (month year : Z) :
  calendarDate r = true ->
  strictEquals (getMonth h (Date_parse h (date r))) (Some month)
  && strictEquals (getFullYear h (Date_parse h (date r))) (Some year)
  = datedIn year month r.
Proof.
  intros Hdate. destruct (calendarDate_fields r Hdate) as (y & m & d & Hp & Hm & Hd).
  unfold datedIn. rewrite Hp.
  assert ((1 <=? m) && (m <=? 12) && (1 <=? d) && (d <=? DaysInMonth y (m - 1)) = true) as ->
    by (rewrite !andb_true_iff, !Z.leb_le; lia).
  rewrite (Date_parse_valid h _ y m d Hp) by lia.
  cbn [getMonth getFullYear option_map strictEquals].
  set (t := LocalTime h (MakeDate (MakeDay y (m - 1) d) 0)).
  destruct (fields_of_day t y (m - 1) d ltac:(lia) ltac:(lia)) as (Hy & Hmonth & _).
  - unfold t, LocalTime, MakeDate, MakeDay, Day. unfold eastOfUTC, msPerDay in *.
    replace ((m - 1) / 12) with 0 by floors.
    replace ((m - 1) mod 12) with (m - 1) by floors.
    rewrite !Z.add_0_r. floors.
  - rewrite Hy, Hmonth. cbn [andb]. apply andb_comm.
Qed.

Lemma spendIn_calendar_month (month year : Z) (receipts : list Receipt) :
  forallb calendarDate receipts = true ->
  spendIn h (Some month) (Some year) receipts
  = sumAmounts (filter (datedIn year month) receipts).
Proof.
  intros Hdates. unfold spendIn. f_equal. apply filter_ext_in. intros r Hr.
  apply local_fields_of_date. rewrite forallb_forall in Hdates. now apply Hdates.
Qed.

End DatedFacts.

(** What [new Date] reads on a host five hours west of UTC: a date alone is midnight
    UTC, a date and a time with no offset is local time, and [Z] or an offset says
    otherwise; 24:00 is the end of the day. *)
Lemma Date_parse_reads_the_format :
  JS.Date_parse Sample.newYork "2024-03-10" = Some 1710028800000%Z
  /\ JS.Date_parse Sample.newYork "2024-03" = Some 1709251200000%Z
  /\ JS.Date_parse Sample.newYork "2024" = Some 1704067200000%Z
  /\ JS.Date_parse Sample.newYork "+002024-03-10" = Some 1710028800000%Z
  /\ JS.Date_parse Sample.newYork "2024-03-10T09:30:00.000Z" = Some 1710063000000%Z
  /\ JS.Date_parse Sample.newYork "2024-03-10T09:30:15+05:30" = Some 1710043215000%Z
  /\ JS.Date_parse Sample.newYork "2024-03-10T09:30" = Some 1710081000000%Z
  /\ JS.Date_parse Sample.utc "2024-03-10T09:30" = Some 1710063000000%Z
  /\ JS.Date_parse Sample.newYork "2024-03-10T24:00" = Some 1710133200000%Z.
Proof. repeat split; vm_compute; reflexivity. Qed.

(** A text that is not of the format, or names a day that does not exist, is read as
    the host reads it. *)
Lemma Date_parse_outside_the_format (h : JS.Host) (s : string) :
  JS.dateTime h s = None ->
  JS.Date_parse h s
  = match JS.DateFallback h s with
    | Some t => JS.TimeClip t
    | None => None
    end.
Proof. intros Hnone. unfold JS.Date_parse. now rewrite Hnone. Qed.

Lemma outside_the_format (h : JS.Host) :
  JS.dateTime h "2024-02-30" = None
  /\ JS.dateTime h "March 1, 2024" = None
  /\ JS.dateTime h "2024-03-10 09:30" = None
  /\ JS.dateTime h "03/10/2024" = None
  /\ JS.dateTime h "unknown" = None.
Proof. repeat split; reflexivity. Qed.


(** The month before the current one: December of the year before when the current
    month is January. *)
Lemma lastMonth_rollover (h : JS.Host) (now : Z) :
  (12 * Dashboard.lastMonthYear h now + Dashboard.lastMonth h now
   = 12 * Dashboard.currentYear h now + Dashboard.currentMonth h now - 1)%Z
  /\ (0 <= Dashboard.lastMonth h now <= 11)%Z
  /\ (Dashboard.currentMonth h now = 0%Z ->
      Dashboard.lastMonth h now = 11%Z
      /\ Dashboard.lastMonthYear h now = (Dashboard.currentYear h now - 1)%Z).
Proof.
  unfold Dashboard.lastMonth, Dashboard.lastMonthYear.
  pose proof (MonthFromTime_range (JS.LocalTime h now)) as Hm.
  fold (Dashboard.currentMonth h now) in Hm.
  destruct (Z.eqb_spec (Dashboard.currentMonth h now) 0) as [-> | Hne]; lia.
Qed.

(** C4, evaluated where it fails.  On a host five hours west of UTC, at noon of 15
    March 2024, a receipt dated 2024-03-01 is dated in the current month and year; the
    current-month spend leaves it out and the last-month spend counts it.  On a
    host on UTC the same receipt is in the current-month spend. *)
Theorem currentMonthSpend_west_of_UTC :
  exists s s',
    Dashboard.stats Sample.newYork Sample.now [Sample.coffee] = Some s
    /\ Dashboard.stats Sample.utc Sample.now [Sample.coffee] = Some s'
    /\ JS.parseISODate (Receipts.date Sample.coffee) = Some (2024, 3, 1)%Z
    /\ Dashboard.currentYear Sample.newYork Sample.now = 2024%Z
    /\ Dashboard.currentMonth Sample.newYork Sample.now = 2%Z
    /\ datedIn 2024 2 Sample.coffee = true
    /\ Receipts.currentMonthSpend s == 0
    /\ Receipts.lastMonthSpend s == 575 # 100
    /\ Receipts.currentMonthSpend s' == 575 # 100
    /\ Receipts.lastMonthSpend s' == 0.
Proof.
  eexists. eexists.
  split; [vm_compute; reflexivity |].
  split; [vm_compute; reflexivity |].
  repeat split; vm_compute; reflexivity.
Qed.

(** Where local time is at or ahead of UTC and the date of every receipt is a
    calendar date with no time component, the current-month spend is the sum of the
    amounts of the receipts dated in the month and year of now, and the last-month
    spend is that of the month before, which is December of the year before when now is
    in January. *)
Theorem spend_by_calendar_month_east_of_UTC :
  forall (h : JS.Host) (now : Z) (receipts : list Receipts.Receipt),
    eastOfUTC h ->
    forallb calendarDate receipts = true ->
    receipts <> [] ->
    exists s,
      Dashboard.stats h now receipts = Some s
      /\ Receipts.currentMonthSpend s
         = Dashboard.sumAmounts
             (filter (datedIn (Dashboard.currentYear h now) (Dashboard.currentMonth h now))
                     receipts)
      /\ Receipts.lastMonthSpend s
         = Dashboard.sumAmounts
             (filter (datedIn (Dashboard.lastMonthYear h now) (Dashboard.lastMonth h now))
                     receipts)
      /\ (12 * Dashboard.lastMonthYear h now + Dashboard.lastMonth h now
          = 12 * Dashboard.currentYear h now + Dashboard.currentMonth h now - 1)%Z
      /\ (Dashboard.currentMonth h now = 0%Z ->
          Dashboard.lastMonth h now = 11%Z
          /\ Dashboard.lastMonthYear h now = (Dashboard.currentYear h now - 1)%Z).
Proof.
  intros h now receipts Heast Hdates Hne.
  destruct (stats_nonempty h now receipts Hne) as (m & _ & ->).
  eexists. split; [reflexivity |].
  cbn [Receipts.currentMonthSpend Receipts.lastMonthSpend].
  split; [now apply spendIn_calendar_month |].
  split; [now apply spendIn_calendar_month |].
  destruct (lastMonth_rollover h now) as (H1 & _ & H2). split; assumption.
Qed.

Lemma utc_east : eastOfUTC Sample.utc.
Proof. unfold eastOfUTC. vm_compute. split; [discriminate | reflexivity]. Qed.

Lemma spend_by_calendar_month_witness :
  exists s,
    Dashboard.stats Sample.utc Sample.now Sample.receipts = Some s
    /\ Receipts.currentMonthSpend s == 4575 # 100
    /\ Receipts.lastMonthSpend s == 8412 # 100.
Proof.
  destruct (spend_by_calendar_month_east_of_UTC
              Sample.utc Sample.now Sample.receipts utc_east eq_refl ltac:(discriminate))
    as (s & Hs & Hc & Hl & _).
  exists s. split; [exact Hs |]. rewrite Hc, Hl. split; vm_compute; reflexivity.
Defined.

(** The month [i] months before the current one, as a year and a month (0 to 11). *)
Definition monthsBack (h : JS.Host) (now : Z) (i : Z) : Z * Z :=
  let months := (12 * Dashboard.currentYear h now + Dashboard.currentMonth h now - i)%Z in
  ((months / 12)%Z, (months mod 12)%Z).

(** The trend entry of a month, when its amount is the sum over the receipts dated in
    that month. *)
Definition monthEntry (receipts : list Receipts.Receipt) (ym : Z * Z) : Receipts.Trend.point :=
  Receipts.Trend.mkPoint
    (JS.monthShort (snd ym) ++ " " ++ JS.decimal (fst ym))%string
    (Dashboard.sumAmounts (filter (datedIn (fst ym) (snd ym)) receipts)).

(** C5, evaluated where it fails.  On a host five hours west of UTC, at noon of 15
    March 2024, the trend of one receipt of 5.75 dated 2024-03-01 has its six entries,
    October 2023 to March 2024 in this order, but the amount of February is 5.75 and
    that of March is 0. *)
Theorem monthlyTrend_west_of_UTC :
  exists s,
    Dashboard.stats Sample.newYork Sample.now [Sample.coffee] = Some s
    /\ map Receipts.Trend.month (Receipts.monthlyTrend s)
       = ["Oct 2023"; "Nov 2023"; "Dec 2023"; "Jan 2024"; "Feb 2024"; "Mar 2024"]
    /\ datedIn 2024 2 Sample.coffee = true
    /\ Forall2 Qeq (map Receipts.Trend.amount (Receipts.monthlyTrend s))
                   [0; 0; 0; 0; 575 # 100; 0].
Proof.
  eexists. split; [vm_compute; reflexivity |].
  split; [vm_compute; reflexivity |].
  split; [vm_compute; reflexivity |].
  cbn [Receipts.monthlyTrend map Receipts.Trend.amount].
  repeat constructor; vm_compute; reflexivity.
Qed.

(** Where local time is at or ahead of UTC and the date of every receipt is a
    calendar date with no time component, the trend of a record set that is not
    empty is made of six entries, one for each of the months from five months ago to
    the current month in this order, each with the short name of the month and the
    year, and the sum of the amounts of the receipts dated in that month (zero when
    there is none). *)
Theorem monthlyTrend_six_calendar_months_east_of_UTC :
  forall (h : JS.Host) (now : Z) (receipts : list Receipts.Receipt),
    eastOfUTC h ->
    forallb calendarDate receipts = true ->
    plausibleClock h now ->
    receipts <> [] ->
    exists s,
      Dashboard.stats h now receipts = Some s
      /\ Receipts.monthlyTrend s
         = map (fun i => monthEntry receipts (monthsBack h now i)) [5; 4; 3; 2; 1; 0]%Z.
Proof.
  intros h now receipts Heast Hdates Hclock Hne.
  destruct (stats_nonempty h now receipts Hne) as (m & _ & ->).
  eexists. split; [reflexivity |]. cbn [Receipts.monthlyTrend].
  assert (forall i : nat, (i <= 11)%nat ->
            Dashboard.trendPoint h now receipts i
            = monthEntry receipts (monthsBack h now (Z.of_nat i))) as Hpoint.
  { intros i Hi. rewrite (trendPoint_spec h now Hclock receipts i Hi).
    unfold monthEntry, monthsBack, trendYear, trendMonth. cbn [fst snd].
    replace ((12 * Dashboard.currentYear h now + Dashboard.currentMonth h now - Z.of_nat i) / 12)%Z
      with (Dashboard.currentYear h now + (Dashboard.currentMonth h now - Z.of_nat i) / 12)%Z
      by (Z.to_euclidean_division_equations; lia).
    replace ((12 * Dashboard.currentYear h now + Dashboard.currentMonth h now - Z.of_nat i) mod 12)%Z
      with ((Dashboard.currentMonth h now - Z.of_nat i) mod 12)%Z
      by (Z.to_euclidean_division_equations; lia).
    f_equal. now apply spendIn_calendar_month. }
  cbn [Dashboard.trendFrom map].
  rewrite !Hpoint by lia. reflexivity.
Qed.

Lemma utc_clock : plausibleClock Sample.utc Sample.now.
Proof. unfold plausibleClock. vm_compute. repeat split; discriminate. Qed.

Lemma monthlyTrend_six_calendar_months_witness :
  exists s,
    Dashboard.stats Sample.utc Sample.now Sample.receipts = Some s
    /\ map Receipts.Trend.month (Receipts.monthlyTrend s)
       = ["Oct 2023"; "Nov 2023"; "Dec 2023"; "Jan 2024"; "Feb 2024"; "Mar 2024"]
    /\ Forall2 Qeq (map Receipts.Trend.amount (Receipts.monthlyTrend s))
                   [0; 0; 1230 # 100; 0; 8412 # 100; 4575 # 100].
Proof.
  destruct (monthlyTrend_six_calendar_months_east_of_UTC
              Sample.utc Sample.now Sample.receipts utc_east eq_refl utc_clock
              ltac:(discriminate))
    as (s & Hs & Ht).
  exists s. split; [exact Hs |]. rewrite Ht.
  split; [vm_compute; reflexivity |].
  cbn [map]. repeat constructor; vm_compute; reflexivity.
Defined.

(* ===================================================================== *)
(** * Strings, [toFixed] and the CSV text                                 *)
(* ===================================================================== *)

Section StringFacts.

Lemma length_append (s1 s2 : string) :
  String.length (s1 ++ s2) = (String.length s1 + String.length s2)%nat.
Proof. induction s1 as [|c s1 IH]; simpl; [reflexivity | now rewrite IH]. Qed.

Lemma append_assoc (s1 s2 s3 : string) : ((s1 ++ s2) ++ s3 = s1 ++ (s2 ++ s3))%string.
Proof. induction s1 as [|c s1 IH]; simpl; [reflexivity | now rewrite IH]. Qed.

Lemma append_empty_r (s : string) : (s ++ EmptyString)%string = s.
Proof. induction s as [|c s IH]; simpl; [reflexivity | now rewrite IH]. Qed.

Lemma allDigits_append (s1 s2 : string) :
  JS.allDigits (s1 ++ s2) = JS.allDigits s1 && JS.allDigits s2.
Proof.
  induction s1 as [|c s1 IH]; simpl; [reflexivity |].
  rewrite IH. now rewrite andb_assoc.
Qed.

Lemma allDigits_zeros (k : nat) : JS.allDigits (JS.zeros k) = true.
Proof. induction k as [|k IH]; simpl; [reflexivity | exact IH]. Qed.

Lemma length_zeros (k : nat) : String.length (JS.zeros k) = k.
Proof. induction k as [|k IH]; simpl; [reflexivity | now rewrite IH]. Qed.

Lemma allDigits_uint (u : Decimal.uint) : JS.allDigits (NilEmpty.string_of_uint u) = true.
Proof. induction u; simpl; auto. Qed.

Lemma allDigits_decimal (n : Z) : JS.allDigits (JS.decimal n) = true.
Proof.
  unfold JS.decimal, NilZero.string_of_uint.
  destruct (N.to_uint (Z.to_N n)) eqn:E; try reflexivity;
    rewrite <- E; apply allDigits_uint.
Qed.

(** A string is its first [n] code units followed by the others. *)
Lemma substring_split (s : string) (n : nat) :
  (n <= String.length s)%nat ->
  (String.substring 0 n s ++ String.substring n (String.length s - n) s)%string = s
  /\ String.length (String.substring 0 n s) = n.
Proof.
  revert n. induction s as [|c s IH]; intros n Hn; simpl in Hn.
  - assert (n = 0%nat) as -> by lia. split; reflexivity.
  - destruct n as [|n].
    + cbn [String.substring String.length Nat.sub]. split; [| reflexivity].
      cbn [append]. f_equal.
      destruct (IH 0%nat ltac:(lia)) as [Hs _].
      rewrite Nat.sub_0_r in Hs. destruct s; [reflexivity |].
      cbn [String.substring] in Hs. exact Hs.
    + destruct (IH n ltac:(lia)) as [Hs Hl].
      cbn [String.substring String.length Nat.sub append]. split; [now rewrite Hs | now rewrite Hl].
Qed.

End StringFacts.

(** Text with two decimal places: digits, at least one, a point, two digits. *)
Definition twoDecimals (s : string) : Prop :=
  exists (whole : string) (d1 d2 : ascii),
    s = (whole ++ "." ++ String d1 (String d2 EmptyString))%string
    /\ whole <> EmptyString
    /\ JS.allDigits whole = true /\ JS.isDigit d1 = true /\ JS.isDigit d2 = true.

(** A number that [toFixed] writes in positional notation and with no sign. *)
Definition plain (x : Q) : Prop := 0 <= x /\ x < inject_Z (10 ^ 21).

Lemma toFixed_twoDecimals (h : JS.Host) (x : Q) : plain x -> twoDecimals (JS.toFixed h x 2).
Proof.
  intros [Hpos Hlt]. unfold JS.toFixed.
  assert (JS.Qgtb 0 x = false) as ->.
  { unfold JS.Qgtb. apply negb_false_iff. now apply Qle_bool_iff. }
  assert (Qle_bool (inject_Z (10 ^ 21)) x = false) as ->.
  { destruct (Qle_bool (inject_Z (10 ^ 21)) x) eqn:E; [| reflexivity].
    apply Qle_bool_iff in E. lra. }
  cbn [Nat.eqb].
  set (n := Qfloor (x * inject_Z (10 ^ Z.of_nat 2) + (1 # 2))).
  set (m := if (n =? 0)%Z then "0" else JS.decimal n).
  assert (JS.allDigits m = true) as Hm.
  { unfold m. destruct (n =? 0)%Z; [reflexivity | apply allDigits_decimal]. }
  set (m' := if (String.length m <=? 2)%nat then (JS.zeros (2 + 1 - String.length m) ++ m)%string else m).
  assert (JS.allDigits m' = true /\ (3 <= String.length m')%nat) as [Hm' Hlen].
  { unfold m'. destruct (Nat.leb_spec (String.length m) 2) as [Hle | Hgt].
    - rewrite allDigits_append, allDigits_zeros, Hm, length_append, length_zeros. split; [reflexivity | lia].
    - split; [exact Hm | lia]. }
  destruct (substring_split m' (String.length m' - 2) ltac:(lia)) as [Hsplit Hla].
  replace (String.length m' - (String.length m' - 2))%nat with 2%nat in Hsplit by lia.
  set (a := String.substring 0 (String.length m' - 2) m') in *.
  set (b := String.substring (String.length m' - 2) 2 m') in *.
  assert (String.length b = 2%nat) as Hlb.
  { pose proof (f_equal String.length Hsplit) as Hl. rewrite length_append, Hla in Hl. lia. }
  assert (JS.allDigits a = true /\ JS.allDigits b = true) as [Ha Hb].
  { rewrite <- Hsplit, allDigits_append in Hm'. now apply andb_true_iff in Hm'. }
  destruct b as [|d1 [|d2 [|? ?]]]; try discriminate.
  cbn [JS.allDigits] in Hb. rewrite !andb_true_iff in Hb. destruct Hb as (Hd1 & Hd2 & _).
  exists a, d1, d2. cbn [append]. repeat split; auto.
  intros Hempty. rewrite Hempty in Hla. cbn [String.length] in Hla. lia.
Qed.

Lemma toFixed_five (h : JS.Host) : JS.toFixed h 5 2 = "5.00".
Proof. reflexivity. Qed.
(* ===================================================================== *)
(** * The digits that [toFixed] writes                                    *)
(* ===================================================================== *)

(** The text [s] writes [x] with two decimal places: the digits of a whole part with
    no needless zero in front, a point and two digits, which together are the
    decimal digits of the number [n] of hundredths nearest to [x], the larger when two
    are equally near. *)
Definition writesHundredths (x : Q) (s : string) : Prop :=
  exists (whole : string) (d1 d2 : ascii),
    s = (whole ++ "." ++ String d1 (String d2 EmptyString))%string
    /\ whole <> EmptyString
    /\ JS.allDigits whole = true /\ JS.isDigit d1 = true /\ JS.isDigit d2 = true
    /\ (whole = "0" \/ JS.startsWith "0" whole = false)
    /\ (let n := JS.digitsValue 0 (whole ++ String d1 (String d2 EmptyString)) in
        inject_Z n - (1 # 2) <= x * 100 /\ x * 100 < inject_Z n + (1 # 2)).

Section FixedFacts.
Local Open Scope Z_scope.

(** The value of a decimal numeral, most significant digit first. *)
Fixpoint uintValue (acc : Z) (u : Decimal.uint) : Z :=
  match u with
  | Decimal.Nil => acc
  | Decimal.D0 l => uintValue (10 * acc + 0) l
  | Decimal.D1 l => uintValue (10 * acc + 1) l
  | Decimal.D2 l => uintValue (10 * acc + 2) l
  | Decimal.D3 l => uintValue (10 * acc + 3) l
  | Decimal.D4 l => uintValue (10 * acc + 4) l
  | Decimal.D5 l => uintValue (10 * acc + 5) l
  | Decimal.D6 l => uintValue (10 * acc + 6) l
  | Decimal.D7 l => uintValue (10 * acc + 7) l
  | Decimal.D8 l => uintValue (10 * acc + 8) l
  | Decimal.D9 l => uintValue (10 * acc + 9) l
  end.

Lemma digitsValue_uint (u : Decimal.uint) (acc : Z) :
  JS.digitsValue acc (NilEmpty.string_of_uint u) = uintValue acc u.
Proof.
  revert acc. induction u; intros acc; cbn [NilEmpty.string_of_uint JS.digitsValue uintValue];
    [reflexivity | | | | | | | | | |]; rewrite IHu; reflexivity.
Qed.

Lemma uintValue_acc (u : Decimal.uint) (acc : positive) :
  uintValue (Z.pos acc) u = Z.pos (Pos.of_uint_acc u acc).
Proof.
  revert acc. induction u; intros acc; cbn [uintValue Pos.of_uint_acc];
    [reflexivity | | | | | | | | | |];
    rewrite <- IHu; f_equal; lia.
Qed.

Lemma uintValue_of_uint (u : Decimal.uint) : uintValue 0 u = Z.of_N (Pos.of_uint u).
Proof.
  induction u; cbn [uintValue Pos.of_uint];
    [reflexivity | exact IHu | | | | | | | | |];
    cbn [Z.mul Z.add Z.of_N]; apply uintValue_acc.
Qed.

Lemma digitsValue_decimal (n : Z) : 0 <= n -> JS.digitsValue 0 (JS.decimal n) = n.
Proof.
  intros Hn. unfold JS.decimal, NilZero.string_of_uint.
  assert (uintValue 0 (N.to_uint (Z.to_N n)) = n) as Hvalue.
  { rewrite uintValue_of_uint. change (Pos.of_uint ?u) with (N.of_uint u).
    rewrite DecimalN.Unsigned.of_to. lia. }
  destruct (N.to_uint (Z.to_N n));
    [cbn [uintValue] in Hvalue; now subst n | ..]; rewrite digitsValue_uint; exact Hvalue.
Qed.

Lemma digitsValue_append (s1 s2 : string) (acc : Z) :
  JS.digitsValue acc (s1 ++ s2) = JS.digitsValue (JS.digitsValue acc s1) s2.
Proof. revert acc. induction s1 as [|c s1 IH]; intros acc; cbn; [reflexivity | apply IH]. Qed.

Lemma digitsValue_zeros (k : nat) : JS.digitsValue 0 (JS.zeros k) = 0.
Proof. induction k as [|k IH]; cbn [JS.zeros JS.digitsValue]; [reflexivity | exact IH]. Qed.

(** The numeral of a positive number does not start with a zero. *)
Lemma decimal_no_leading_zero (n : Z) : 0 < n -> JS.startsWith "0" (JS.decimal n) = false.
Proof.
  intros Hn. unfold JS.decimal, NilZero.string_of_uint.
  pose proof (DecimalN.Unsigned.to_of (N.to_uint (Z.to_N n))) as Hnorm.
  rewrite DecimalN.Unsigned.of_to in Hnorm.
  assert (N.to_uint (Z.to_N n) <> Decimal.zero) as Hnz.
  { intros Habs. pose proof (f_equal N.of_uint Habs) as Hz.
    rewrite DecimalN.Unsigned.of_to in Hz. cbn in Hz. lia. }
  destruct (N.to_uint (Z.to_N n)) as [| l | l | l | l | l | l | l | l | l | l] eqn:E;
    try reflexivity; [discriminate |].
  exfalso. unfold Decimal.unorm in Hnorm. cbn [Decimal.nzhead] in Hnorm.
  destruct (Decimal.nzhead l) eqn:Hhead; try discriminate.
  - apply Hnz. injection Hnorm as <-. reflexivity.
  - apply (DecimalFacts.nzhead_nonzero l u). congruence.
Qed.

End FixedFacts.

Lemma startsWith_append (c : ascii) (a b : string) :
  a <> EmptyString -> JS.startsWith c (a ++ b) = JS.startsWith c a.
Proof. destruct a; [congruence | reflexivity]. Qed.

Lemma toFixed_writesHundredths (h : JS.Host) (x : Q) :
  plain x -> writesHundredths x (JS.toFixed h x 2).
Proof.
  intros [Hpos Hlt]. unfold JS.toFixed.
  assert (JS.Qgtb 0 x = false) as ->.
  { unfold JS.Qgtb. apply negb_false_iff. now apply Qle_bool_iff. }
  assert (Qle_bool (inject_Z (10 ^ 21)) x = false) as ->.
  { destruct (Qle_bool (inject_Z (10 ^ 21)) x) eqn:E; [| reflexivity].
    apply Qle_bool_iff in E. lra. }
  cbn [Nat.eqb].
  change (inject_Z (10 ^ Z.of_nat 2)) with 100%Q.
  set (n := Qfloor (x * 100 + (1 # 2))).
  assert (0 <= n)%Z as Hn.
  { unfold n. change 0%Z with (Qfloor 0). apply Qfloor_resp_le. lra. }
  assert (inject_Z n - (1 # 2) <= x * 100 /\ x * 100 < inject_Z n + (1 # 2)) as Hnear.
  { pose proof (Qfloor_le (x * 100 + (1 # 2))) as Hlo.
    pose proof (Qlt_floor (x * 100 + (1 # 2))) as Hhi. fold n in Hlo, Hhi.
    rewrite inject_Z_plus in Hhi. change (inject_Z 1) with 1%Q in Hhi. split; lra. }
  set (m := if (n =? 0)%Z then "0" else JS.decimal n).
  assert (JS.allDigits m = true) as Hm.
  { unfold m. destruct (n =? 0)%Z; [reflexivity | apply allDigits_decimal]. }
  assert (JS.digitsValue 0 m = n) as Hvalue.
  { unfold m. destruct (Z.eqb_spec n 0) as [-> | Hne]; [reflexivity |].
    now apply digitsValue_decimal. }
  assert ((2 < String.length m)%nat -> JS.startsWith "0" m = false) as Hlead.
  { unfold m. destruct (Z.eqb_spec n 0) as [-> | Hne]; [cbn; lia |].
    intros _. apply decimal_no_leading_zero. lia. }
  set (m' := if (String.length m <=? 2)%nat then (JS.zeros (2 + 1 - String.length m) ++ m)%string else m).
  assert (JS.allDigits m' = true /\ (3 <= String.length m')%nat
          /\ JS.digitsValue 0 m' = n
          /\ (String.length m' = 3%nat /\ JS.startsWith "0" m' = true
              \/ JS.startsWith "0" m' = false))
    as (Hm' & Hlen & Hvalue' & Hlead').
  { unfold m'. destruct (Nat.leb_spec (String.length m) 2) as [Hle | Hgt].
    - rewrite allDigits_append, allDigits_zeros, Hm, length_append, length_zeros.
      rewrite digitsValue_append, digitsValue_zeros, Hvalue.
      split; [reflexivity |]. split; [lia |]. split; [reflexivity |]. left. split; [lia |].
      destruct (2 + 1 - String.length m)%nat eqn:Ek; [lia | reflexivity].
    - split; [exact Hm |]. split; [lia |]. split; [exact Hvalue |]. right. now apply Hlead. }
  destruct (substring_split m' (String.length m' - 2) ltac:(lia)) as [Hsplit Hla].
  replace (String.length m' - (String.length m' - 2))%nat with 2%nat in Hsplit by lia.
  set (a := String.substring 0 (String.length m' - 2) m') in *.
  set (b := String.substring (String.length m' - 2) 2 m') in *.
  assert (String.length b = 2%nat) as Hlb.
  { pose proof (f_equal String.length Hsplit) as Hl. rewrite length_append, Hla in Hl. lia. }
  assert (JS.allDigits a = true /\ JS.allDigits b = true) as [Ha Hb].
  { rewrite <- Hsplit, allDigits_append in Hm'. now apply andb_true_iff in Hm'. }
  assert (a <> EmptyString) as Hane.
  { intros Hempty. rewrite Hempty in Hla. cbn [String.length] in Hla. lia. }
  destruct b as [|d1 [|d2 [|? ?]]]; try discriminate.
  cbn [JS.allDigits] in Hb. rewrite !andb_true_iff in Hb. destruct Hb as (Hd1 & Hd2 & _).
  exists a, d1, d2. cbn [append].
  split; [reflexivity |]. split; [exact Hane |]. split; [exact Ha |].
  split; [exact Hd1 |]. split; [exact Hd2 |]. split.
  - destruct Hlead' as [[Hthree Hzero] | Hnone]; [left | right].
    2: { now rewrite <- Hsplit, (startsWith_append _ _ _ Hane) in Hnone. }
    rewrite <- Hsplit, (startsWith_append _ _ _ Hane) in Hzero.
    assert (String.length a = 1%nat) as Hone by lia.
    destruct a as [|c [|? ?]]; try discriminate.
    cbn [JS.startsWith] in Hzero. apply Ascii.eqb_eq in Hzero. now subst c.
  - cbv zeta. rewrite Hsplit, Hvalue'. exact Hnear.
Qed.

(** The lines of a text: the pieces between its line feeds. *)
Fixpoint lines (s : string) : list string :=
  match s with
  | EmptyString => [EmptyString]
  | String c rest =>
      if Ascii.eqb c (ascii_of_nat 10) then EmptyString :: lines rest
      else
        match lines rest with
        | first :: others => String c first :: others
        | [] => [String c EmptyString]
        end
  end.

(** The text holds no line feed. *)
Fixpoint oneLine (s : string) : bool :=
  match s with
  | EmptyString => true
  | String c rest => negb (Ascii.eqb c (ascii_of_nat 10)) && oneLine rest
  end.

(** A receipt whose text fields hold no line feed and whose numbers [toFixed] writes
    in positional notation. *)
Definition printable (r : Receipts.Receipt) : Prop :=
  oneLine (Receipts.date r) = true /\ oneLine (Receipts.vendor r) = true
  /\ oneLine (Receipts.category r) = true /\ oneLine (Receipts.fileName r) = true
  /\ plain (Receipts.amount r) /\ plain (Receipts.confidence r).

Section CsvFacts.
Import Receipts Index.

Lemma oneLine_append (s1 s2 : string) : oneLine (s1 ++ s2) = oneLine s1 && oneLine s2.
Proof.
  induction s1 as [|c s1 IH]; simpl; [reflexivity |]. rewrite IH. now rewrite andb_assoc.
Qed.

Lemma oneLine_digits (s : string) : JS.allDigits s = true -> oneLine s = true.
Proof.
  induction s as [|c s IH]; simpl; [reflexivity |].
  rewrite andb_true_iff. intros [Hc Hs]. rewrite (IH Hs), andb_true_r.
  apply negb_true_iff, Ascii.eqb_neq. intros ->. discriminate.
Qed.

Lemma oneLine_twoDecimals (s : string) : twoDecimals s -> oneLine s = true.
Proof.
  intros (whole & d1 & d2 & -> & _ & Hw & H1 & H2).
  rewrite oneLine_append, (oneLine_digits _ Hw). cbn [andb append].
  apply (oneLine_digits (String "0" (String d1 (String d2 EmptyString)))).
  cbn [JS.allDigits]. now rewrite H1, H2.
Qed.

Lemma lines_nonempty (s : string) : lines s <> [].
Proof.
  induction s as [|c s IH]; simpl; [discriminate |].
  destruct (Ascii.eqb c (ascii_of_nat 10)); [discriminate |].
  destruct (lines s); [contradiction | discriminate].
Qed.

Lemma lines_append (s1 s2 : string) :
  oneLine s1 = true ->
  lines (s1 ++ s2)
  = match lines s2 with
    | first :: others => (s1 ++ first)%string :: others
    | [] => [s1]
    end.
Proof.
  induction s1 as [|c s1 IH]; simpl.
  - intros _. pose proof (lines_nonempty s2). destruct (lines s2); [contradiction | reflexivity].
  - rewrite andb_true_iff, negb_true_iff. intros [Hc Hs].
    rewrite Hc, (IH Hs). destruct (lines s2); reflexivity.
Qed.

Lemma lines_oneLine (s : string) : oneLine s = true -> lines s = [s].
Proof.
  intros Hs. rewrite <- (append_empty_r s) at 1. rewrite lines_append by exact Hs.
  cbn [lines]. now rewrite append_empty_r.
Qed.

Lemma lines_join (first : string) (others : list string) :
  Forall (fun l => oneLine l = true) (first :: others) ->
  lines (JS.Array_join (first :: others) newline) = first :: others.
Proof.
  unfold JS.Array_join. revert first.
  induction others as [|second rest IH]; intros first Hall.
  - inversion Hall; subst. cbn [String.concat]. now apply lines_oneLine.
  - inversion Hall as [|? ? Hfirst Hrest]; subst.
    change (String.concat newline (first :: second :: rest))
      with (first ++ newline ++ String.concat newline (second :: rest))%string.
    rewrite lines_append by exact Hfirst.
    unfold newline at 1. cbn [append lines Ascii.eqb]. 
    replace (Ascii.eqb (ascii_of_nat 10) (ascii_of_nat 10)) with true by reflexivity.
    rewrite (IH second Hrest). now rewrite append_empty_r.
Qed.

Lemma row_fields (h : JS.Host) (r : Receipt) :
  row h r
  = (date r ++ "," ++ quote ++ vendor r ++ quote ++ ","
     ++ JS.toFixed h (amount r) 2 ++ "," ++ category r ++ ","
     ++ quote ++ fileName r ++ quote ++ "," ++ JS.toFixed h (confidence r) 2)%string.
Proof.
  unfold row, JS.Array_join. cbn [String.concat].
  now rewrite !append_assoc.
Qed.

Lemma row_oneLine (h : JS.Host) (r : Receipt) : printable r -> oneLine (row h r) = true.
Proof.
  intros (Hd & Hv & Hc & Hf & Ha & Hcf). rewrite row_fields.
  rewrite !oneLine_append, Hd, Hv, Hc, Hf.
  rewrite (oneLine_twoDecimals _ (toFixed_twoDecimals h _ Ha)).
  rewrite (oneLine_twoDecimals _ (toFixed_twoDecimals h _ Hcf)).
  reflexivity.
Qed.

Lemma csvContent_first_line (h : JS.Host) (r : Receipt) (rest : list Receipt) :
  csvContent h (r :: rest)
  = ("Date,Vendor,Amount,Category,File,Confidence" ++ newline
     ++ JS.Array_join (map (row h) (r :: rest)) newline)%string.
Proof. reflexivity. Qed.

End CsvFacts.

(** C7: for a record set that is not empty, export downloads the CSV text of the
    record set held by the page, whatever the state of the table view.  The text is the
    header line Date,Vendor,Amount,Category,File,Confidence followed by one row per
    record in the order of the record set, the lines joined by line feeds (code unit
    10).  In a row the vendor and the file name stand between double quotes (code
    unit 34), and the amount and the confidence are written by toFixed(2), which for
    a number from 0 up to 10^21 writes the nearest number of hundredths, as its whole
    part, a point and two digits.  For one record the text is the header, a line feed
    and the row, and the amount 5 is written 5.00. *)
Theorem handleExport_writes_header_and_one_row_per_record :
  forall (h : JS.Host) (now : Z) (st : Index.State),
    Index.receipts st <> [] ->
    let doubleQuote := String (ascii_of_nat 34) EmptyString in
    let lineFeed := String (ascii_of_nat 10) EmptyString in
    let header := "Date,Vendor,Amount,Category,File,Confidence" in
    let line r :=
      (Receipts.date r ++ ","
       ++ doubleQuote ++ Receipts.vendor r ++ doubleQuote ++ ","
       ++ JS.toFixed h (Receipts.amount r) 2 ++ ","
       ++ Receipts.category r ++ ","
       ++ doubleQuote ++ Receipts.fileName r ++ doubleQuote ++ ","
       ++ JS.toFixed h (Receipts.confidence r) 2)%string in
    let rows := map line (Index.receipts st) in
    let csv := String.concat lineFeed (header :: rows) in
    (exists name,
        Index.handleExport h now st
        = (st, [Index.Download name csv "text/csv";
                Index.Toast "Export successful"
                            "Receipt data has been downloaded as CSV." "default"]))
    /\ (forall view,
           snd (Index.handleExport h now
                  (Index.mkState (Index.receipts st) (Index.isProcessing st)
                                 (Index.activeTab st) view))
           = snd (Index.handleExport h now st))
    /\ Index.csvContent h (Index.receipts st) = csv
    /\ (exists rest, csv = (header ++ lineFeed ++ rest)%string)
    /\ length rows = length (Index.receipts st)
    /\ (forall i r, nth_error (Index.receipts st) i = Some r ->
                    nth_error rows i = Some (line r))
    /\ (forall x, plain x -> writesHundredths x (JS.toFixed h x 2))
    /\ (Forall printable (Index.receipts st) -> lines csv = header :: rows)
    /\ (forall r, Index.receipts st = [r] ->
                  csv = (header ++ lineFeed ++ line r)%string)
    /\ JS.toFixed h 5 2 = "5.00".
Proof.
  intros h now st Hne doubleQuote lineFeed header line rows csv.
  assert (forall r, Index.row h r = line r) as Hrow by (intros r; apply row_fields).
  assert (Index.csvContent h (Index.receipts st) = csv) as Hcsv.
  { unfold Index.csvContent, JS.Array_join, csv, rows.
    now rewrite (map_ext _ _ Hrow). }
  destruct (Index.receipts st) as [|r0 rest] eqn:Hrs; [congruence |].
  split.
  { eexists. unfold Index.handleExport. rewrite Hrs, Hcsv. cbn [length Nat.eqb]. reflexivity. }
  split.
  { intros view. unfold Index.handleExport. cbn [Index.receipts]. rewrite Hrs. reflexivity. }
  split; [exact Hcsv |].
  split; [eexists; reflexivity |].
  split; [apply length_map |].
  split; [intros i r Hi; unfold rows; now rewrite nth_error_map, Hi |].
  split; [apply toFixed_writesHundredths |].
  split.
  { intros Hall. apply (lines_join header rows).
    constructor; [reflexivity |].
    apply Forall_forall. intros l Hl. apply in_map_iff in Hl.
    destruct Hl as (r & <- & Hr). rewrite <- Hrow. apply row_oneLine.
    rewrite Forall_forall in Hall. now apply Hall. }
  split; [| reflexivity].
  intros r [= -> ->]. reflexivity.
Qed.

(** A page that holds the sample receipts, its table filtered on dining. *)
Definition samplePage : Index.State :=
  Index.mkState Sample.receipts false "records"
    (ReceiptTable.mkState EmptyString "dining" "all" ReceiptTable.SortField.amount
                          ReceiptTable.SortDirection.asc EmptyString EmptyString).

Lemma plain_test (x : Q) :
  Qle_bool 0 x = true -> Qle_bool (inject_Z (10 ^ 21)) x = false -> plain x.
Proof.
  intros Hlo Hhi. split; [now apply Qle_bool_iff |].
  apply Qnot_le_lt. intros Hle. apply Qle_bool_iff in Hle. congruence.
Qed.

Lemma sample_printable : Forall printable Sample.receipts.
Proof.
  repeat constructor; try reflexivity; apply plain_test; vm_compute; reflexivity.
Qed.

Lemma handleExport_witness :
  (let doubleQuote := String (ascii_of_nat 34) EmptyString in
   lines (Index.csvContent Sample.utc (Index.receipts samplePage))
   = ["Date,Vendor,Amount,Category,File,Confidence";
      "2024-03-01," ++ doubleQuote ++ "Starbucks" ++ doubleQuote ++ ",5.75,dining,"
        ++ doubleQuote ++ "latte.jpg" ++ doubleQuote ++ ",0.93";
      "2024-02-11," ++ doubleQuote ++ "Walmart" ++ doubleQuote ++ ",84.12,groceries,"
        ++ doubleQuote ++ "walmart.pdf" ++ doubleQuote ++ ",0.88";
      "2023-12-24," ++ doubleQuote ++ "McDonald's" ++ doubleQuote ++ ",12.30,dining,"
        ++ doubleQuote ++ "lunch.png" ++ doubleQuote ++ ",0.71";
      "2024-03-14," ++ doubleQuote ++ "Shell" ++ doubleQuote ++ ",40.00,transportation,"
        ++ doubleQuote ++ "shell.txt" ++ doubleQuote ++ ",1.00"]%string)
  /\ writesHundredths (Receipts.amount Sample.groceries)
                      (JS.toFixed Sample.utc (Receipts.amount Sample.groceries) 2)
  /\ JS.toFixed Sample.utc (Receipts.amount Sample.groceries) 2 = "84.12".
Proof.
  destruct (handleExport_writes_header_and_one_row_per_record
              Sample.utc Sample.now samplePage ltac:(discriminate))
    as (_ & _ & Hcsv & _ & _ & _ & Hfixed & Hlines & _).
  split; [| split; [| reflexivity]].
  - cbv zeta. rewrite Hcsv. rewrite (Hlines sample_printable). vm_compute. reflexivity.
  - apply Hfixed. apply plain_test; vm_compute; reflexivity.
Defined.

(** C8: when the record set is empty, export raises the error notice and stops: its
    only effect is that notice, so no CSV text is built and nothing is downloaded, and
    the state of the page, record set included, is unchanged. *)
Theorem handleExport_empty_aborts :
  forall (h : JS.Host) (now : Z) (st : Index.State),
    Index.receipts st = [] ->
    Index.handleExport h now st
    = (st, [Index.Toast "No data to export" "Upload some receipts first." "destructive"])
    /\ (forall name content mime,
           ~ In (Index.Download name content mime) (snd (Index.handleExport h now st)))
    /\ Index.receipts (fst (Index.handleExport h now st)) = Index.receipts st.
Proof.
  intros h now st Hempty. unfold Index.handleExport. rewrite Hempty. cbn [length Nat.eqb].
  split; [reflexivity |]. split; [| exact Hempty].
  intros name content mime [Habs | []]. discriminate.
Qed.

Lemma handleExport_empty_witness :
  let st := Index.mkState [] false "upload" ReceiptTable.initialState in
  Index.handleExport Sample.utc Sample.now st
  = (st, [Index.Toast "No data to export" "Upload some receipts first." "destructive"]).
Proof.
  apply (handleExport_empty_aborts Sample.utc Sample.now
           (Index.mkState [] false "upload" ReceiptTable.initialState) eq_refl).
Defined.


(* ===================================================================== *)
(** * The receipts the generator makes                                    *)
(* ===================================================================== *)

Section GeneratorFacts.
Import Receipts.

(** Each draw of [Math.random()] is at least 0 and less than 1. *)
Definition unitDraws (random : Random) : Prop :=
  (0 <= forVendor random /\ forVendor random < 1)
  /\ (0 <= forAmount random /\ forAmount random < 1)
  /\ (0 <= forDaysAgo random /\ forDaysAgo random < 1)
  /\ (0 <= forConfidence random /\ forConfidence random < 1).

Lemma Qfloor_between (x : Q) (lo hi : Z) :
  inject_Z lo <= x -> x < inject_Z hi -> (lo <= Qfloor x < hi)%Z.
Proof.
  intros Hlo Hhi. split.
  - rewrite <- (Qfloor_Z lo). now apply Qfloor_resp_le.
  - apply Z.lt_nge. intros Hle.
    pose proof (Qfloor_le x) as Hfl.
    assert (inject_Z hi <= inject_Z (Qfloor x)) as Hq by (rewrite <- Zle_Qle; exact Hle).
    lra.
Qed.

(** A whole number of hundredths between two bounds. *)
Lemma hundredths_between (n lo hi : Z) :
  (lo <= n <= hi)%Z -> inject_Z lo / 100 <= inject_Z n / 100 <= inject_Z hi / 100.
Proof.
  intros [Hlo Hhi]. rewrite Zle_Qle in Hlo, Hhi.
  split; apply Qmult_le_compat_r; try assumption; apply Qinv_le_0_compat; lra.
Qed.

Variables (h : JS.Host) (now : Z) (name type : string) (random : Random).
Hypothesis draws : unitDraws random.

(** The vendor is drawn from the list, and the category is the one the generator
    files that vendor under. *)
Lemma generated_vendor (r : Receipt) :
  generateMockReceipt h now name type random = Some r ->
  In (vendor r) vendors /\ category r = getRandomCategory (vendor r).
Proof.
  destruct draws as ((Hv0 & Hv1) & _).
  unfold generateMockReceipt.
  destruct (JS.getDate h (Some now)) as [today|]; [| discriminate].
  destruct (JS.setDate h now _) as [t|]; [| discriminate].
  intros [= <-]. cbn [vendor category]. split; [| reflexivity].
  change (inject_Z (Z.of_nat (length vendors))) with (inject_Z 17).
  assert (0 <= JS.Math_floor (forVendor random * inject_Z 17) < 17)%Z as Hindex.
  { apply Qfloor_between.
    - change (inject_Z 0) with 0. change (inject_Z 17) with 17. lra.
    - change (inject_Z 17) with 17. lra. }
  assert (In (nth (Z.to_nat (JS.Math_floor (forVendor random * inject_Z 17))) vendors EmptyString)
             vendors) as Hin.
  { apply nth_In. change (length vendors) with 17%nat. lia. }
  exact Hin.
Qed.

(** The amount is a number of cents from 5.00 to 205.00, the confidence a number of
    hundredths from 0.70 to 1.00. *)
Lemma generated_numbers (r : Receipt) :
  generateMockReceipt h now name type random = Some r ->
  5 <= amount r <= 205 /\ 7 # 10 <= confidence r <= 1.
Proof.
  destruct draws as (_ & (Ha0 & Ha1) & _ & (Hc0 & Hc1)).
  unfold generateMockReceipt.
  destruct (JS.getDate h (Some now)) as [today|]; [| discriminate].
  destruct (JS.setDate h now _) as [t|]; [| discriminate].
  intros [= <-]. cbn [amount confidence].
  assert (500 <= JS.Math_round ((forAmount random * 200 + 5) * 100) < 20501)%Z as Hcents.
  { apply Qfloor_between.
    - change (inject_Z 500) with 500. lra.
    - change (inject_Z 20501) with 20501. lra. }
  assert (70 <= JS.Math_round ((forConfidence random * (3 # 10) + (7 # 10)) * 100) < 101)%Z
    as Hpercent.
  { apply Qfloor_between.
    - change (inject_Z 70) with 70. lra.
    - change (inject_Z 101) with 101. lra. }
  split.
  - pose proof (hundredths_between _ 500 20500 ltac:(split; [apply Hcents | lia])) as [H1 H2].
    split; [eapply Qle_trans; [| exact H1] | eapply Qle_trans; [exact H2 |]];
      apply Qle_bool_iff; reflexivity.
  - pose proof (hundredths_between _ 70 100 ltac:(split; [apply Hpercent | lia])) as [H1 H2].
    split; [eapply Qle_trans; [| exact H1] | eapply Qle_trans; [exact H2 |]];
      apply Qle_bool_iff; reflexivity.
Qed.

Lemma generated_fields (r : Receipt) :
  generateMockReceipt h now name type random = Some r ->
  In (vendor r) vendors
  /\ JS.inherited (vendor r) = false
  /\ 5 <= amount r <= 205
  /\ 7 # 10 <= confidence r <= 1
  /\ fileName r = name /\ fileType r = type.
Proof.
  intros Hr.
  destruct (generated_vendor r Hr) as [Hin _].
  destruct (generated_numbers r Hr) as [Hamount Hconfidence].
  split; [exact Hin |].
  split.
  { pose proof generated_vendors_plain as Hplain. rewrite Forall_forall in Hplain. auto. }
  split; [exact Hamount |]. split; [exact Hconfidence |].
  revert Hr. unfold generateMockReceipt.
  destruct (JS.getDate h (Some now)) as [today|]; [| discriminate].
  destruct (JS.setDate h now _) as [t|]; [| discriminate].
  intros [= <-]. split; reflexivity.
Qed.

Lemma generated_plain (r : Receipt) :
  generateMockReceipt h now name type random = Some r ->
  plain (amount r) /\ plain (confidence r).
Proof.
  intros Hr. destruct (generated_numbers r Hr) as ([Ha0 Ha1] & [Hc0 Hc1]).
  assert (205 < inject_Z (10 ^ 21)) as Hbig by reflexivity.
  unfold plain. repeat split; lra.
Qed.

End GeneratorFacts.

(** The receipt of a file uploaded at noon of 15 March 2024 in New York, when the
    third draw makes it fourteen days old: it is dated 2024-03-01. *)
Example generated_first_of_month :
  Receipts.generateMockReceipt Sample.newYork Sample.now "latte.jpg" "image/jpeg"
    (Receipts.mkRandom (5 # 17) (75 # 20000) (14 # 365) "k3x9zq" (77 # 100))
  = Some (Receipts.mkReceipt "k3x9zq" "Starbucks" "2024-03-01" (575 # 100) "dining"
            "latte.jpg" "image/jpeg" (93 # 100)).
Proof. vm_compute. reflexivity. Qed.

Lemma sample_draws :
  unitDraws (Receipts.mkRandom (5 # 17) (75 # 20000) (14 # 365) "k3x9zq" (77 # 100)).
Proof. unfold unitDraws; cbn; repeat split; apply Qle_bool_iff || apply Qlt_alt; reflexivity. Qed.

Lemma generated_fields_witness :
  5 <= Receipts.amount Sample.coffee <= 205
  /\ 7 # 10 <= Receipts.confidence Sample.coffee <= 1
  /\ In (Receipts.vendor Sample.coffee) Receipts.vendors.
Proof.
  destruct (generated_fields Sample.newYork Sample.now "latte.jpg" "image/jpeg" _ sample_draws
              Sample.coffee generated_first_of_month)
    as (Hv & _ & Ha & Hc & _).
  split; [exact Ha |]. split; [exact Hc | exact Hv].
Defined.
(* ===================================================================== *)
(** * What a row of the table shows                                       *)
(* ===================================================================== *)

Section BadgeFacts.
Import Receipts ReceiptTable.

Lemma find_key_None {A : Type} (table : list (string * A)) (key : string) :
  ~ In key (map fst table) ->
  find (fun entry => String.eqb (fst entry) key) table = None.
Proof.
  induction table as [|[k v] rest IH]; cbn [find map fst In]; [reflexivity |].
  intros Hnot. destruct (String.eqb_spec k key) as [-> | Hne]; [tauto |].
  apply IH. tauto.
Qed.

(** A property name of [Object.prototype] is not empty. *)
Lemma inherited_nonempty (key : string) : JS.inherited key = true -> key <> EmptyString.
Proof. intros Hkey ->. discriminate. Qed.

(** The categories the generator files the vendors under are configured. *)
Lemma vendor_categories_configured (name : string) :
  In name vendors -> In (getRandomCategory name) (map fst receiptCategories).
Proof.
  intros Hin. cbv [vendors In] in Hin.
  repeat (destruct Hin as [<- | Hin]; [vm_compute; tauto |]). destruct Hin.
Qed.

End BadgeFacts.

(** The badge of a configured category has the colour and the name of its
    configuration.  Every other category gets the colour bg-muted and is shown under
    its own name, except the category constructor, which is shown as Object, the name
    of the function that an object inherits under that property name. *)
Theorem badge_shows_the_configured_category :
  forall (receipt : Receipts.Receipt),
    (forall config,
        In (Receipts.category receipt, config) Receipts.receiptCategories ->
        ReceiptTable.getCategoryColor (Receipts.category receipt)
        = Receipts.Category.color config
        /\ ReceiptTable.badgeText receipt = Receipts.Category.name config)
    /\ (~ In (Receipts.category receipt) (map fst Receipts.receiptCategories) ->
        ReceiptTable.getCategoryColor (Receipts.category receipt) = "bg-muted"
        /\ ReceiptTable.badgeText receipt
           = if String.eqb (Receipts.category receipt) "constructor" then "Object"
             else Receipts.category receipt).
Proof.
  intros receipt. unfold ReceiptTable.getCategoryColor, ReceiptTable.badgeText.
  set (c := Receipts.category receipt). split.
  - intros config Hin. cbv [Receipts.receiptCategories In] in Hin.
    repeat (destruct Hin as [[= <- <-] | Hin]; [split; reflexivity |]). destruct Hin.
  - intros Hnot. unfold JS.get. rewrite (find_key_None _ _ Hnot).
    destruct (String.eqb_spec c "__proto__") as [-> | Hproto]; [split; reflexivity |].
    destruct (JS.inherited c) eqn:Einh; [| split; [reflexivity |]].
    + split; [reflexivity |].
      destruct (String.eqb_spec c "constructor") as [-> | Hne]; [reflexivity |].
      pose proof (inherited_nonempty c Einh) as Hnonempty.
      apply String.eqb_neq in Hnonempty. now rewrite Hnonempty.
    + destruct (String.eqb_spec c "constructor") as [-> | Hne]; [discriminate | reflexivity].
Qed.

(** The category of a receipt that the generator makes is one of the configured
    ones: it is among the options of the category filter, and its badge never falls
    back to the colour bg-muted. *)
Theorem generated_category_is_configured :
  forall (h : JS.Host) (now : Z) (name type : string) (random : Receipts.Random)
         (r : Receipts.Receipt),
    unitDraws random ->
    Receipts.generateMockReceipt h now name type random = Some r ->
    In (Receipts.category r) ReceiptTable.categoryOptions
    /\ (exists config,
          In (Receipts.category r, config) Receipts.receiptCategories
          /\ ReceiptTable.getCategoryColor (Receipts.category r) = Receipts.Category.color config
          /\ ReceiptTable.badgeText r = Receipts.Category.name config)
    /\ ReceiptTable.getCategoryColor (Receipts.category r) <> "bg-muted".
Proof.
  intros h now name type random r Hdraws Hr.
  destruct (generated_vendor h now name type random Hdraws r Hr) as [Hvendor Hcategory].
  pose proof (vendor_categories_configured _ Hvendor) as Hin. rewrite <- Hcategory in Hin.
  split; [right; exact Hin |].
  unfold ReceiptTable.getCategoryColor, ReceiptTable.badgeText.
  set (c := Receipts.category r) in *.
  cbv [Receipts.receiptCategories map fst In] in Hin.
  repeat (destruct Hin as [<- | Hin];
          [split; [eexists; split; [| split; reflexivity]; cbv; tauto | discriminate] |]).
  destruct Hin.
Qed.

Lemma generated_category_witness :
  In (Receipts.category Sample.coffee) ReceiptTable.categoryOptions
  /\ ReceiptTable.getCategoryColor (Receipts.category Sample.coffee) = "bg-orange-500"
  /\ ReceiptTable.badgeText Sample.coffee = "Dining".
Proof.
  destruct (generated_category_is_configured Sample.newYork Sample.now "latte.jpg" "image/jpeg"
              _ Sample.coffee sample_draws generated_first_of_month)
    as (Hoption & _ & _).
  split; [exact Hoption |]. split; reflexivity.
Defined.

(** After a click on a column header, the icon of that column is the highlighted one
    and shows the direction of the sort, and the icons of the three other columns are
    the faded one; the first click on a column shows the ascending icon. *)
Theorem sortIcon_marks_the_sorted_column :
  forall (st : ReceiptTable.State) (clicked field : ReceiptTable.SortField.t),
    let st' := ReceiptTable.handleSort st clicked in
    (field <> clicked ->
     ReceiptTable.SortIcon st' field = ReceiptTable.SortAsc "h-4 w-4 opacity-30")
    /\ ReceiptTable.SortIcon st' clicked
       = match ReceiptTable.sortDirection st' with
         | ReceiptTable.SortDirection.asc => ReceiptTable.SortAsc "h-4 w-4 text-primary"
         | ReceiptTable.SortDirection.desc => ReceiptTable.SortDesc "h-4 w-4 text-primary"
         end
    /\ (ReceiptTable.sortField st <> clicked ->
        ReceiptTable.SortIcon st' clicked = ReceiptTable.SortAsc "h-4 w-4 text-primary")
    /\ (ReceiptTable.sortField st = clicked ->
        ReceiptTable.SortIcon st' clicked <> ReceiptTable.SortIcon st clicked).
Proof.
  intros [search cat dat key dir lo hi] clicked field st'. subst st'.
  split; [| split; [| split]].
  - destruct key, clicked, field, dir; cbn; intros; congruence.
  - destruct key, clicked, dir; reflexivity.
  - destruct key, clicked, dir; cbn; intros; congruence.
  - destruct key, clicked, dir; cbn; intros; congruence.
Qed.

(* ===================================================================== *)
(** * The category breakdown                                              *)
(* ===================================================================== *)

(** No category of the record set is a property name of [Object.prototype]. *)
Definition plainCategories (receipts : list Receipts.Receipt) : Prop :=
  Forall (fun r => JS.inherited (Receipts.category r) = false) receipts.

(** The receipts of one category, in the order of the record set. *)
Definition ofCategory (name : string) (receipts : list Receipts.Receipt)
  : list Receipts.Receipt :=
  filter (fun r => String.eqb (Receipts.category r) name) receipts.

Section BreakdownFacts.
Import Receipts Dashboard.

Definition totalStep (acc : JS.object Q) (receipt : Receipt) : JS.object Q :=
  JS.accumulate 0 Qplus acc (category receipt) (amount receipt).

(** The totals held by the object after the receipts seen so far. *)
Definition totalled (seen : list Receipt) (o : JS.object Q) : Prop :=
  NoDup (map fst o)
  /\ forall k v, In (k, v) o
                 <-> (v = JS.Num (sumAmounts (ofCategory k seen)) /\ ofCategory k seen <> []).

Lemma ofCategory_snoc (seen : list Receipt) (r : Receipt) (k : string) :
  ofCategory k (seen ++ [r])
  = ofCategory k seen ++ (if String.eqb (category r) k then [r] else []).
Proof. unfold ofCategory. rewrite filter_app. reflexivity. Qed.

Lemma sumAmounts_snoc (l : list Receipt) (r : Receipt) :
  sumAmounts (l ++ [r]) = sumAmounts l + amount r.
Proof. unfold sumAmounts. now rewrite fold_left_app. Qed.

Lemma totalled_step (seen : list Receipt) (o : JS.object Q) (r : Receipt) :
  JS.inherited (category r) = false -> totalled seen o -> totalled (seen ++ [r]) (totalStep o r).
Proof.
  intros Hplain [Hnd Hin]. unfold totalStep, JS.accumulate.
  rewrite (inherited_proto _ Hplain), Hplain.
  set (c := category r).
  assert (forall w, JS.getOwn o c = Some w ->
                    w = JS.Num (sumAmounts (ofCategory c seen)) /\ ofCategory c seen <> [])
    as Hown.
  { intros w Hw. apply getOwn_In in Hw; [| exact Hnd]. now apply Hin. }
  assert (JS.getOwn o c = None -> ofCategory c seen = []) as Hnone.
  { intros Hn. apply getOwn_None in Hn.
    destruct (ofCategory c seen) as [|x l] eqn:Ec; [reflexivity |].
    exfalso. apply Hn. apply in_map_iff.
    exists (c, JS.Num (sumAmounts (x :: l))). split; [reflexivity |].
    apply Hin. rewrite Ec. split; [reflexivity | discriminate]. }
  assert (forall q, q = sumAmounts (ofCategory c seen ++ [r]) ->
                    totalled (seen ++ [r]) (JS.setOwn o c (JS.Num q))) as Hset.
  { intros q Hq. split; [now apply setOwn_NoDup |].
    intros k v. rewrite setOwn_In by exact Hnd. rewrite ofCategory_snoc, Hin.
    fold c. destruct (String.eqb_spec c k) as [<- | Hne].
    - split.
      + intros [[_ ->] | [Habs _]]; [| congruence].
        split; [now rewrite Hq |]. intros Habs. now apply app_eq_nil in Habs.
      + intros [-> _]. left. split; [reflexivity | now rewrite Hq].
    - rewrite app_nil_r. split.
      + intros [[-> _] | [_ H]]; [congruence | exact H].
      + intros H. right. split; [congruence | exact H]. }
  destruct (JS.getOwn o c) as [[n |] |] eqn:Eget.
  - destruct (Hown _ eq_refl) as [[= ->] _]. apply Hset. now rewrite sumAmounts_snoc.
  - destruct (Hown _ eq_refl) as [Habs _]. discriminate.
  - apply Hset. rewrite (Hnone eq_refl). reflexivity.
Qed.

Lemma totalled_fold (receipts seen : list Receipt) (o : JS.object Q) :
  plainCategories receipts -> totalled seen o ->
  totalled (seen ++ receipts) (fold_left totalStep receipts o).
Proof.
  revert seen o. induction receipts as [|r rest IH]; intros seen o Hplain Hc; simpl.
  - now rewrite app_nil_r.
  - inversion Hplain as [|? ? Hr Hrest]; subst.
    replace (seen ++ r :: rest) with ((seen ++ [r]) ++ rest) by now rewrite <- app_assoc.
    apply IH; [exact Hrest |]. now apply totalled_step.
Qed.

Lemma categoryTotals_totalled (receipts : list Receipt) :
  plainCategories receipts -> totalled receipts (categoryTotals receipts).
Proof.
  intros Hplain. apply (totalled_fold receipts [] []); [exact Hplain |].
  split; [constructor |]. intros k v. simpl. split; [tauto | intros [_ H]; congruence].
Qed.

Lemma ofCategory_nonempty (receipts : list Receipt) (k : string) :
  ofCategory k receipts <> [] <-> In k (map category receipts).
Proof.
  unfold ofCategory. rewrite in_map_iff. split.
  - intros Hne. destruct (filter _ receipts) as [|r l] eqn:Ef; [congruence |].
    assert (In r (filter (fun r => String.eqb (category r) k) receipts)) as Hr
        by (rewrite Ef; now left).
    apply filter_In in Hr. destruct Hr as [Hr Heq]. apply String.eqb_eq in Heq.
    now exists r.
  - intros (r & Heq & Hr) Hempty.
    assert (In r (filter (fun r => String.eqb (category r) k) receipts)) as Hin.
    { apply filter_In. split; [exact Hr |]. now apply String.eqb_eq. }
    rewrite Hempty in Hin. exact Hin.
Qed.

(** The receipts of a record set, one list per category, are the record set. *)
Lemma ofCategory_nil (names : list string) :
  concat (map (fun name => ofCategory name []) names) = [].
Proof. induction names as [|k names IH]; cbn; [reflexivity | exact IH]. Qed.

Lemma ofCategory_cons (r : Receipt) (receipts : list Receipt) (names : list string) :
  NoDup names -> In (category r) names ->
  Permutation (concat (map (fun name => ofCategory name (r :: receipts)) names))
              (r :: concat (map (fun name => ofCategory name receipts) names)).
Proof.
  induction names as [|k names IH]; intros Hnd Hin; [contradiction |].
  inversion Hnd as [|? ? Hk Hrest]; subst. cbn [map concat].
  unfold ofCategory at 1. cbn [filter]. fold (ofCategory k receipts).
  destruct (String.eqb_spec (category r) k) as [Heq | Hne].
  - cbn [app]. apply perm_skip. apply Permutation_app_head.
    assert (map (fun name => ofCategory name (r :: receipts)) names
            = map (fun name => ofCategory name receipts) names) as ->; [| reflexivity].
    apply map_ext_in. intros name Hname. unfold ofCategory. cbn [filter].
    destruct (String.eqb_spec (category r) name); [subst; contradiction | reflexivity].
  - destruct Hin as [Heq | Hin]; [congruence |].
    rewrite (IH Hrest Hin). apply Permutation_sym, Permutation_middle.
Qed.

Lemma ofCategory_partition (receipts : list Receipt) (names : list string) :
  NoDup names -> (forall r, In r receipts -> In (category r) names) ->
  Permutation (concat (map (fun name => ofCategory name receipts) names)) receipts.
Proof.
  intros Hnd. induction receipts as [|r receipts IH]; intros Hall.
  - now rewrite ofCategory_nil.
  - rewrite ofCategory_cons; [| exact Hnd | apply Hall; now left].
    apply perm_skip. apply IH. intros x Hx. apply Hall. now right.
Qed.

End BreakdownFacts.

(** For a record set whose categories are no property names of [Object.prototype],
    the breakdown holds one entry per category of the set and nothing else, and the
    entry of a category is the sum of the amounts of its receipts, added in the order
    of the record set. *)
Theorem categoryBreakdown_sums_each_category :
  forall (h : JS.Host) (now : Z) (receipts : list Receipts.Receipt),
    receipts <> [] ->
    plainCategories receipts ->
    exists s,
      Dashboard.stats h now receipts = Some s
      /\ NoDup (map fst (Receipts.categoryBreakdown s))
      /\ (forall name,
            In name (map Receipts.category receipts) ->
            JS.getOwn (Receipts.categoryBreakdown s) name
            = Some (JS.Num (Dashboard.sumAmounts (ofCategory name receipts))))
      /\ (forall name,
            ~ In name (map Receipts.category receipts) ->
            JS.getOwn (Receipts.categoryBreakdown s) name = None).
Proof.
  intros h now receipts Hne Hplain.
  destruct (stats_nonempty h now receipts Hne) as (m & _ & Hs).
  destruct (categoryTotals_totalled receipts Hplain) as [Hnd Hin].
  eexists. split; [exact Hs |]. cbn [Receipts.categoryBreakdown].
  split; [exact Hnd |]. split.
  - intros name Hname. apply getOwn_In; [exact Hnd |]. apply Hin.
    split; [reflexivity |]. now apply ofCategory_nonempty.
  - intros name Hname. apply getOwn_None. intros Hkey. apply Hname.
    apply in_map_iff in Hkey. destruct Hkey as ([k v] & Hk & Hkv). cbn [fst] in Hk. subst k.
    apply Hin in Hkv. destruct Hkv as [_ Hkv]. now apply ofCategory_nonempty.
Qed.

Lemma sample_categories_plain : plainCategories Sample.receipts.
Proof. repeat constructor. Qed.

Lemma categoryBreakdown_witness :
  exists s,
    Dashboard.stats Sample.utc Sample.now Sample.receipts = Some s
    /\ JS.getOwn (Receipts.categoryBreakdown s) "dining"
       = Some (JS.Num (0 + (575 # 100) + (1230 # 100)))
    /\ JS.getOwn (Receipts.categoryBreakdown s) "internet" = None.
Proof.
  destruct (categoryBreakdown_sums_each_category Sample.utc Sample.now Sample.receipts
              ltac:(discriminate) sample_categories_plain) as (s & Hs & _ & Hsome & Hnone).
  exists s. split; [exact Hs |]. split.
  - apply (Hsome "dining"). cbn. tauto.
  - apply (Hnone "internet"). cbn. intros [H | [H | [H | [H | []]]]]; discriminate.
Defined.

(** For such a record set every receipt is counted in one entry of the breakdown and
    in one only: the names of the entries are distinct, each is the category of some
    receipt, and the receipts of the entries, taken entry by entry, are the receipts of
    the record set. *)
Theorem categoryBreakdown_counts_each_receipt_once :
  forall (h : JS.Host) (now : Z) (receipts : list Receipts.Receipt),
    receipts <> [] ->
    plainCategories receipts ->
    exists s,
      Dashboard.stats h now receipts = Some s
      /\ let names := map fst (Receipts.categoryBreakdown s) in
         NoDup names
         /\ (forall r, In r receipts -> In (Receipts.category r) names)
         /\ (forall name, In name names -> ofCategory name receipts <> [])
         /\ Permutation (concat (map (fun name => ofCategory name receipts) names))
                        receipts.
Proof.
  intros h now receipts Hne Hplain.
  destruct (stats_nonempty h now receipts Hne) as (m & _ & Hs).
  destruct (categoryTotals_totalled receipts Hplain) as [Hnd Hin].
  eexists. split; [exact Hs |]. cbn [Receipts.categoryBreakdown]. cbv zeta.
  assert (forall r, In r receipts
                    -> In (Receipts.category r) (map fst (Dashboard.categoryTotals receipts)))
    as Hcovered.
  { intros r Hr. apply in_map_iff.
    exists (Receipts.category r,
            JS.Num (Dashboard.sumAmounts (ofCategory (Receipts.category r) receipts))).
    split; [reflexivity |]. apply Hin. split; [reflexivity |].
    apply ofCategory_nonempty. now apply in_map. }
  split; [exact Hnd |]. split; [exact Hcovered |]. split.
  - intros name Hname. apply in_map_iff in Hname.
    destruct Hname as ([k v] & Hk & Hkv). cbn [fst] in Hk. subst k.
    apply Hin in Hkv. now destruct Hkv.
  - now apply ofCategory_partition.
Qed.

Lemma categoryBreakdown_counts_witness :
  exists s,
    Dashboard.stats Sample.utc Sample.now Sample.receipts = Some s
    /\ map fst (Receipts.categoryBreakdown s) = ["dining"; "groceries"; "transportation"]
    /\ Permutation
         (concat (map (fun name => ofCategory name Sample.receipts)
                      ["dining"; "groceries"; "transportation"]))
         Sample.receipts.
Proof.
  destruct (categoryBreakdown_counts_each_receipt_once Sample.utc Sample.now Sample.receipts
              ltac:(discriminate) sample_categories_plain) as (s & Hs & _ & _ & _ & Hperm).
  assert (map fst (Receipts.categoryBreakdown s) = ["dining"; "groceries"; "transportation"])
    as Hnames by (vm_compute in Hs; injection Hs as <-; reflexivity).
  exists s. split; [exact Hs |]. split; [exact Hnames |]. now rewrite <- Hnames.
Defined.

(* ===================================================================== *)
(** * The rows of the category breakdown                                  *)
(* ===================================================================== *)

Section RowFacts.
Import Receipts Dashboard.

(** The entry a row was made from. *)
Definition entryOf (row : Breakdown.row) : string * JS.value Q :=
  (Breakdown.category row, JS.Num (Breakdown.amount row)).

Definition isNumber (p : string * JS.value Q) : Prop := exists a, snd p = JS.Num a.

Lemma byAmountDescending_keepsOrder (k1 k2 : string) (a b : Q) :
  keepsOrder byAmountDescending (k1, JS.Num a) (k2, JS.Num b) <-> b <= a.
Proof.
  unfold keepsOrder, byAmountDescending. cbn [snd].
  rewrite positive_Finite_false. split; intros; lra.
Qed.

Lemma sorted_by_amount (entries : list (string * JS.value Q)) :
  Forall isNumber entries ->
  StronglySorted (keepsOrder byAmountDescending) (JS.Array_sort byAmountDescending entries).
Proof.
  apply (Array_sort_sorted _ isNumber).
  - intros [k1 v1] [k2 v2] [a Ha] [b Hb] Hpos. cbn [snd] in Ha, Hb. subst v1 v2.
    apply byAmountDescending_keepsOrder.
    unfold byAmountDescending in Hpos. cbn [snd] in Hpos.
    rewrite positive_Finite_true in Hpos. lra.
  - intros [k1 v1] [k2 v2] [k3 v3] [a Ha] [b Hb] [c Hc]. cbn [snd] in Ha, Hb, Hc.
    subst v1 v2 v3. rewrite !byAmountDescending_keepsOrder. intros; lra.
Qed.

Lemma StronglySorted_app {A : Type} (R : A -> A -> Prop) (l1 l2 : list A) :
  StronglySorted R (l1 ++ l2) ->
  StronglySorted R l1 /\ StronglySorted R l2
  /\ forall x y, In x l1 -> In y l2 -> R x y.
Proof.
  induction l1 as [|a l1 IH]; cbn [app]; intros Hs.
  - split; [constructor |]. split; [exact Hs |]. intros x y [].
  - inversion Hs as [|? ? Hrest Ha]; subst.
    destruct (IH Hrest) as (H1 & H2 & H12).
    rewrite Forall_forall in Ha.
    split; [constructor; [exact H1 |] |].
    + apply Forall_forall. intros x Hx. apply Ha. apply in_or_app. now left.
    + split; [exact H2 |]. intros x y [<- | Hx] Hy.
      * apply Ha. apply in_or_app. now right.
      * now apply H12.
Qed.

(** Rows are made of the entries that hold numbers, one each. *)
Lemma mapRows_numbers (stats : ReceiptStats) (entries : list (string * JS.value Q)) :
  Forall isNumber entries ->
  exists rows,
    mapRows stats entries = Some rows
    /\ map entryOf rows = entries
    /\ Forall (fun row =>
                 Breakdown.percentage row
                 = JS.times (JS.divide (JS.Finite (Breakdown.amount row))
                                       (JS.Finite (totalAmount stats)))
                            (JS.Finite 100)
                 /\ Breakdown.color row = ReceiptTable.getCategoryColor (Breakdown.category row))
              rows.
Proof.
  induction 1 as [|[k v] rest [a Ha] Hrest (rows & Hrows & Hentries & Hall)].
  - exists []. repeat split; constructor.
  - cbn [snd] in Ha. subst v. cbn [mapRows categoryRow]. rewrite Hrows.
    eexists. split; [reflexivity |]. split.
    + cbn [map]. unfold entryOf at 1. cbn [Breakdown.category Breakdown.amount].
      now rewrite Hentries.
    + constructor; [| exact Hall].
      cbn [Breakdown.percentage Breakdown.amount Breakdown.color Breakdown.category].
      split; reflexivity.
Qed.

(** The entries of the breakdown of a plain record set hold numbers. *)
Lemma categoryTotals_numbers (receipts : list Receipt) :
  plainCategories receipts -> Forall isNumber (categoryTotals receipts).
Proof.
  intros Hplain. destruct (categoryTotals_totalled receipts Hplain) as [_ Hin].
  apply Forall_forall. intros [k v] Hkv. apply Hin in Hkv. destruct Hkv as [-> _].
  now eexists.
Qed.

Lemma shown_entries (receipts : list Receipt) :
  plainCategories receipts ->
  let sorted := JS.Array_sort byAmountDescending (JS.Object_entries (categoryTotals receipts)) in
  Permutation sorted (categoryTotals receipts)
  /\ Forall isNumber sorted
  /\ StronglySorted (keepsOrder byAmountDescending) sorted.
Proof.
  intros Hplain sorted.
  assert (Permutation sorted (categoryTotals receipts)) as Hperm.
  { unfold sorted. rewrite Array_sort_perm. apply Object_entries_perm. }
  pose proof (categoryTotals_numbers receipts Hplain) as Hnum.
  split; [exact Hperm |]. split.
  - apply Forall_forall. intros p Hp. rewrite Forall_forall in Hnum. apply Hnum.
    now apply (Permutation_in _ Hperm).
  - apply sorted_by_amount. apply Forall_forall. intros p Hp.
    rewrite Forall_forall in Hnum. apply Hnum.
    now apply (Permutation_in _ (Object_entries_perm _)).
Qed.

End RowFacts.

(** For a record set whose categories are no property names of [Object.prototype],
    the breakdown card shows at most six rows, one per category and in descending
    order of the category totals; a category that is not shown has a total that is at
    most that of every row; the colour of a row is that of the table's badge. *)
Theorem categoryRows_are_the_six_largest :
  forall (h : JS.Host) (now : Z) (receipts : list Receipts.Receipt),
    receipts <> [] ->
    plainCategories receipts ->
    exists s rows,
      Dashboard.stats h now receipts = Some s
      /\ Dashboard.categoryRows s = Some rows
      /\ length rows = Nat.min 6 (length (Receipts.categoryBreakdown s))
      /\ NoDup (map Dashboard.Breakdown.category rows)
      /\ StronglySorted
           (fun a b => Dashboard.Breakdown.amount b <= Dashboard.Breakdown.amount a) rows
      /\ (forall row, In row rows ->
            In (Dashboard.Breakdown.category row) (map Receipts.category receipts)
            /\ Dashboard.Breakdown.amount row
               = Dashboard.sumAmounts (ofCategory (Dashboard.Breakdown.category row) receipts)
            /\ Dashboard.Breakdown.color row
               = ReceiptTable.getCategoryColor (Dashboard.Breakdown.category row))
      /\ (forall name row,
            In name (map Receipts.category receipts) ->
            ~ In name (map Dashboard.Breakdown.category rows) ->
            In row rows ->
            Dashboard.sumAmounts (ofCategory name receipts) <= Dashboard.Breakdown.amount row).
Proof.
  intros h now receipts Hne Hplain.
  destruct (stats_nonempty h now receipts Hne) as (m & _ & Hs).
  destruct (categoryTotals_totalled receipts Hplain) as [Hnd Hin].
  destruct (shown_entries receipts Hplain) as (Hperm & Hnum & Hsorted).
  set (o := Dashboard.categoryTotals receipts) in *.
  set (sorted := JS.Array_sort Dashboard.byAmountDescending (JS.Object_entries o)) in *.
  rewrite <- (firstn_skipn 6 sorted) in Hsorted, Hnum.
  apply StronglySorted_app in Hsorted. destruct Hsorted as (Hfirst & _ & Hcross).
  apply Forall_app in Hnum. destruct Hnum as [Hnum6 Hnum'].
  eexists.
  destruct (mapRows_numbers
              (Receipts.mkStats (length receipts) (Dashboard.sumAmounts receipts)
                 (Dashboard.sumAmounts receipts / inject_Z (Z.of_nat (length receipts))) m
                 (Dashboard.mostFrequentVendor receipts)
                 (Dashboard.spendIn h (Some (Dashboard.currentMonth h now))
                                    (Some (Dashboard.currentYear h now)) receipts)
                 (Dashboard.spendIn h (Some (Dashboard.lastMonth h now))
                                    (Some (Dashboard.lastMonthYear h now)) receipts)
                 o (Dashboard.trendFrom h now receipts 5))
              (firstn 6 sorted) Hnum6) as (rows & Hrows & Hentries & Hall).
  exists rows. split; [exact Hs |].
  unfold Dashboard.categoryRows. cbn [Receipts.categoryBreakdown]. fold sorted.
  split; [exact Hrows |].
  assert (NoDup (map fst sorted)) as Hnd'.
  { apply (Permutation_NoDup (l := map fst o)); [| exact Hnd].
    apply Permutation_map, Permutation_sym, Hperm. }
  assert (map Dashboard.Breakdown.category rows = map fst (firstn 6 sorted)) as Hkeys.
  { rewrite <- Hentries, map_map. reflexivity. }
  split.
  { rewrite <- (length_map entryOf), Hentries, length_firstn.
    now rewrite (Permutation_length Hperm). }
  split.
  { rewrite Hkeys. rewrite <- (firstn_skipn 6 sorted), map_app in Hnd'.
    now apply NoDup_app_remove_r in Hnd'. }
  split.
  { rewrite <- Hentries in Hfirst. clear - Hfirst.
    induction rows as [|row rows IH]; [constructor |].
    cbn [map] in Hfirst. inversion Hfirst as [|? ? Hrest Hrow]; subst.
    constructor; [now apply IH |].
    rewrite Forall_forall in *. intros b Hb.
    apply (byAmountDescending_keepsOrder (Dashboard.Breakdown.category row)
                                         (Dashboard.Breakdown.category b)).
    apply (Hrow (entryOf b)). now apply in_map. }
  assert (forall row, In row rows -> In (entryOf row) o) as Hrow_in.
  { intros row Hrow. apply (Permutation_in _ Hperm).
    rewrite <- (firstn_skipn 6 sorted). apply in_or_app. left.
    rewrite <- Hentries. now apply in_map. }
  split.
  - intros row Hrow. pose proof (Hrow_in row Hrow) as Hentry.
    apply Hin in Hentry. destruct Hentry as [Hamount Hsome].
    split; [now apply ofCategory_nonempty |]. split; [congruence |].
    rewrite Forall_forall in Hall. now apply Hall.
  - intros name row Hname Hhidden Hrow.
    assert (In (name, JS.Num (Dashboard.sumAmounts (ofCategory name receipts))) sorted) as Hentry.
    { apply (Permutation_in _ (Permutation_sym Hperm)). apply Hin.
      split; [reflexivity |]. now apply ofCategory_nonempty. }
    rewrite <- (firstn_skipn 6 sorted) in Hentry. apply in_app_or in Hentry.
    destruct Hentry as [Hshown | Hrest].
    + exfalso. apply Hhidden. rewrite Hkeys.
      apply in_map_iff. eexists. split; [| exact Hshown]. reflexivity.
    + apply (byAmountDescending_keepsOrder (Dashboard.Breakdown.category row) name).
      apply Hcross; [| exact Hrest]. rewrite <- Hentries. now apply (in_map entryOf).
Qed.

Lemma categoryRows_witness :
  exists s rows,
    Dashboard.stats Sample.utc Sample.now Sample.receipts = Some s
    /\ Dashboard.categoryRows s = Some rows
    /\ map Dashboard.Breakdown.category rows = ["groceries"; "transportation"; "dining"].
Proof.
  destruct (categoryRows_are_the_six_largest Sample.utc Sample.now Sample.receipts
              ltac:(discriminate) sample_categories_plain) as (s & rows & Hs & Hrows & _).
  exists s, rows. split; [exact Hs |]. split; [exact Hrows |].
  vm_compute in Hs. injection Hs as <-. vm_compute in Hrows. injection Hrows as <-.
  reflexivity.
Defined.

Section PercentageFacts.
Import Receipts Dashboard.

Lemma percentage_of_total (a t : Q) :
  ~ t == 0 ->
  JS.times (JS.divide (JS.Finite a) (JS.Finite t)) (JS.Finite 100) = JS.Finite (a / t * 100).
Proof.
  intros Ht. unfold JS.divide, JS.sign.
  destruct (Qcompare_spec t 0) as [Heq | Hlt | Hgt]; [contradiction | reflexivity | reflexivity].
Qed.

Lemma percentage_at_zero (a t : Q) :
  t == 0 ->
  JS.times (JS.divide (JS.Finite a) (JS.Finite t)) (JS.Finite 100) = JS.infinity (JS.sign a).
Proof.
  intros Ht. unfold JS.divide. unfold JS.sign at 1.
  destruct (Qcompare_spec t 0) as [Heq | Hlt | Hgt]; [| lra | lra].
  unfold JS.sign. destruct (Qcompare a 0); reflexivity.
Qed.

Lemma In_firstn_weaken {A : Type} (n : nat) (l : list A) (x : A) :
  In x (firstn n l) -> In x l.
Proof. intros Hx. rewrite <- (firstn_skipn n l). apply in_or_app. now left. Qed.

(** Where no amount is negative, the amounts of a selection add up to at most the
    amounts of all, and to no less than zero. *)
Lemma selection_between (f : Receipt -> bool) (receipts : list Receipt) :
  (forall r, In r receipts -> 0 <= amount r) ->
  0 <= sumAmounts (filter f receipts) /\ sumAmounts (filter f receipts) <= sumAmounts receipts.
Proof.
  rewrite !sumAmounts_total.
  induction receipts as [|r rest IH]; intros Hpos; cbn [filter map].
  - unfold total. cbn. split; lra.
  - destruct (IH (fun x Hx => Hpos x (or_intror Hx))) as [Hlo Hhi].
    pose proof (Hpos r (or_introl eq_refl)) as Hr.
    change (total (amount r :: map amount rest)) with (amount r + total (map amount rest)).
    destruct (f r); cbn [map];
      [change (total (amount r :: map amount (filter f rest)))
         with (amount r + total (map amount (filter f rest))) |];
      split; lra.
Qed.

End PercentageFacts.

(** The percentage of a row is its amount over the total amount, times 100, as the
    row computes it.  No amount is negative: then the total amount is zero exactly when
    every amount is zero, in the arithmetic of the runtime as here, and every row
    then shows [NaN], zero divided by zero. *)
Theorem category_percentages_share_the_total :
  forall (h : JS.Host) (now : Z) (receipts : list Receipts.Receipt),
    receipts <> [] ->
    plainCategories receipts ->
    (forall r, In r receipts -> 0 <= Receipts.amount r) ->
    exists s rows,
      Dashboard.stats h now receipts = Some s
      /\ Dashboard.categoryRows s = Some rows
      /\ (Receipts.totalAmount s == 0 ->
          forall row, In row rows -> Dashboard.Breakdown.percentage row = JS.NaN)
      /\ (~ Receipts.totalAmount s == 0 ->
          map Dashboard.Breakdown.percentage rows
          = map (fun row => JS.Finite (Dashboard.Breakdown.amount row
                                       / Receipts.totalAmount s * 100)) rows).
Proof.
  intros h now receipts Hne Hplain Hpos.
  destruct (stats_nonempty h now receipts Hne) as (m & _ & Hs).
  destruct (shown_entries receipts Hplain) as (Hperm & Hnum & _).
  destruct (categoryTotals_totalled receipts Hplain) as [_ Htotalled].
  set (o := Dashboard.categoryTotals receipts) in *.
  set (sorted := JS.Array_sort Dashboard.byAmountDescending (JS.Object_entries o)) in *.
  assert (Forall isNumber (firstn 6 sorted)) as Hnum6.
  { rewrite <- (firstn_skipn 6 sorted) in Hnum. now apply Forall_app in Hnum. }
  eexists.
  destruct (mapRows_numbers
              (Receipts.mkStats (length receipts) (Dashboard.sumAmounts receipts)
                 (Dashboard.sumAmounts receipts / inject_Z (Z.of_nat (length receipts))) m
                 (Dashboard.mostFrequentVendor receipts)
                 (Dashboard.spendIn h (Some (Dashboard.currentMonth h now))
                                    (Some (Dashboard.currentYear h now)) receipts)
                 (Dashboard.spendIn h (Some (Dashboard.lastMonth h now))
                                    (Some (Dashboard.lastMonthYear h now)) receipts)
                 o (Dashboard.trendFrom h now receipts 5))
              (firstn 6 sorted) Hnum6) as (rows & Hrows & Hentries & Hall).
  exists rows. split; [exact Hs |].
  unfold Dashboard.categoryRows. cbn [Receipts.categoryBreakdown Receipts.totalAmount] in *.
  fold sorted. split; [exact Hrows |].
  rewrite Forall_forall in Hall.
  split.
  - intros Hzero row Hrow. destruct (Hall row Hrow) as [-> _].
    rewrite (percentage_at_zero _ _ Hzero).
    assert (In (entryOf row) o) as Hentry.
    { apply (Permutation_in _ Hperm). fold sorted.
      apply (In_firstn_weaken 6). rewrite <- Hentries. now apply in_map. }
    apply Htotalled in Hentry. destruct Hentry as [[= Hamount] _].
    destruct (selection_between
                (fun r => String.eqb (Receipts.category r) (Dashboard.Breakdown.category row))
                receipts Hpos) as [Hlo Hhi].
    fold (ofCategory (Dashboard.Breakdown.category row) receipts) in Hlo, Hhi.
    rewrite <- Hamount in Hlo, Hhi.
    assert (Dashboard.Breakdown.amount row == 0) as Hnone by lra.
    unfold JS.sign. apply Qeq_alt in Hnone. now rewrite Hnone.
  - intros Hnonzero. apply map_ext_in. intros row Hrow. destruct (Hall row Hrow) as [-> _].
    now apply percentage_of_total.
Qed.

Lemma sample_amounts_not_negative :
  forall r, In r Sample.receipts -> 0 <= Receipts.amount r.
Proof.
  intros r [<- | [<- | [<- | [<- | []]]]]; apply Qle_bool_iff; reflexivity.
Qed.

(** Two receipts for nothing. *)
Definition freeOfCharge : list Receipts.Receipt :=
  [Receipts.mkReceipt "r1f2d3" "Target" "2024-03-02" 0 "shopping" "target.png"
                      "image/png" (75 # 100);
   Receipts.mkReceipt "r4f5d6" "Starbucks" "2024-03-05" 0 "dining" "refill.png"
                      "image/png" (75 # 100)].

Lemma category_percentages_witness :
  (exists s rows,
      Dashboard.stats Sample.utc Sample.now Sample.receipts = Some s
      /\ Dashboard.categoryRows s = Some rows
      /\ map Dashboard.Breakdown.percentage rows
         = map (fun row => JS.Finite (Dashboard.Breakdown.amount row
                                      / Receipts.totalAmount s * 100)) rows)
  /\ (exists s rows,
         Dashboard.stats Sample.utc Sample.now freeOfCharge = Some s
         /\ Dashboard.categoryRows s = Some rows
         /\ map Dashboard.Breakdown.percentage rows = [JS.NaN; JS.NaN]).
Proof.
  split.
  - destruct (category_percentages_share_the_total Sample.utc Sample.now Sample.receipts
                ltac:(discriminate) sample_categories_plain sample_amounts_not_negative)
      as (s & rows & Hs & Hrows & _ & Hshares).
    exists s, rows. split; [exact Hs |]. split; [exact Hrows |].
    apply Hshares. vm_compute in Hs. injection Hs as <-. discriminate.
  - destruct (category_percentages_share_the_total Sample.utc Sample.now freeOfCharge
                ltac:(discriminate) ltac:(repeat constructor))
      as (s & rows & Hs & Hrows & _).
    { intros r [<- | [<- | []]]; apply Qle_refl. }
    exists s, rows. split; [exact Hs |]. split; [exact Hrows |].
    vm_compute in Hs. injection Hs as <-. vm_compute in Hrows. injection Hrows as <-.
    reflexivity.
Defined.

Section PrototypeNames.
Import Receipts Dashboard.

(** Every entry under a property name of [Object.prototype] holds a string. *)
Definition inheritedAreText (o : JS.object Q) : Prop :=
  forall k v, In (k, v) o -> JS.inherited k = true -> v = JS.Text.

Lemma getOwn_Some_In {A : Type} (o : JS.object A) (k : string) (v : JS.value A) :
  JS.getOwn o k = Some v -> In (k, v) o.
Proof.
  induction o as [|[k' v'] rest IH]; cbn [JS.getOwn]; [discriminate |].
  destruct (String.eqb_spec k' k) as [-> | Hne].
  - intros [= ->]. now left.
  - intros Hget. right. now apply IH.
Qed.

Lemma setOwn_holds {A : Type} (o : JS.object A) (k : string) (v : JS.value A) :
  In (k, v) (JS.setOwn o k v).
Proof.
  induction o as [|[k' v'] rest IH]; cbn [JS.setOwn]; [now left |].
  destruct (String.eqb_spec k' k) as [-> | Hne]; [now left | now right].
Qed.

Lemma setOwn_from {A : Type} (o : JS.object A) (k k' : string) (v v' : JS.value A) :
  In (k', v') (JS.setOwn o k v) -> (k' = k /\ v' = v) \/ In (k', v') o.
Proof.
  induction o as [|[k0 v0] rest IH]; cbn [JS.setOwn].
  - intros [[= -> ->] | []]. now left.
  - destruct (String.eqb_spec k0 k) as [-> | Hne].
    + intros [[= -> ->] | Hin]; [now left | right; now right].
    + intros [Heq | Hin]; [right; now left |].
      destruct (IH Hin) as [H | H]; [now left | right; now right].
Qed.

Lemma setOwn_keeps {A : Type} (o : JS.object A) (k c : string) (v w : JS.value A) :
  In (c, w) o -> k <> c \/ v = w -> In (c, w) (JS.setOwn o k v).
Proof.
  intros Hin Hcase. induction o as [|[k0 v0] rest IH]; [destruct Hin |].
  cbn [JS.setOwn]. destruct (String.eqb_spec k0 k) as [-> | Hne].
  - destruct Hin as [[= -> ->] | Hin]; [| now right].
    destruct Hcase as [Hne | ->]; [congruence | now left].
  - destruct Hin as [Heq | Hin]; [now left | right; now apply IH].
Qed.

Lemma length_setOwn {A : Type} (o : JS.object A) (k : string) (v : JS.value A) :
  (length (JS.setOwn o k v) <= S (length o))%nat.
Proof.
  induction o as [|[k' v'] rest IH]; cbn [JS.setOwn length]; [lia |].
  destruct (String.eqb k' k); cbn [length]; lia.
Qed.

Lemma totalStep_length (o : JS.object Q) (r : Receipt) :
  (length (totalStep o r) <= S (length o))%nat.
Proof.
  unfold totalStep, JS.accumulate.
  destruct (String.eqb _ "__proto__"); [lia |].
  destruct (JS.getOwn o (category r)) as [[n |] |]; [| | destruct (JS.inherited _)];
    apply length_setOwn.
Qed.

Lemma totalStep_inheritedAreText (o : JS.object Q) (r : Receipt) :
  inheritedAreText o -> inheritedAreText (totalStep o r).
Proof.
  intros Ho. unfold totalStep, JS.accumulate.
  destruct (String.eqb _ "__proto__"); [exact Ho |].
  destruct (JS.getOwn o (category r)) as [[n |] |] eqn:Eget.
  - intros k v Hin Hk. apply setOwn_from in Hin. destruct Hin as [[-> ->] | Hin]; [| eauto].
    apply getOwn_Some_In in Eget. specialize (Ho _ _ Eget Hk). discriminate.
  - intros k v Hin Hk. apply setOwn_from in Hin. destruct Hin as [[-> ->] | Hin]; eauto.
  - destruct (JS.inherited (category r)) eqn:Einh.
    + intros k v Hin Hk. apply setOwn_from in Hin. destruct Hin as [[-> ->] | Hin]; eauto.
    + intros k v Hin Hk. apply setOwn_from in Hin.
      destruct Hin as [[-> ->] | Hin]; [congruence | eauto].
Qed.

Lemma totalStep_keeps_text (o : JS.object Q) (r : Receipt) (c : string) :
  inheritedAreText o -> JS.inherited c = true ->
  In (c, JS.Text) o -> In (c, JS.Text) (totalStep o r).
Proof.
  intros Ho Hc Hin. unfold totalStep, JS.accumulate.
  destruct (String.eqb _ "__proto__"); [exact Hin |].
  destruct (JS.getOwn o (category r)) as [[n |] |] eqn:Eget.
  - apply setOwn_keeps; [exact Hin |]. left. intros Heq.
    apply getOwn_Some_In in Eget. rewrite Heq in Eget.
    specialize (Ho _ _ Eget Hc). discriminate.
  - apply setOwn_keeps; [exact Hin | now right].
  - assert (category r <> c) as Hne.
    { intros Heq. apply getOwn_None in Eget. apply Eget. rewrite Heq.
      apply in_map_iff. now exists (c, JS.Text). }
    destruct (JS.inherited (category r)); apply setOwn_keeps; auto.
Qed.

Lemma totalStep_makes_text (o : JS.object Q) (r : Receipt) :
  inheritedAreText o -> JS.inherited (category r) = true -> category r <> "__proto__" ->
  In (category r, JS.Text) (totalStep o r).
Proof.
  intros Ho Hc Hproto. unfold totalStep, JS.accumulate.
  destruct (String.eqb_spec (category r) "__proto__") as [Heq | _]; [contradiction |].
  destruct (JS.getOwn o (category r)) as [[n |] |] eqn:Eget.
  - apply getOwn_Some_In in Eget. specialize (Ho _ _ Eget Hc). discriminate.
  - apply setOwn_holds.
  - rewrite Hc. apply setOwn_holds.
Qed.

Lemma totals_fold_text (receipts : list Receipt) (o : JS.object Q) (c : string) :
  inheritedAreText o -> JS.inherited c = true -> c <> "__proto__" ->
  In (c, JS.Text) o \/ In c (map category receipts) ->
  In (c, JS.Text) (fold_left totalStep receipts o)
  /\ (length (fold_left totalStep receipts o) <= length o + length receipts)%nat.
Proof.
  revert o. induction receipts as [|r rest IH]; intros o Ho Hc Hproto Hcase; cbn [fold_left].
  - split; [| cbn; lia]. destruct Hcase as [Hin | []]. exact Hin.
  - pose proof (totalStep_length o r) as Hlen.
    destruct (IH (totalStep o r)) as [Hin Hlen']; [| exact Hc | exact Hproto | |].
    + now apply totalStep_inheritedAreText.
    + destruct Hcase as [Hin | [Heq | Hin]].
      * left. now apply totalStep_keeps_text.
      * left. rewrite <- Heq. apply totalStep_makes_text; [exact Ho | now rewrite Heq |].
        now rewrite Heq.
      * now right.
    + split; [exact Hin |]. cbn [length]. lia.
Qed.

Lemma categoryTotals_text (receipts : list Receipt) (c : string) :
  JS.inherited c = true -> c <> "__proto__" -> In c (map category receipts) ->
  In (c, JS.Text) (categoryTotals receipts)
  /\ (length (categoryTotals receipts) <= length receipts)%nat.
Proof.
  intros Hc Hproto Hin.
  destruct (totals_fold_text receipts [] c) as [Htext Hlen];
    [intros k v [] | exact Hc | exact Hproto | now right |].
  split; [exact Htext | exact Hlen].
Qed.

Lemma mapRows_text (stats : ReceiptStats) (entries : list (string * JS.value Q)) (k : string) :
  In (k, JS.Text) entries -> mapRows stats entries = None.
Proof.
  induction entries as [|[k' v'] rest IH]; [intros [] |].
  intros [[= -> ->] | Hin]; cbn [mapRows categoryRow]; [reflexivity |].
  destruct v'; [| reflexivity]. now rewrite (IH Hin).
Qed.

End PrototypeNames.

(** A category that is the name of a function of [Object.prototype], such as
    constructor or toString, makes its entry of the breakdown a string; when the set
    has at most six receipts, so that every entry is shown, rendering the breakdown
    card throws a TypeError. *)
Theorem categoryRows_throws_on_prototype_name :
  forall (h : JS.Host) (now : Z) (receipts : list Receipts.Receipt) (r : Receipts.Receipt),
    (length receipts <= 6)%nat ->
    In r receipts ->
    JS.inherited (Receipts.category r) = true ->
    Receipts.category r <> "__proto__" ->
    exists s,
      Dashboard.stats h now receipts = Some s
      /\ In (Receipts.category r, JS.Text) (Receipts.categoryBreakdown s)
      /\ Dashboard.categoryRows s = None.
Proof.
  intros h now receipts r Hfew Hr Hinh Hproto.
  assert (receipts <> []) as Hne by (intros ->; destruct Hr).
  destruct (stats_nonempty h now receipts Hne) as (m & _ & Hs).
  eexists. split; [exact Hs |]. cbn [Receipts.categoryBreakdown].
  destruct (categoryTotals_text receipts (Receipts.category r) Hinh Hproto
              ltac:(now apply in_map)) as [Hin Hlen].
  split; [exact Hin |].
  unfold Dashboard.categoryRows. cbn [Receipts.categoryBreakdown].
  set (sorted := JS.Array_sort _ _).
  assert (Permutation sorted (Dashboard.categoryTotals receipts)) as Hperm.
  { unfold sorted. rewrite Array_sort_perm. apply Object_entries_perm. }
  rewrite firstn_all2 by (rewrite (Permutation_length Hperm); lia).
  apply (mapRows_text _ _ (Receipts.category r)).
  now apply (Permutation_in _ (Permutation_sym Hperm)).
Qed.

(** A receipt filed under the category constructor. *)
Definition oddlyFiled : Receipts.Receipt :=
  Receipts.mkReceipt "q1w2e3" "Corner Shop" "2024-03-02" (1250 # 100) "constructor"
                     "shop.png" "image/png" (80 # 100).

Lemma categoryRows_throws_witness :
  exists s,
    Dashboard.stats Sample.utc Sample.now [Sample.coffee; oddlyFiled] = Some s
    /\ Dashboard.categoryRows s = None.
Proof.
  destruct (categoryRows_throws_on_prototype_name Sample.utc Sample.now
              [Sample.coffee; oddlyFiled] oddlyFiled)
    as (s & Hs & _ & Hrows).
  - cbn. lia.
  - right. now left.
  - reflexivity.
  - discriminate.
  - exists s. split; assumption.
Defined.

(* ===================================================================== *)
(** * Dates written by [toISOString] and read back by [new Date]          *)
(* ===================================================================== *)

(** The text is [width] decimal digits that denote [n]. *)
Definition digitsOf (width : nat) (n : Z) (s : string) : Prop :=
  String.length s = width /\ JS.allDigits s = true /\ JS.digitsValue 0 s = n.

Definition digitsOfb (width : nat) (n : Z) (s : string) : bool :=
  (String.length s =? width)%nat && JS.allDigits s && (JS.digitsValue 0 s =? n)%Z.

(** The integers from [start] on, [count] of them. *)
Fixpoint countFrom (start : Z) (count : nat) : list Z :=
  match count with
  | O => []
  | S rest => start :: countFrom (start + 1) rest
  end.

Section RoundTripFacts.
Import JS.
Local Open Scope Z_scope.

Ltac floors := Z.to_euclidean_division_equations; lia.

Lemma digitsOfb_spec (width : nat) (n : Z) (s : string) :
  digitsOfb width n s = true <-> digitsOf width n s.
Proof.
  unfold digitsOfb, digitsOf. rewrite !andb_true_iff, Nat.eqb_eq, Z.eqb_eq. tauto.
Qed.

Lemma In_countFrom (count : nat) (start z : Z) :
  start <= z < start + Z.of_nat count -> In z (countFrom start count).
Proof.
  revert start. induction count as [|count IH]; intros start Hz; [lia |].
  cbn [countFrom]. destruct (Z.eq_dec start z) as [-> | Hne]; [now left | right].
  apply IH. lia.
Qed.

(** [pad] on every number that fits the width, by enumeration. *)
Lemma pad_digits (width : nat) (n : Z) :
  (width = 2%nat /\ 0 <= n <= 99) \/ (width = 4%nat /\ 0 <= n <= 9999) ->
  digitsOf width n (pad width n).
Proof.
  intros Hcase. apply digitsOfb_spec.
  assert (forall bound : Z,
             forallb (fun k => digitsOfb width k (pad width k))
                     (countFrom 0 (Z.to_nat bound)) = true ->
             0 <= n < bound ->
             digitsOfb width n (pad width n) = true) as Henum.
  { intros bound Hall Hn. rewrite forallb_forall in Hall.
    apply Hall, In_countFrom. lia. }
  destruct Hcase as [[-> Hn] | [-> Hn]].
  - apply (Henum 100); [vm_compute; reflexivity | lia].
  - apply (Henum 10000); [vm_compute; reflexivity | lia].
Qed.

Lemma DayWithinYear_range (t : Z) : 0 <= DayWithinYear t < 365 + InLeapYear t.
Proof.
  unfold DayWithinYear, InLeapYear, YearFromTime.
  pose proof (YearFromDay_spec (Day t)) as Hs.
  rewrite DayFromYear_succ in Hs.
  destruct (DaysInYear_leapDays (YearFromDay (Day t))) as [Hlen _]. lia.
Qed.

(** A day of the year lies within the month that [monthOfDay] gives. *)
Lemma monthOfDay_within (leap d : Z) :
  leap = 0 \/ leap = 1 -> 0 <= d < 365 + leap ->
  1 <= d - monthStart leap (monthOfDay leap d) + 1
    <= (if monthOfDay leap d =? 11 then 31
        else monthStart leap (monthOfDay leap d + 1) - monthStart leap (monthOfDay leap d)).
Proof.
  intros Hleap Hd. unfold monthOfDay.
  destruct Hleap as [-> | ->];
    repeat match goal with
           | |- context [if ?a <? ?b then _ else _] => destruct (Z.ltb_spec a b)
           end;
    vm_compute (monthStart _ _); vm_compute (_ =? _); cbv iota; lia.
Qed.

Lemma DateFromTime_range (t : Z) :
  1 <= DateFromTime t <= DaysInMonth (YearFromTime t) (MonthFromTime t).
Proof.
  unfold DateFromTime, DaysInMonth, MonthFromTime, InLeapYear.
  destruct (DaysInYear_leapDays (YearFromTime t)) as [_ Hleap].
  apply monthOfDay_within; [lia |]. apply DayWithinYear_range.
Qed.

(** [MakeDay] on the fields of a time gives its day back, and a date [j] days off
    gives the day [j] days off. *)
Lemma MakeDay_fields (t j : Z) :
  MakeDay (YearFromTime t) (MonthFromTime t) (DateFromTime t + j) = Day t + j.
Proof.
  pose proof (MonthFromTime_range t) as Hm.
  unfold MakeDay.
  replace (MonthFromTime t / 12) with 0 by floors.
  replace (MonthFromTime t mod 12) with (MonthFromTime t) by floors.
  rewrite Z.add_0_r.
  unfold DateFromTime, InLeapYear, DayWithinYear. lia.
Qed.

(** The years 0 to 9999 are those of the days from 0000-01-01 to 9999-12-31. *)
Lemma YearFromTime_four_digits (t : Z) :
  -62167219200000 <= t < 253402300800000 -> 0 <= YearFromTime t <= 9999.
Proof.
  intros Ht. unfold YearFromTime.
  pose proof (YearFromDay_spec (Day t)) as [Hlo Hhi].
  assert (-719528 <= Day t < 2932897) as Hday by (unfold Day, msPerDay; floors).
  split.
  - destruct (Z_le_gt_dec 0 (YearFromDay (Day t))) as [| Hneg]; [assumption |].
    pose proof (DayFromYear_mono (YearFromDay (Day t) + 1) 0 ltac:(lia)) as Hmono.
    replace (DayFromYear 0) with (-719528) in Hmono by reflexivity. lia.
  - destruct (Z_le_gt_dec (YearFromDay (Day t)) 9999) as [| Hbig]; [assumption |].
    pose proof (DayFromYear_mono 10000 (YearFromDay (Day t)) ltac:(lia)) as Hmono.
    replace (DayFromYear 10000) with 2932897 in Hmono by reflexivity. lia.
Qed.

(** A text of four digits, a dash, two digits, a dash and two digits is read as
    the three numbers. *)
Lemma parseISODate_digits (year month date : string) (y m d : Z) :
  digitsOf 4 y year -> digitsOf 2 m month -> digitsOf 2 d date ->
  parseISODate (year ++ "-" ++ month ++ "-" ++ date) = Some (y, m, d).
Proof.
  intros (Ly & Ay & Vy) (Lm & Am & Vm) (Ld & Ad & Vd).
  destruct year as [|y1 [|y2 [|y3 [|y4 [|? ?]]]]]; try discriminate.
  destruct month as [|m1 [|m2 [|? ?]]]; try discriminate.
  destruct date as [|d1 [|d2 [|? ?]]]; try discriminate.
  cbn [allDigits] in Ay, Am, Ad.
  repeat rewrite andb_true_iff in Ay. repeat rewrite andb_true_iff in Am.
  repeat rewrite andb_true_iff in Ad.
  destruct Ay as (Hy1 & Hy2 & Hy3 & Hy4 & _), Am as (Hm1 & Hm2 & _), Ad as (Hd1 & Hd2 & _).
  cbn [digitsValue] in Vy, Vm, Vd.
  cbn [append parseISODate].
  change (Ascii.eqb "-" "-") with true. cbn [andb forallb].
  rewrite Hy1, Hy2, Hy3, Hy4, Hm1, Hm2, Hd1, Hd2. cbn [andb].
  f_equal. f_equal; [f_equal |]; lia.
Qed.

(** The date that [toISOString] writes for a time of the years 0 to 9999 is read
    back by [new Date] as midnight UTC of the same day. *)
Lemma Date_parse_toISODate (h : Host) (t : Z) :
  -62167219200000 <= t < 253402300800000 ->
  Date_parse h (toISODate t) = Some (Day t * msPerDay).
Proof.
  intros Ht. pose proof (YearFromTime_four_digits t Ht) as Hy.
  pose proof (MonthFromTime_range t) as Hm.
  pose proof (DateFromTime_range t) as Hd.
  pose proof (DaysInMonth_positive (YearFromTime t) (MonthFromTime t) Hm) as Hlen.
  unfold toISODate. cbv zeta.
  assert ((0 <=? YearFromTime t) && (YearFromTime t <=? 9999) = true) as ->
      by (rewrite andb_true_iff, !Z.leb_le; lia).
  rewrite (Date_parse_valid h _ (YearFromTime t) (MonthFromTime t + 1) (DateFromTime t)).
  - replace (MonthFromTime t + 1 - 1) with (MonthFromTime t) by lia.
    pose proof (MakeDay_fields t 0) as Hday. rewrite Z.add_0_r in Hday. rewrite Hday.
    unfold MakeDate. f_equal. lia.
  - apply parseISODate_digits; apply pad_digits; lia.
  - lia.
  - replace (MonthFromTime t + 1 - 1) with (MonthFromTime t) by lia. exact Hd.
Qed.

(** Setting the day of the month [k] days back moves the time value [k] days back:
    local time is a fixed offset from UTC. *)
Lemma setDate_days_back (h : Host) (now k : Z) :
  setDate h now (DateFromTime (LocalTime h now) - k) = TimeClip (now - k * msPerDay).
Proof.
  unfold setDate. cbv zeta.
  pose proof (MakeDay_fields (LocalTime h now) (- k)) as Hday.
  replace (DateFromTime (LocalTime h now) + - k) with (DateFromTime (LocalTime h now) - k)
    in Hday by lia.
  rewrite Hday. f_equal.
  unfold UTC, MakeDate, TimeWithinDay, Day, LocalTime, msPerDay. floors.
Qed.

End RoundTripFacts.

Section GeneratedDates.
Import Receipts.
Local Open Scope Z_scope.

(** How many days back the third draw dates the receipt. *)
Definition daysAgo (random : Random) : Z := JS.Math_floor (forDaysAgo random * 365).

Lemma daysAgo_range (random : Random) : unitDraws random -> 0 <= daysAgo random <= 364.
Proof.
  intros (_ & _ & (H0 & H1) & _). unfold daysAgo.
  assert (0 <= JS.Math_floor (forDaysAgo random * 365) < 365) as Hk; [| lia].
  apply Qfloor_between.
  - change (inject_Z 0) with 0%Q. lra.
  - change (inject_Z 365) with 365%Q. lra.
Qed.

(** The generator dates the receipt with the UTC date of the instant [daysAgo] days
    before its clock, and throws only when that instant is outside the range of time
    values. *)
Lemma generated_date (h : JS.Host) (now : Z) (name type : string) (random : Random) :
  match generateMockReceipt h now name type random with
  | Some r =>
      JS.TimeClip (now - daysAgo random * JS.msPerDay)
      = Some (now - daysAgo random * JS.msPerDay)
      /\ date r = JS.toISODate (now - daysAgo random * JS.msPerDay)
      /\ fileName r = name /\ fileType r = type
  | None => JS.TimeClip (now - daysAgo random * JS.msPerDay) = None
  end.
Proof.
  unfold generateMockReceipt. cbv zeta. cbn [JS.getDate option_map].
  fold (daysAgo random). rewrite setDate_days_back.
  unfold JS.TimeClip.
  destruct (Z.abs (now - daysAgo random * JS.msPerDay) >? 8640000000000000);
    [reflexivity |].
  cbn [date fileName fileType]. repeat split; reflexivity.
Qed.

Lemma generateMockReceipt_succeeds (h : JS.Host) (now : Z) (name type : string)
  (random : Random) :
  unitDraws random -> 0 <= now <= 8640000000000000 ->
  exists r, generateMockReceipt h now name type random = Some r.
Proof.
  intros Hdraws Hnow. pose proof (daysAgo_range random Hdraws) as Hk.
  pose proof (generated_date h now name type random) as Hg.
  destruct (generateMockReceipt h now name type random) as [r|]; [now exists r |].
  exfalso. unfold JS.TimeClip in Hg.
  assert ((Z.abs (now - daysAgo random * JS.msPerDay) >? 8640000000000000) = false) as Hin.
  { rewrite Z.gtb_ltb. apply Z.ltb_ge. unfold JS.msPerDay. lia. }
  rewrite Hin in Hg. discriminate.
Qed.

End GeneratedDates.

(** The text that [toISOString().split('T')[0]] writes for a time value of the years
    0000 to 9999 is read back by [new Date], on every host, as midnight UTC of the
    same day: the start of the day that holds the time value. *)
Theorem toISODate_is_read_back_as_its_day :
  forall (h : JS.Host) (t : Z),
    (-62167219200000 <= t < 253402300800000)%Z ->
    exists midnight,
      JS.Date_parse h (JS.toISODate t) = Some midnight
      /\ midnight = (JS.Day t * JS.msPerDay)%Z
      /\ (midnight <= t < midnight + JS.msPerDay)%Z
      /\ JS.toISODate midnight = JS.toISODate t.
Proof.
  intros h t Ht. exists (JS.Day t * JS.msPerDay)%Z.
  split; [now apply Date_parse_toISODate |]. split; [reflexivity |].
  assert (JS.Day t * JS.msPerDay <= t < JS.Day t * JS.msPerDay + JS.msPerDay)%Z as Hday.
  { unfold JS.Day, JS.msPerDay. Z.to_euclidean_division_equations; lia. }
  split; [exact Hday |].
  assert (JS.Day (JS.Day t * JS.msPerDay) = JS.Day t) as Hsame.
  { unfold JS.Day, JS.msPerDay. Z.to_euclidean_division_equations; lia. }
  unfold JS.toISODate, JS.DateFromTime, JS.MonthFromTime, JS.InLeapYear, JS.DayWithinYear,
    JS.YearFromTime.
  now rewrite Hsame.
Qed.

Lemma toISODate_witness :
  JS.Date_parse Sample.newYork (JS.toISODate Sample.now) = Some 1710460800000%Z.
Proof.
  destruct (toISODate_is_read_back_as_its_day Sample.newYork Sample.now)
    as (midnight & Hparse & -> & _).
  - vm_compute. split; [discriminate | reflexivity].
  - exact Hparse.
Defined.

(** A receipt that the generator makes, at a clock from 1970 to the end of the year
    9999 and with draws in [0, 1), is dated with a text that [new Date] reads: the
    start of a UTC day that is not after the clock and less than 365 days before
    it. *)
Theorem generated_date_is_valid_and_recent :
  forall (h : JS.Host) (now : Z) (name type : string) (random : Receipts.Random),
    unitDraws random ->
    (0 <= now < 253402300800000)%Z ->
    exists r t,
      Receipts.generateMockReceipt h now name type random = Some r
      /\ JS.Date_parse h (Receipts.date r) = Some t
      /\ (now - 365 * JS.msPerDay < t <= now)%Z.
Proof.
  intros h now name type random Hdraws Hnow.
  destruct (generateMockReceipt_succeeds h now name type random Hdraws ltac:(lia)) as [r Hr].
  pose proof (generated_date h now name type random) as Hg. rewrite Hr in Hg.
  destruct Hg as (_ & Hdate & _).
  pose proof (daysAgo_range random Hdraws) as Hk.
  exists r, (JS.Day (now - daysAgo random * JS.msPerDay) * JS.msPerDay)%Z.
  split; [exact Hr |]. split.
  - rewrite Hdate. apply Date_parse_toISODate. unfold JS.msPerDay. lia.
  - unfold JS.Day, JS.msPerDay. Z.to_euclidean_division_equations; lia.
Qed.

Lemma generated_date_witness :
  exists r t,
    Receipts.generateMockReceipt Sample.newYork Sample.now "latte.jpg" "image/jpeg"
      (Receipts.mkRandom (5 # 17) (75 # 20000) (14 # 365) "k3x9zq" (77 # 100)) = Some r
    /\ JS.Date_parse Sample.newYork (Receipts.date r) = Some t
    /\ (Sample.now - 365 * JS.msPerDay < t <= Sample.now)%Z.
Proof.
  apply (generated_date_is_valid_and_recent Sample.newYork Sample.now "latte.jpg" "image/jpeg"
           _ sample_draws).
  vm_compute. split; [discriminate | reflexivity].
Defined.

(* ===================================================================== *)
(** * The monthly change and the bars of the trend                        *)
(* ===================================================================== *)

Section CardFacts.
Import Receipts Dashboard.

Lemma Qgtb_true (x y : Q) : JS.Qgtb x y = true <-> y < x.
Proof.
  unfold JS.Qgtb. rewrite negb_true_iff. split.
  - intros H. apply Qnot_le_lt. intros Hle. apply Qle_bool_iff in Hle. congruence.
  - intros H. destruct (Qle_bool x y) eqn:E; [| reflexivity].
    apply Qle_bool_iff in E. lra.
Qed.

Lemma Qgtb_false (x y : Q) : JS.Qgtb x y = false <-> x <= y.
Proof.
  unfold JS.Qgtb. rewrite negb_false_iff. apply Qle_bool_iff.
Qed.

(** The change in percent, where last month's spend is positive. *)
Lemma monthlyChange_value (stats : ReceiptStats) :
  0 < lastMonthSpend stats ->
  monthlyChange stats
  = (currentMonthSpend stats - lastMonthSpend stats) / lastMonthSpend stats * 100.
Proof.
  intros Hpos. unfold monthlyChange. apply Qgtb_true in Hpos. now rewrite Hpos.
Qed.

Lemma monthlyChange_sign (stats : ReceiptStats) :
  0 < lastMonthSpend stats ->
  (0 < monthlyChange stats <-> lastMonthSpend stats < currentMonthSpend stats)
  /\ (monthlyChange stats < 0 <-> currentMonthSpend stats < lastMonthSpend stats)
  /\ (monthlyChange stats == 0 <-> currentMonthSpend stats == lastMonthSpend stats).
Proof.
  intros Hpos. rewrite (monthlyChange_value stats Hpos).
  set (c := currentMonthSpend stats) in *. set (l := lastMonthSpend stats) in *.
  assert ((c - l) / l * 100 == (c - l) * (100 / l)) as -> by (field; lra).
  assert (0 < 100 / l) as Hk by (apply Qlt_shift_div_l; lra).
  set (k := 100 / l) in *.
  repeat split; intros H; nra.
Qed.

(** [toFixed(1)] of zero. *)
Lemma toFixed_zero (h : JS.Host) (x : Q) : x == 0 -> JS.toFixed h x 1 = "0.0".
Proof.
  intros Hx. unfold JS.toFixed. cbv zeta.
  assert (JS.Qgtb 0 x = false) as -> by (apply Qgtb_false; lra).
  assert (Qle_bool (inject_Z (10 ^ 21)) x = false) as ->.
  { destruct (Qle_bool (inject_Z (10 ^ 21)) x) eqn:E; [| reflexivity].
    apply Qle_bool_iff in E. assert (0 < inject_Z (10 ^ 21)) by reflexivity. lra. }
  assert (Qfloor (x * inject_Z (10 ^ Z.of_nat 1) + (1 # 2)) = 0%Z) as ->.
  { assert (x * inject_Z (10 ^ Z.of_nat 1) + (1 # 2) == 1 # 2) as Heq by (rewrite Hx; reflexivity).
    now rewrite (Qfloor_comp _ _ Heq). }
  reflexivity.
Qed.

Lemma Math_abs_zero (x : Q) : x == 0 -> JS.Math_abs x == 0.
Proof.
  intros Hx. unfold JS.Math_abs. destruct (JS.Qgtb 0 x); lra.
Qed.

(** [Math.max] of a list that is not empty is its largest element. *)
Lemma Math_max_from (values : list Q) (start : Q) :
  exists m,
    fold_left JS.larger values (JS.Finite start) = JS.Finite m
    /\ In m (start :: values)
    /\ forall v, In v (start :: values) -> v <= m.
Proof.
  revert start. induction values as [|x rest IH]; intros start; cbn [fold_left JS.larger].
  - exists start. split; [reflexivity |]. split; [now left |].
    intros v [<- | []]. lra.
  - destruct (JS.Qgtb x start) eqn:E.
    + apply Qgtb_true in E. destruct (IH x) as (m & -> & Hin & Hmax).
      exists m. split; [reflexivity |]. split.
      * right. exact Hin.
      * intros v [<- | Hv]; [| now apply Hmax].
        specialize (Hmax x (or_introl eq_refl)). lra.
    + apply Qgtb_false in E. destruct (IH start) as (m & -> & Hin & Hmax).
      exists m. split; [reflexivity |]. split.
      * destruct Hin as [<- | Hin]; [now left | right; now right].
      * intros v [<- | [<- | Hv]].
        -- apply Hmax. now left.
        -- specialize (Hmax start (or_introl eq_refl)). lra.
        -- apply Hmax. now right.
Qed.

Lemma Math_max_spec (values : list Q) :
  values <> [] ->
  exists m, JS.Math_max values = JS.Finite m /\ In m values /\ forall v, In v values -> v <= m.
Proof.
  destruct values as [|x rest]; [congruence | intros _].
  unfold JS.Math_max. cbn [fold_left JS.larger]. apply Math_max_from.
Qed.

End CardFacts.

(** The monthly change is computed only when last month's spend is positive, so
    nothing is divided by zero; otherwise it is 0 and no line is shown.  When it is
    computed, it is positive exactly when this month's spend is the larger one, and
    this decides the icon and the word of the line; equal spends give the line
    0.0% decrease, in the muted colour. *)
Theorem monthlyChange_compares_the_two_months :
  forall (h : JS.Host) (stats : Receipts.ReceiptStats),
    let current := Receipts.currentMonthSpend stats in
    let last := Receipts.lastMonthSpend stats in
    let change := Dashboard.monthlyChange stats in
    (last <= 0 -> change = 0 /\ Dashboard.changeLine h stats = None)
    /\ (0 < last ->
        (0 < change <-> last < current)
        /\ (change == 0 <-> current == last)
        /\ exists line,
             Dashboard.changeLine h stats = Some line
             /\ (Dashboard.Change.icon line = Dashboard.TrendingUp <-> last < current)
             /\ Dashboard.Change.text line
                = (JS.toFixed h (JS.Math_abs change) 1
                   ++ (if Qlt_le_dec last current then "% increase" else "% decrease"))%string
             /\ (current == last ->
                 Dashboard.Change.text line = "0.0% decrease"
                 /\ Dashboard.Change.className line
                    = "flex items-center space-x-1 text-sm text-muted-foreground")).
Proof.
  intros h stats current last change. split.
  - intros Hle. unfold change, Dashboard.monthlyChange, Dashboard.changeLine.
    fold last. apply Qgtb_false in Hle. now rewrite Hle.
  - intros Hpos. destruct (monthlyChange_sign stats Hpos) as (Hup & Hdown & Hsame).
    fold change current last in Hup, Hdown, Hsame.
    split; [exact Hup |]. split; [exact Hsame |].
    unfold Dashboard.changeLine. fold last.
    assert (JS.Qgtb last 0 = true) as -> by now apply Qgtb_true.
    cbv zeta. fold change. eexists. split; [reflexivity |].
    cbn [Dashboard.Change.icon Dashboard.Change.text Dashboard.Change.className].
    destruct (JS.Qgtb change 0) eqn:E.
    + apply Qgtb_true in E. assert (last < current) as Hlt by now apply Hup.
      split; [tauto |]. split.
      * destruct (Qlt_le_dec last current); [reflexivity | lra].
      * intros Heq. lra.
    + apply Qgtb_false in E.
      assert (~ last < current) as Hnot by (intros Hlt; apply Hup in Hlt; lra).
      split; [split; [discriminate | contradiction] |]. split.
      * destruct (Qlt_le_dec last current); [contradiction | reflexivity].
      * intros Heq. apply Hsame in Heq.
        rewrite (toFixed_zero h _ (Math_abs_zero _ Heq)).
        assert (JS.Qgtb 0 change = false) as -> by (apply Qgtb_false; lra).
        split; reflexivity.
Qed.

(** The bar of a month is as wide, in percent, as its amount is a share of the largest
    amount of the trend: at most 100, at least 0 for an amount that is not negative,
    and 100 exactly for a month that reaches the largest amount.  When no month has a
    positive amount every bar is 0 wide and nothing is divided. *)
Theorem barWidth_is_the_share_of_the_largest_month :
  forall (stats : Receipts.ReceiptStats) (month : Receipts.Trend.point),
    In month (Receipts.monthlyTrend stats) ->
    let amounts := map Receipts.Trend.amount (Receipts.monthlyTrend stats) in
    ((forall a, In a amounts -> a <= 0) -> Dashboard.barWidth stats month = JS.Finite 0)
    /\ ((exists a, In a amounts /\ 0 < a) ->
        exists largest width,
          In largest amounts
          /\ (forall a, In a amounts -> a <= largest)
          /\ Dashboard.barWidth stats month = JS.Finite width
          /\ width == Receipts.Trend.amount month / largest * 100
          /\ width <= 100
          /\ (0 <= Receipts.Trend.amount month -> 0 <= width)
          /\ (width == 100 <-> Receipts.Trend.amount month == largest)).
Proof.
  intros stats month Hmonth amounts.
  assert (amounts <> []) as Hne.
  { unfold amounts. destruct (Receipts.monthlyTrend stats); [destruct Hmonth | discriminate]. }
  destruct (Math_max_spec amounts Hne) as (m & Hmax & Hin & Hle).
  assert (In (Receipts.Trend.amount month) amounts) as Hmine by now apply in_map.
  unfold Dashboard.barWidth. fold amounts. rewrite Hmax. cbn [JS.positive].
  split.
  - intros Hnone. assert (JS.Qgtb m 0 = false) as -> by (apply Qgtb_false; auto).
    reflexivity.
  - intros (a & Ha & Hpos).
    assert (0 < m) as Hm by (specialize (Hle a Ha); lra).
    assert (JS.Qgtb m 0 = true) as -> by now apply Qgtb_true.
    exists m, (Receipts.Trend.amount month / m * 100).
    split; [exact Hin |]. split; [exact Hle |]. split.
    { unfold JS.divide, JS.sign.
      destruct (Qcompare_spec m 0) as [Heq | Hlt | Hgt]; [lra | lra | reflexivity]. }
    split; [reflexivity |].
    specialize (Hle _ Hmine). set (x := Receipts.Trend.amount month) in *.
    assert (x / m * 100 == x * (100 / m)) as Hshape by (field; lra).
    assert (0 < 100 / m) as Hk by (apply Qlt_shift_div_l; lra).
    assert (m * (100 / m) == 100) as Hone by (field; lra).
    rewrite Hshape. set (k := 100 / m) in *.
    repeat split; intros; nra.
Qed.

(** The statistics of the sample receipts, on UTC at the sample time. *)
Definition sampleStats : Receipts.ReceiptStats :=
  match Dashboard.stats Sample.utc Sample.now Sample.receipts with
  | Some stats => stats
  | None => Receipts.mkStats 0 0 0 0 EmptyString 0 0 [] []
  end.

Lemma barWidth_witness :
  exists width,
    Dashboard.barWidth sampleStats (Receipts.Trend.mkPoint "Mar 2024" (0 + (575 # 100) + (4000 # 100)))
    = JS.Finite width
    /\ width <= 100.
Proof.
  destruct (barWidth_is_the_share_of_the_largest_month sampleStats
              (Receipts.Trend.mkPoint "Mar 2024" (0 + (575 # 100) + (4000 # 100))))
    as [_ Hbar].
  - vm_compute. do 5 right. left. reflexivity.
  - destruct Hbar as (largest & width & _ & _ & Hwidth & _ & Hle & _).
    + exists (0 + (575 # 100) + (4000 # 100)). split; [| reflexivity].
      vm_compute. do 5 right. left. reflexivity.
    + exists width. split; assumption.
Defined.

(* ===================================================================== *)
(** * The months of the trend                                             *)
(* ===================================================================== *)

Section MonthFacts.
Import Receipts Dashboard.

Ltac floors := Z.to_euclidean_division_equations; lia.

(** The receipt is dated, in local time, in the given month of the given year. *)
Definition inMonth (h : JS.Host) (month year : Z) (r : Receipt) : bool :=
  JS.strictEquals (JS.getMonth h (JS.Date_parse h (date r))) (Some month)
  && JS.strictEquals (JS.getFullYear h (JS.Date_parse h (date r))) (Some year).

Lemma spendIn_inMonth (h : JS.Host) (month year : Z) (receipts : list Receipt) :
  spendIn h (Some month) (Some year) receipts = sumAmounts (filter (inMonth h month year) receipts).
Proof. reflexivity. Qed.

Lemma inMonth_unique (h : JS.Host) (m1 y1 m2 y2 : Z) (r : Receipt) :
  inMonth h m1 y1 r = true -> inMonth h m2 y2 r = true -> m1 = m2 /\ y1 = y2.
Proof.
  unfold inMonth. destruct (JS.Date_parse h (date r)) as [t |]; cbn; [| discriminate].
  rewrite !andb_true_iff, !Z.eqb_eq. lia.
Qed.

Section Exclusive.
Context {K : Type} (p : K -> Receipt -> bool).

(** How many of the conditions a receipt meets. *)
Definition met (r : Receipt) (keys : list K) : nat :=
  List.length (filter (fun k => p k r) keys).

Lemma met_at_most_once (keys : list K) (r : Receipt) :
  NoDup keys ->
  (forall i j, In i keys -> In j keys -> p i r = true -> p j r = true -> i = j) ->
  (met r keys <= 1)%nat.
Proof.
  unfold met. induction keys as [|k rest IH]; intros Hnd Hone; cbn [filter length]; [lia |].
  inversion Hnd as [|? ? Hnotin Hnd']; subst.
  destruct (p k r) eqn:Ek.
  - assert (filter (fun k => p k r) rest = []) as ->; [| cbn; lia].
    apply filter_none. intros j Hj. destruct (p j r) eqn:Ej; [| reflexivity].
    exfalso. apply Hnotin.
    rewrite (Hone k j (or_introl eq_refl) (or_intror Hj) Ek Ej). exact Hj.
  - apply IH; [exact Hnd' |]. intros i j Hi Hj. apply Hone; now right.
Qed.

Lemma selections_cons (keys : list K) (r : Receipt) (receipts : list Receipt) :
  List.length (concat (map (fun k => filter (p k) (r :: receipts)) keys))
  = (met r keys + List.length (concat (map (fun k => filter (p k) receipts) keys)))%nat.
Proof.
  unfold met. induction keys as [|k rest IH]; cbn [map concat]; [reflexivity |].
  rewrite !length_app, IH. cbn [filter]. destruct (p k r); cbn [length]; lia.
Qed.

(** Selections by conditions of which a receipt meets at most one hold, together, no
    more receipts than the record set. *)
Lemma exclusive_selections (keys : list K) (receipts : list Receipt) :
  NoDup keys ->
  (forall i j r, In i keys -> In j keys -> p i r = true -> p j r = true -> i = j) ->
  (List.length (concat (map (fun k => filter (p k) receipts) keys))
   <= List.length receipts)%nat.
Proof.
  intros Hnd Hone. induction receipts as [|r rest IH].
  - cbn [filter]. clear. induction keys as [|k keys IH]; cbn; [lia | exact IH].
  - rewrite selections_cons. cbn [length].
    pose proof (met_at_most_once keys r Hnd (fun i j => Hone i j r)). lia.
Qed.

End Exclusive.

Variables (h : JS.Host) (now : Z).
Hypothesis clock : plausibleClock h now.

(** The fields of the month before the current one. *)
Lemma trend_last_month :
  trendMonth h now 1 = lastMonth h now /\ trendYear h now 1 = lastMonthYear h now.
Proof.
  pose proof (currentMonth_range h now) as Hm.
  unfold trendMonth, trendYear, lastMonth, lastMonthYear.
  destruct (Z.eqb_spec (currentMonth h now) 0) as [-> | Hne]; [split; reflexivity |].
  split; floors.
Qed.

Lemma trend_this_month :
  trendMonth h now 0 = currentMonth h now /\ trendYear h now 0 = currentYear h now.
Proof.
  pose proof (currentMonth_range h now) as Hm.
  unfold trendMonth, trendYear. split; floors.
Qed.

(** The amounts of the six entries, the oldest first. *)
Lemma trend_amounts (receipts : list Receipt) :
  map Trend.amount (trendFrom h now receipts 5)
  = map (fun i => sumAmounts
                    (filter (inMonth h (trendMonth h now (Z.of_nat i))
                                       (trendYear h now (Z.of_nat i))) receipts))
        [5; 4; 3; 2; 1; 0]%nat.
Proof.
  cbn [trendFrom map].
  rewrite !(trendPoint_spec h now clock) by lia. reflexivity.
Qed.

Lemma trend_months_differ (i j : nat) (r : Receipt) :
  (i <= 5)%nat -> (j <= 5)%nat ->
  inMonth h (trendMonth h now (Z.of_nat i)) (trendYear h now (Z.of_nat i)) r = true ->
  inMonth h (trendMonth h now (Z.of_nat j)) (trendYear h now (Z.of_nat j)) r = true ->
  i = j.
Proof.
  intros Hi Hj H1 H2. destruct (inMonth_unique _ _ _ _ _ _ H1 H2) as [Hm Hy].
  unfold trendMonth, trendYear in Hm, Hy.
  pose proof (currentMonth_range h now). floors.
Qed.

End MonthFacts.

(** For a record set that is not empty, evaluated at one time, the fifth entry of the
    trend is the month before the current one: its amount is the last-month spend,
    and its label names that month, December of the year before when the current
    month is January. *)
Theorem monthlyTrend_fifth_is_lastMonthSpend :
  forall (h : JS.Host) (now : Z) (receipts : list Receipts.Receipt),
    receipts <> [] ->
    plausibleClock h now ->
    exists s p,
      Dashboard.stats h now receipts = Some s
      /\ nth_error (Receipts.monthlyTrend s) 4 = Some p
      /\ Receipts.Trend.amount p = Receipts.lastMonthSpend s
      /\ Receipts.Trend.month p
         = (JS.monthShort (Dashboard.lastMonth h now) ++ " "
            ++ JS.decimal (Dashboard.lastMonthYear h now))%string.
Proof.
  intros h now receipts Hne Hclock.
  destruct (stats_nonempty h now receipts Hne) as (m & _ & Hs).
  destruct (trend_last_month h now) as [Hmonth Hyear].
  eexists. exists (Dashboard.trendPoint h now receipts 1).
  split; [exact Hs |]. cbn [Receipts.monthlyTrend Receipts.lastMonthSpend].
  split; [reflexivity |].
  rewrite (trendPoint_spec h now Hclock) by lia.
  cbn [Receipts.Trend.amount Receipts.Trend.month].
  change (Z.of_nat 1) with 1%Z. rewrite Hmonth, Hyear. split; reflexivity.
Qed.

Lemma monthlyTrend_fifth_witness :
  exists s p,
    Dashboard.stats Sample.newYork Sample.now Sample.receipts = Some s
    /\ nth_error (Receipts.monthlyTrend s) 4 = Some p
    /\ Receipts.Trend.amount p = Receipts.lastMonthSpend s
    /\ Receipts.Trend.month p = "Feb 2024".
Proof.
  destruct (monthlyTrend_fifth_is_lastMonthSpend Sample.newYork Sample.now Sample.receipts
              ltac:(discriminate) sample_clock) as (s & p & Hs & Hp & Hamount & Hlabel).
  exists s, p. split; [exact Hs |]. split; [exact Hp |]. split; [exact Hamount |].
  exact Hlabel.
Defined.

(** No receipt is counted in two months.  The six amounts of the trend are the sums
    of the amounts of six selections of the record set, the receipts dated in each of
    the six months, the current-month and the last-month spend being the sums of the
    last two; no receipt is in two of the selections, and the six together hold no more
    receipts than the record set. *)
Theorem monthlyTrend_counts_no_receipt_twice :
  forall (h : JS.Host) (now : Z) (receipts : list Receipts.Receipt),
    receipts <> [] ->
    plausibleClock h now ->
    exists s,
      Dashboard.stats h now receipts = Some s
      /\ let dated (i : nat) :=
           filter (inMonth h (trendMonth h now (Z.of_nat i)) (trendYear h now (Z.of_nat i)))
                  receipts in
         map Receipts.Trend.amount (Receipts.monthlyTrend s)
         = map (fun i => Dashboard.sumAmounts (dated i)) [5; 4; 3; 2; 1; 0]%nat
         /\ Receipts.currentMonthSpend s = Dashboard.sumAmounts (dated 0%nat)
         /\ Receipts.lastMonthSpend s = Dashboard.sumAmounts (dated 1%nat)
         /\ (forall i j r, (i <= 5)%nat -> (j <= 5)%nat ->
                           In r (dated i) -> In r (dated j) -> i = j)
         /\ (length (concat (map dated [5; 4; 3; 2; 1; 0]%nat)) <= length receipts)%nat.
Proof.
  intros h now receipts Hne Hclock.
  destruct (stats_nonempty h now receipts Hne) as (m & _ & Hs).
  eexists. split; [exact Hs |].
  cbn [Receipts.monthlyTrend Receipts.currentMonthSpend Receipts.lastMonthSpend]. cbv zeta.
  destruct (trend_last_month h now) as [Hm1 Hy1].
  destruct (trend_this_month h now) as [Hm0 Hy0].
  split; [apply (trend_amounts h now Hclock) |].
  split.
  { rewrite spendIn_inMonth. change (Z.of_nat 0) with 0%Z. now rewrite Hm0, Hy0. }
  split.
  { rewrite spendIn_inMonth. change (Z.of_nat 1) with 1%Z. now rewrite Hm1, Hy1. }
  split.
  - intros i j r Hi Hj Hri Hrj. apply filter_In in Hri, Hrj.
    apply (trend_months_differ h now i j r Hi Hj); tauto.
  - apply (exclusive_selections
             (fun i => inMonth h (trendMonth h now (Z.of_nat i)) (trendYear h now (Z.of_nat i)))).
    + repeat constructor; cbn; lia.
    + intros i j r Hi Hj. apply (trend_months_differ h now); cbn in Hi, Hj; lia.
Qed.

Lemma monthlyTrend_counts_witness :
  exists s,
    Dashboard.stats Sample.newYork Sample.now Sample.receipts = Some s
    /\ map Receipts.Trend.amount (Receipts.monthlyTrend s)
       = map Dashboard.sumAmounts
             [[]; []; [Sample.burger]; []; [Sample.coffee; Sample.groceries]; [Sample.fuel]]
    /\ Receipts.lastMonthSpend s = Dashboard.sumAmounts [Sample.coffee; Sample.groceries].
Proof.
  destruct (monthlyTrend_counts_no_receipt_twice Sample.newYork Sample.now Sample.receipts
              ltac:(discriminate) sample_clock)
    as (s & Hs & Htrend & _ & Hlast & _).
  exists s. split; [exact Hs |]. split; [rewrite Htrend | rewrite Hlast]; reflexivity.
Defined.

(** A receipt whose date the host cannot read counts in the number of receipts but in
    no month: wherever it stands in the record set, the current-month spend, the
    last-month spend and the trend are what they are without it.  Added last, it adds
    its amount to the total amount. *)
Theorem undated_receipt_counts_in_no_month :
  forall (h : JS.Host) (now : Z) (before after : list Receipts.Receipt) (r : Receipts.Receipt),
    JS.Date_parse h (Receipts.date r) = None ->
    before ++ after <> [] ->
    exists s s',
      Dashboard.stats h now (before ++ after) = Some s
      /\ Dashboard.stats h now (before ++ r :: after) = Some s'
      /\ Receipts.totalReceipts s' = S (Receipts.totalReceipts s)
      /\ (after = [] -> Receipts.totalAmount s' = Receipts.totalAmount s + Receipts.amount r)
      /\ Receipts.currentMonthSpend s' = Receipts.currentMonthSpend s
      /\ Receipts.lastMonthSpend s' = Receipts.lastMonthSpend s
      /\ Receipts.monthlyTrend s' = Receipts.monthlyTrend s.
Proof.
  intros h now before after r Hdate Hne.
  assert (before ++ r :: after <> []) as Hne' by (destruct before; discriminate).
  destruct (stats_nonempty h now _ Hne) as (m & _ & Hs).
  destruct (stats_nonempty h now _ Hne') as (m' & _ & Hs').
  do 2 eexists. split; [exact Hs |]. split; [exact Hs' |].
  cbn [Receipts.totalReceipts Receipts.totalAmount Receipts.currentMonthSpend
       Receipts.lastMonthSpend Receipts.monthlyTrend].
  assert (forall month year,
            Dashboard.spendIn h month year (before ++ r :: after)
            = Dashboard.spendIn h month year (before ++ after)) as Hspend.
  { intros month year. unfold Dashboard.spendIn. rewrite !filter_app. cbn [filter].
    rewrite Hdate. reflexivity. }
  split; [rewrite !length_app; cbn [length]; lia |].
  split.
  { intros ->. rewrite app_nil_r. unfold Dashboard.sumAmounts. now rewrite fold_left_app. }
  split; [apply Hspend |]. split; [apply Hspend |].
  cbn [Dashboard.trendFrom]. unfold Dashboard.trendPoint. now rewrite !Hspend.
Qed.

(** A receipt with no date, on a host that reads no text as a date but those of the
    Date Time String Format. *)
Definition undated : Receipts.Receipt :=
  Receipts.mkReceipt "m5n6b7" "Target" "unknown" (2000 # 100) "shopping" "target.png"
                     "image/png" (75 # 100).

Lemma undated_receipt_witness :
  exists s s',
    Dashboard.stats Sample.utc Sample.now Sample.receipts = Some s
    /\ Dashboard.stats Sample.utc Sample.now (Sample.receipts ++ [undated]) = Some s'
    /\ Receipts.totalReceipts s' = 5%nat
    /\ Receipts.totalAmount s' = Receipts.totalAmount s + (2000 # 100)
    /\ Receipts.monthlyTrend s' = Receipts.monthlyTrend s.
Proof.
  destruct (undated_receipt_counts_in_no_month Sample.utc Sample.now Sample.receipts []
              undated eq_refl ltac:(discriminate))
    as (s & s' & Hs & Hs' & Hcount & Htotal & _ & _ & Htrend).
  rewrite app_nil_r in Hs.
  exists s, s'. split; [exact Hs |]. split; [exact Hs' |].
  split; [| split; [now apply Htotal | exact Htrend]].
  rewrite Hcount. vm_compute in Hs. injection Hs as <-. reflexivity.
Defined.

(* ===================================================================== *)
(** * The filters of the table, one by one                                *)
(* ===================================================================== *)

Section FilterFacts.
Import Receipts ReceiptTable.

Lemma shown_In (h : JS.Host) (now : Z) (st : State) (receipts : list Receipt) (r : Receipt) :
  In r (filteredAndSortedReceipts h now st receipts)
  <-> In r receipts /\ keeps h now st r = true.
Proof.
  unfold filteredAndSortedReceipts. rewrite Array_sort_In. apply filter_In.
Qed.

Lemma shown_nothing (h : JS.Host) (now : Z) (st : State) (receipts : list Receipt) :
  (forall r, matchesAmount st r = false) ->
  filteredAndSortedReceipts h now st receipts = [].
Proof.
  intros Hnone. unfold filteredAndSortedReceipts.
  rewrite filter_none; [reflexivity |].
  intros r _. unfold keeps. rewrite Hnone. apply andb_false_r.
Qed.

(** ** The date window *)

Lemma window_start (now days : Z) :
  (0 <= now <= 8640000000000000)%Z -> (0 <= days <= 90)%Z ->
  JS.TimeClip (now - days * 24 * 60 * 60 * 1000) = Some (now - days * 24 * 60 * 60 * 1000)%Z.
Proof.
  intros Hnow Hdays. unfold JS.TimeClip.
  assert ((Z.abs (now - days * 24 * 60 * 60 * 1000) >? 8640000000000000)%Z = false) as ->;
    [| reflexivity].
  rewrite Z.gtb_ltb. apply Z.ltb_ge. lia.
Qed.

Lemma matchesDate_last30 (h : JS.Host) (now : Z) (st : State) (r : Receipt) :
  (0 <= now <= 8640000000000000)%Z ->
  matchesDate h now (setDateFilter st "last30") r = true
  <-> exists t, JS.Date_parse h (date r) = Some t /\ (now - 2592000000 <= t)%Z.
Proof.
  intros Hnow. unfold matchesDate. cbn [dateFilter setDateFilter String.eqb Ascii.eqb Bool.eqb].
  rewrite (window_start now 30 Hnow ltac:(lia)).
  destruct (JS.Date_parse h (date r)) as [t |]; cbn [dateGeb].
  - rewrite Z.leb_le. split.
    + intros Hle. exists t. split; [reflexivity | lia].
    + intros (t' & [= <-] & Hle). lia.
  - split; [discriminate | intros (t & Habs & _); discriminate].
Qed.

Lemma matchesDate_last90 (h : JS.Host) (now : Z) (st : State) (r : Receipt) :
  (0 <= now <= 8640000000000000)%Z ->
  matchesDate h now (setDateFilter st "last90") r = true
  <-> exists t, JS.Date_parse h (date r) = Some t /\ (now - 7776000000 <= t)%Z.
Proof.
  intros Hnow. unfold matchesDate. cbn [dateFilter setDateFilter String.eqb Ascii.eqb Bool.eqb].
  rewrite (window_start now 90 Hnow ltac:(lia)).
  destruct (JS.Date_parse h (date r)) as [t |]; cbn [dateGeb].
  - rewrite Z.leb_le. split.
    + intros Hle. exists t. split; [reflexivity | lia].
    + intros (t' & [= <-] & Hle). lia.
  - split; [discriminate | intros (t & Habs & _); discriminate].
Qed.

Lemma matchesDate_thisYear (h : JS.Host) (now : Z) (st : State) (r : Receipt) :
  matchesDate h now (setDateFilter st "thisYear") r = true
  <-> exists t, JS.Date_parse h (date r) = Some t
                /\ JS.YearFromTime (JS.LocalTime h t) = JS.YearFromTime (JS.LocalTime h now).
Proof.
  unfold matchesDate. cbn [dateFilter setDateFilter String.eqb Ascii.eqb Bool.eqb].
  destruct (JS.Date_parse h (date r)) as [t |]; cbn [JS.getFullYear option_map JS.strictEquals].
  - rewrite Z.eqb_eq. split.
    + intros Heq. now exists t.
    + intros (t' & [= <-] & Heq). exact Heq.
  - split; [discriminate | intros (t & Habs & _); discriminate].
Qed.

(** The other three predicates do not read the date filter. *)
Lemma keeps_setDateFilter (h : JS.Host) (now : Z) (st : State) (value : string) (r : Receipt) :
  keeps h now (setDateFilter st value) r
  = matchesSearch st r && matchesCategory st r
    && matchesDate h now (setDateFilter st value) r && matchesAmount st r.
Proof. reflexivity. Qed.

End FilterFacts.

(** The date windows, all other controls being equal: a record shown for the last 30
    days is shown for the last 90 days, and a record shown for a window is shown for
    all time.  The window of the last 30 days shows the records dated from the
    instant 30 times 24 hours before now on.  A record whose date the host cannot
    read is shown for no window, only for all time. *)
Theorem date_windows_nest_and_hide_unreadable_dates :
  forall (h : JS.Host) (now : Z) (st : ReceiptTable.State)
         (receipts : list Receipts.Receipt) (r : Receipts.Receipt),
    (0 <= now <= 8640000000000000)%Z ->
    let shown value :=
      ReceiptTable.filteredAndSortedReceipts h now (ReceiptTable.setDateFilter st value)
                                             receipts in
    (In r (shown "last30") -> In r (shown "last90"))
    /\ (In r (shown "last90") -> In r (shown "all"))
    /\ (In r (shown "thisYear") -> In r (shown "all"))
    /\ (In r (shown "last30") <->
        In r (shown "all")
        /\ exists t, JS.Date_parse h (Receipts.date r) = Some t /\ (now - 2592000000 <= t)%Z)
    /\ (JS.Date_parse h (Receipts.date r) = None ->
        ~ In r (shown "last30") /\ ~ In r (shown "last90") /\ ~ In r (shown "thisYear")).
Proof.
  intros h now st receipts r Hnow shown. unfold shown.
  rewrite !shown_In, !keeps_setDateFilter, !andb_true_iff.
  pose proof (matchesDate_last30 h now st r Hnow) as H30.
  pose proof (matchesDate_last90 h now st r Hnow) as H90.
  pose proof (matchesDate_thisYear h now st r) as Hyear.
  assert (ReceiptTable.matchesDate h now (ReceiptTable.setDateFilter st "all") r = true)
    as Hall by reflexivity.
  split; [| split; [| split; [| split]]].
  - intros (Hin & ((Hs & Hc) & Hd) & Ha). split; [exact Hin |].
    repeat split; try assumption. apply H90. apply H30 in Hd.
    destruct Hd as (t & Ht & Hle). exists t. split; [exact Ht | lia].
  - intros (Hin & ((Hs & Hc) & Hd) & Ha). tauto.
  - intros (Hin & ((Hs & Hc) & Hd) & Ha). tauto.
  - rewrite H30. tauto.
  - intros Hnone. rewrite H30, H90, Hyear, Hnone.
    repeat split; intros (_ & ((_ & _) & (t & Habs & _)) & _); discriminate.
Qed.

Lemma date_windows_witness :
  let shown value :=
    ReceiptTable.filteredAndSortedReceipts Sample.utc Sample.now
      (ReceiptTable.setDateFilter ReceiptTable.initialState value) Sample.receipts in
  In Sample.coffee (shown "last30") /\ In Sample.coffee (shown "last90").
Proof.
  intros shown.
  destruct (date_windows_nest_and_hide_unreadable_dates Sample.utc Sample.now
              ReceiptTable.initialState Sample.receipts Sample.coffee)
    as (Hnest & _).
  - unfold Sample.now. lia.
  - assert (In Sample.coffee (shown "last30")) as H30 by (vm_compute; tauto).
    split; [exact H30 | exact (Hnest H30)].
Defined.

(** A bound of the amount range that is typed but is not the text of a number hides
    every record, since no amount compares with [NaN]; so does a lower bound above
    the upper bound, the bounds being the numbers that [parseFloat] reads.  An amount
    equal to a bound is within the range. *)
Theorem amount_bounds_that_hide_every_record :
  forall (h : JS.Host) (now : Z) (st : ReceiptTable.State)
         (receipts : list Receipts.Receipt),
    let shown := ReceiptTable.filteredAndSortedReceipts h now st receipts in
    (ReceiptTable.amountMin st <> EmptyString ->
     JS.parseFloat (ReceiptTable.amountMin st) = JS.NaN -> shown = [])
    /\ (ReceiptTable.amountMax st <> EmptyString ->
        JS.parseFloat (ReceiptTable.amountMax st) = JS.NaN -> shown = [])
    /\ (forall lo hi,
          ReceiptTable.amountMin st <> EmptyString ->
          ReceiptTable.amountMax st <> EmptyString ->
          JS.parseFloat (ReceiptTable.amountMin st) = JS.Finite lo ->
          JS.parseFloat (ReceiptTable.amountMax st) = JS.Finite hi ->
          hi < lo -> shown = [])
    /\ (forall lo hi r,
          JS.parseFloat (ReceiptTable.amountMin st) = JS.Finite lo ->
          JS.parseFloat (ReceiptTable.amountMax st) = JS.Finite hi ->
          Receipts.amount r == lo \/ Receipts.amount r == hi -> lo <= hi ->
          ReceiptTable.matchesAmount st r = true).
Proof.
  intros h now st receipts shown. unfold shown.
  split; [| split; [| split]].
  - intros Hne Hnan. apply shown_nothing. intros r. unfold ReceiptTable.matchesAmount.
    apply String.eqb_neq in Hne. rewrite Hne, Hnan. reflexivity.
  - intros Hne Hnan. apply shown_nothing. intros r. unfold ReceiptTable.matchesAmount.
    apply String.eqb_neq in Hne. rewrite Hne, Hnan. apply andb_false_r.
  - intros lo hi Hmin Hmax Hlo Hhi Hlt. apply shown_nothing. intros r.
    unfold ReceiptTable.matchesAmount.
    apply String.eqb_neq in Hmin, Hmax. rewrite Hmin, Hmax, Hlo, Hhi. cbn [orb JS.geb JS.leb].
    destruct (Qle_bool lo (Receipts.amount r)) eqn:E1; [| reflexivity].
    destruct (Qle_bool (Receipts.amount r) hi) eqn:E2; [| reflexivity].
    apply Qle_bool_iff in E1, E2. lra.
  - intros lo hi r Hlo Hhi Heq Hle. unfold ReceiptTable.matchesAmount.
    rewrite Hlo, Hhi. cbn [JS.geb JS.leb].
    assert (Qle_bool lo (Receipts.amount r) = true) as -> by (apply Qle_bool_iff; lra).
    assert (Qle_bool (Receipts.amount r) hi = true) as -> by (apply Qle_bool_iff; lra).
    now rewrite !orb_true_r.
Qed.

(** Bounds written with more digits than a number holds: both read as the number
    nearest to 84.12. *)
Definition longBounds : ReceiptTable.State :=
  ReceiptTable.setAmountMax
    (ReceiptTable.setAmountMin ReceiptTable.initialState "84.12000000000000001") "84.12".

Lemma amount_bounds_witness :
  ReceiptTable.filteredAndSortedReceipts Sample.utc Sample.now
    (ReceiptTable.setAmountMin ReceiptTable.initialState "abc") Sample.receipts = []
  /\ ReceiptTable.filteredAndSortedReceipts Sample.utc Sample.now
       (ReceiptTable.setAmountMax (ReceiptTable.setAmountMin ReceiptTable.initialState "50") "10")
       Sample.receipts = []
  /\ (forall r lo,
         JS.parseFloat "84.12" = JS.Finite lo -> Receipts.amount r == lo ->
         ReceiptTable.matchesAmount longBounds r = true).
Proof.
  split; [| split].
  - destruct (amount_bounds_that_hide_every_record Sample.utc Sample.now
                (ReceiptTable.setAmountMin ReceiptTable.initialState "abc") Sample.receipts)
      as (Hnan & _).
    apply Hnan; [discriminate | reflexivity].
  - destruct (amount_bounds_that_hide_every_record Sample.utc Sample.now
                (ReceiptTable.setAmountMax
                   (ReceiptTable.setAmountMin ReceiptTable.initialState "50") "10")
                Sample.receipts)
      as (_ & _ & Hinverted & _).
    apply (Hinverted 50 10); try discriminate; reflexivity.
  - intros r lo Hlo Heq.
    destruct (amount_bounds_that_hide_every_record Sample.utc Sample.now longBounds
                Sample.receipts) as (_ & _ & _ & Hwithin).
    apply (Hwithin lo lo r).
    + rewrite <- Hlo. vm_compute. reflexivity.
    + exact Hlo.
    + now left.
    + apply Qle_refl.
Defined.

Section SearchFacts.
Import Receipts ReceiptTable.

Lemma toLowerCase_append (a b : string) :
  JS.toLowerCase (a ++ b) = (JS.toLowerCase a ++ JS.toLowerCase b)%string.
Proof. induction a as [|c a IH]; cbn [append JS.toLowerCase]; [reflexivity | now rewrite IH]. Qed.

Lemma toLowerCase_empty (s : string) : JS.toLowerCase s = EmptyString <-> s = EmptyString.
Proof. destruct s; cbn [JS.toLowerCase]; split; intros; congruence. Qed.

Lemma prefix_append (q a b : string) :
  String.prefix q a = true -> String.prefix q (a ++ b) = true.
Proof.
  revert a. induction q as [|c q IH]; intros a.
  - intros _. destruct (a ++ b)%string; reflexivity.
  - destruct a as [|d a]; cbn [String.prefix append]; [discriminate |].
    destruct (Ascii.ascii_dec c d); [apply IH | discriminate].
Qed.

Lemma includes_append_l (a b q : string) :
  JS.String_includes a q = true -> JS.String_includes (a ++ b) q = true.
Proof.
  induction a as [|c a IH]; cbn [JS.String_includes append].
  - rewrite orb_false_r. intros Hq. destruct q; [| discriminate].
    destruct b; reflexivity.
  - rewrite !orb_true_iff. intros [Hp | Hin].
    + left. now apply (prefix_append q (String c a) b).
    + right. now apply IH.
Qed.

Lemma includes_append_r (a b q : string) :
  JS.String_includes b q = true -> JS.String_includes (a ++ b) q = true.
Proof.
  intros Hb. induction a as [|c a IH]; cbn [append]; [exact Hb |].
  cbn [JS.String_includes]. rewrite IH. apply orb_true_r.
Qed.

Lemma includes_first (s : string) : JS.String_includes (" " ++ s) (JS.toLowerCase " ") = true.
Proof.
  change (JS.toLowerCase " ") with " ". cbn [append JS.String_includes String.prefix].
  destruct (Ascii.ascii_dec " " " ") as [_ | Hne]; [| congruence].
  destruct s; reflexivity.
Qed.

(** The search reads the term only through its lower-case form. *)
Lemma matchesSearch_term (st : State) (q1 q2 : string) (r : Receipt) :
  JS.toLowerCase q1 = JS.toLowerCase q2 ->
  matchesSearch (setSearchTerm st q1) r = matchesSearch (setSearchTerm st q2) r.
Proof.
  intros Heq. unfold matchesSearch. cbn [searchTerm setSearchTerm]. rewrite Heq.
  f_equal. destruct (String.eqb_spec q1 EmptyString) as [-> | H1].
  - symmetry in Heq. cbn [JS.toLowerCase] in Heq.
    apply (proj1 (toLowerCase_empty q2)) in Heq. subst. reflexivity.
  - destruct (String.eqb_spec q2 EmptyString) as [-> | H2]; [| reflexivity].
    cbn [JS.toLowerCase] in Heq. apply (proj1 (toLowerCase_empty q1)) in Heq. contradiction.
Qed.

Lemma searchFields_value (r : Receipt) :
  JS.toLowerCase (JS.Array_join [vendor r; category r] " ")
  = (JS.toLowerCase (vendor r) ++ " " ++ JS.toLowerCase (category r))%string.
Proof.
  unfold JS.Array_join. cbn [String.concat]. now rewrite !toLowerCase_append.
Qed.

End SearchFacts.

(** The search ignores the case of the letters, in the term and in the records: two terms with the same lower-case form show the same rows.  A term that
    occurs in the vendor or in the category of a record, case apart, matches the
    record, and so does the term made of one space, which matches every record.  The
    search reads nothing but the vendor and the category. *)
Theorem search_ignores_case_and_reads_vendor_and_category :
  forall (h : JS.Host) (now : Z) (st : ReceiptTable.State)
         (receipts : list Receipts.Receipt) (term : string),
    (forall other,
        JS.toLowerCase other = JS.toLowerCase term ->
        ReceiptTable.filteredAndSortedReceipts h now (ReceiptTable.setSearchTerm st other)
                                               receipts
        = ReceiptTable.filteredAndSortedReceipts h now (ReceiptTable.setSearchTerm st term)
                                                 receipts)
    /\ (forall r,
          JS.String_includes (JS.toLowerCase (Receipts.vendor r)) (JS.toLowerCase term) = true
          \/ JS.String_includes (JS.toLowerCase (Receipts.category r)) (JS.toLowerCase term)
             = true ->
          ReceiptTable.matchesSearch (ReceiptTable.setSearchTerm st term) r = true)
    /\ (forall r, ReceiptTable.matchesSearch (ReceiptTable.setSearchTerm st " ") r = true)
    /\ (forall r r',
          JS.toLowerCase (Receipts.vendor r) = JS.toLowerCase (Receipts.vendor r') ->
          JS.toLowerCase (Receipts.category r) = JS.toLowerCase (Receipts.category r') ->
          ReceiptTable.matchesSearch (ReceiptTable.setSearchTerm st term) r
          = ReceiptTable.matchesSearch (ReceiptTable.setSearchTerm st term) r').
Proof.
  intros h now st receipts term. split; [| split; [| split]].
  - intros other Heq. unfold ReceiptTable.filteredAndSortedReceipts. f_equal.
    apply filter_ext. intros r. unfold ReceiptTable.keeps.
    now rewrite (matchesSearch_term st other term r Heq).
  - intros r Hfound. unfold ReceiptTable.matchesSearch.
    cbn [ReceiptTable.searchTerm ReceiptTable.setSearchTerm].
    rewrite searchFields_value. apply orb_true_iff. right.
    destruct Hfound as [Hvendor | Hcategory].
    + now apply includes_append_l.
    + apply includes_append_r. change (" " ++ ?s)%string with (String " " s).
      cbn [JS.String_includes]. rewrite Hcategory. apply orb_true_r.
  - intros r. unfold ReceiptTable.matchesSearch.
    cbn [ReceiptTable.searchTerm ReceiptTable.setSearchTerm].
    rewrite searchFields_value. apply orb_true_iff. right.
    apply includes_append_r. apply includes_first.
  - intros r r' Hvendor Hcategory. unfold ReceiptTable.matchesSearch.
    now rewrite !searchFields_value, Hvendor, Hcategory.
Qed.

Lemma search_witness :
  ReceiptTable.filteredAndSortedReceipts Sample.utc Sample.now
    (ReceiptTable.setSearchTerm ReceiptTable.initialState "STAR") Sample.receipts
  = [Sample.coffee].
Proof.
  destruct (search_ignores_case_and_reads_vendor_and_category Sample.utc Sample.now
              ReceiptTable.initialState Sample.receipts "star") as (Hcase & _).
  rewrite (Hcase "STAR" eq_refl). vm_compute. reflexivity.
Defined.

Section DirectionFacts.
Import Receipts ReceiptTable.

Lemma StronglySorted_snoc {A : Type} (R : A -> A -> Prop) (l : list A) (x : A) :
  StronglySorted R l -> (forall y, In y l -> R y x) -> StronglySorted R (l ++ [x]).
Proof.
  induction 1 as [|a rest Hrest IH Ha]; intros Hx; cbn [app].
  - repeat constructor.
  - constructor.
    + apply IH. intros y Hy. apply Hx. now right.
    + apply Forall_app. split; [exact Ha |]. constructor; [| constructor].
      apply Hx. now left.
Qed.

Lemma StronglySorted_rev {A : Type} (R : A -> A -> Prop) (l : list A) :
  StronglySorted R l -> StronglySorted (fun a b => R b a) (rev l).
Proof.
  induction 1 as [|a rest Hrest IH Ha]; cbn [rev]; [constructor |].
  apply StronglySorted_snoc; [exact IH |].
  intros y Hy. apply in_rev in Hy. rewrite Forall_forall in Ha. now apply Ha.
Qed.

(** The state after a click on the header of the column the table is sorted by. *)
Definition toggled (st : State) : State := handleSort st (sortField st).

Lemma toggled_fields (st : State) :
  sortField (toggled st) = sortField st
  /\ forall h now r, keeps h now (toggled st) r = keeps h now st r.
Proof. destruct st as [search cat dat key dir lo hi]. destruct key; split; reflexivity. Qed.

Lemma toggled_precedes (h : JS.Host) (st : State) (a b : Receipt) :
  (sortField st = SortField.vendor \/ sortField st = SortField.category ->
   JS.ConsistentComparator (JS.localeCompare h)) ->
  precedes h (toggled st) a b <-> precedes h st b a.
Proof.
  intros Hcoll. destruct st as [search cat dat key dir lo hi].
  cbn [sortField] in Hcoll.
  destruct key, dir; cbn [toggled handleSort sortField sortDirection precedes];
    try reflexivity.
  - split; intros (x & y & Hx & Hy & Hle); exists y, x; auto.
  - split; intros (x & y & Hx & Hy & Hle); exists y, x; auto.
  - apply (cc_ge_le _ (Hcoll (or_introl eq_refl))).
  - symmetry. apply (cc_ge_le _ (Hcoll (or_introl eq_refl))).
  - apply (cc_ge_le _ (Hcoll (or_intror eq_refl))).
  - symmetry. apply (cc_ge_le _ (Hcoll (or_intror eq_refl))).
Qed.

End DirectionFacts.

(** A click on the header of the column the table is sorted by reverses the rows,
    when no two records of the set tie on that column.  (With ties the tied records
    keep their order, the sort being stable.) *)
Theorem clicking_the_sorted_column_reverses_the_rows :
  forall (h : JS.Host) (now : Z) (st : ReceiptTable.State)
         (receipts : list Receipts.Receipt),
    (ReceiptTable.sortField st = ReceiptTable.SortField.date ->
     Forall (validDate h) receipts) ->
    (ReceiptTable.sortField st = ReceiptTable.SortField.vendor
     \/ ReceiptTable.sortField st = ReceiptTable.SortField.category ->
     JS.ConsistentComparator (JS.localeCompare h)) ->
    (forall a b, In a receipts -> In b receipts ->
                 precedes h st a b -> precedes h st b a -> a = b) ->
    ReceiptTable.filteredAndSortedReceipts h now
      (ReceiptTable.handleSort st (ReceiptTable.sortField st)) receipts
    = rev (ReceiptTable.filteredAndSortedReceipts h now st receipts).
Proof.
  intros h now st receipts Hdates Hcoll Hties.
  fold (toggled st). destruct (toggled_fields st) as [Hfield Hkeeps].
  assert (forall s, ReceiptTable.sortField s = ReceiptTable.sortField st ->
                    Forall (comparable h s) receipts) as Hcomparable.
  { intros s Hs. unfold comparable. rewrite Hs.
    destruct (ReceiptTable.sortField st) eqn:Ef;
      [now apply Hdates | | |]; apply Forall_forall; auto. }
  pose proof (filteredAndSortedReceipts_sorted h now st Hcoll receipts
                (Hcomparable st eq_refl)) as Hsorted.
  assert (ReceiptTable.sortField (toggled st) = ReceiptTable.SortField.vendor
          \/ ReceiptTable.sortField (toggled st) = ReceiptTable.SortField.category ->
          JS.ConsistentComparator (JS.localeCompare h)) as Hcoll'
      by (rewrite Hfield; exact Hcoll).
  pose proof (filteredAndSortedReceipts_sorted h now (toggled st) Hcoll' receipts
                (Hcomparable (toggled st) Hfield)) as Hsorted'.
  set (shown := ReceiptTable.filteredAndSortedReceipts h now st receipts) in *.
  set (shown' := ReceiptTable.filteredAndSortedReceipts h now (toggled st) receipts) in *.
  assert (Permutation shown (filter (ReceiptTable.keeps h now st) receipts)) as Hperm
    by apply Array_sort_perm.
  assert (Permutation shown' (filter (ReceiptTable.keeps h now st) receipts)) as Hperm'.
  { unfold shown', ReceiptTable.filteredAndSortedReceipts. rewrite Array_sort_perm.
    rewrite (filter_ext _ _ (Hkeeps h now)). reflexivity. }
  rewrite <- (rev_involutive shown'). f_equal. symmetry.
  apply (sorted_permutation_unique (precedes h st) (fun r => In r receipts)).
  - intros a b Ha Hb. now apply Hties.
  - apply Forall_forall. intros r Hr.
    apply (Permutation_in _ Hperm) in Hr. now apply filter_In in Hr.
  - rewrite Hperm, <- Hperm'. apply Permutation_rev.
  - exact Hsorted.
  - apply (StronglySorted_weaken (fun _ => True) (fun a b => precedes h (toggled st) b a)).
    + intros a b _ _ Hab. now apply (toggled_precedes h st b a Hcoll).
    + apply Forall_forall; auto.
    + now apply StronglySorted_rev.
Qed.

(** The table sorted by amount, largest first. *)
Definition largestFirst : ReceiptTable.State :=
  ReceiptTable.mkState EmptyString "all" "all" ReceiptTable.SortField.amount
                       ReceiptTable.SortDirection.desc EmptyString EmptyString.

Lemma clicking_the_sorted_column_witness :
  ReceiptTable.filteredAndSortedReceipts Sample.utc Sample.now largestFirst
                                         Sample.receipts
  = [Sample.groceries; Sample.fuel; Sample.burger; Sample.coffee]
  /\ ReceiptTable.filteredAndSortedReceipts Sample.utc Sample.now
       (ReceiptTable.handleSort largestFirst ReceiptTable.SortField.amount)
       Sample.receipts
     = [Sample.coffee; Sample.burger; Sample.fuel; Sample.groceries].
Proof.
  split; [vm_compute; reflexivity |].
  etransitivity;
    [apply (clicking_the_sorted_column_reverses_the_rows Sample.utc Sample.now
              largestFirst Sample.receipts) | vm_compute; reflexivity].
  - discriminate.
  - intros [H | H]; discriminate.
  - cbn [precedes largestFirst ReceiptTable.sortField ReceiptTable.sortDirection].
    intros a b Ha Hb Hab Hba.
    assert (Receipts.amount a == Receipts.amount b) as Heq by lra. clear Hab Hba.
    cbv [Sample.receipts In] in Ha, Hb.
    repeat (destruct Ha as [<- | Ha]);
      repeat (destruct Hb as [<- | Hb]);
      try reflexivity; try contradiction; exfalso; revert Heq; vm_compute; discriminate.
Defined.

(* ===================================================================== *)
(** * What the table shows                                                *)
(* ===================================================================== *)

(** ** What each control asks of a record *)









Section PassFacts.
Import Receipts ReceiptTable.












End PassFacts.







(* ===================================================================== *)
(** * Upload validation: proofs                                           *)
(* ===================================================================== *)

Section UploadFacts.
Import ReceiptUpload.

Lemma Array_includes_In (l : list string) (s : string) :
  Array_includes l s = true <-> In s l.
Proof.
  unfold Array_includes. rewrite existsb_exists. split.
  - intros (x & Hin & Heq). apply String.eqb_eq in Heq. now subst.
  - intros Hin. exists s. split; [assumption | apply String.eqb_refl].
Qed.

Lemma acceptedb_spec (file : File) : acceptedb file = true <-> accepted file.
Proof.
  unfold acceptedb, accepted, check.
  destruct (Array_includes allowedTypes (type file)) eqn:Ht; simpl.
  - apply Array_includes_In in Ht.
    destruct (sizeLimit <? size file)%N eqn:Hs; simpl.
    + apply N.ltb_lt in Hs. unfold sizeLimit in Hs. split; [discriminate | lia].
    + apply N.ltb_ge in Hs. unfold sizeLimit in Hs. split; [auto | reflexivity].
  - split; [discriminate |]. intros [Hin _].
    assert (Array_includes allowedTypes (type file) = true) as Hc
      by (apply Array_includes_In; exact Hin).
    congruence.
Qed.

Lemma filterWithToasts_files (batch : list File) :
  fst (filterWithToasts batch) = filter acceptedb batch.
Proof.
  induction batch as [|f rest IH]; [reflexivity |].
  simpl. unfold acceptedb at 1.
  destruct (check f) as [keep raised].
  destruct (filterWithToasts rest) as [valid later]. simpl in *.
  destruct keep; now rewrite IH.
Qed.

Lemma check_cases (f : File) :
  check f = (acceptedb f, if acceptedb f then [] else [notice f]).
Proof.
  unfold acceptedb, notice, check.
  destruct (Array_includes allowedTypes (type f)); cbn [negb fst].
  - destruct (sizeLimit <? size f)%N; reflexivity.
  - reflexivity.
Qed.

Lemma filterWithToasts_toasts (batch : list File) :
  snd (filterWithToasts batch) = map notice (filter (fun f => negb (acceptedb f)) batch).
Proof.
  induction batch as [|f rest IH]; [reflexivity |].
  cbn [filterWithToasts filter]. rewrite check_cases.
  destruct (filterWithToasts rest) as [valid later]. cbn [snd] in IH. subst later.
  destruct (acceptedb f); reflexivity.
Qed.

End UploadFacts.

(** C9: a file of a batch is accepted exactly when its MIME type is one of the four
    allowed ones and its size is at most 10 MB.  The accepted files are appended to
    the selection in batch order whatever the other files of the batch are, each
    rejected file raises one notice that names it, a file of type application/zip is
    rejected whatever its size, and a JPEG of 15 MB is rejected. *)
Theorem handleFiles_accepts_exactly_valid_files :
  forall (files batch : list ReceiptUpload.File),
    (forall f, ReceiptUpload.acceptedb f = true <-> ReceiptUpload.accepted f)
    /\ fst (ReceiptUpload.handleFiles files batch)
       = files ++ filter ReceiptUpload.acceptedb batch
    /\ snd (ReceiptUpload.handleFiles files batch)
       = map ReceiptUpload.notice
             (filter (fun f => negb (ReceiptUpload.acceptedb f)) batch)
    /\ (forall f, In f batch ->
          (In f (fst (ReceiptUpload.handleFiles [] batch)) <-> ReceiptUpload.accepted f))
    /\ (forall nm sz,
          ReceiptUpload.acceptedb (ReceiptUpload.mkFile nm "application/zip" sz) = false)
    /\ (forall nm,
          ReceiptUpload.acceptedb
            (ReceiptUpload.mkFile nm "image/jpeg" (15 * 1024 * 1024)) = false).
Proof.
  intros files batch.
  pose proof (filterWithToasts_files batch) as Hf.
  pose proof (filterWithToasts_toasts batch) as Ht.
  unfold ReceiptUpload.handleFiles.
  destruct (ReceiptUpload.filterWithToasts batch) as [valid toasts]. simpl in *.
  subst valid toasts.
  split; [intro f; apply acceptedb_spec |].
  split; [reflexivity |].
  split; [reflexivity |].
  split; [| split; intros; reflexivity].
  intros f Hin. rewrite filter_In, acceptedb_spec. tauto.
Qed.

(* ===================================================================== *)
(** * The upload surface: selection, removal and submission               *)
(* ===================================================================== *)

(** What the user does on the upload surface, and the handler the markup binds to it:
    the drag events to [handleDrag], a drop to [handleDrop], the file input to
    [handleFiles], the button of a listed file to [removeFile] and the submit button
    to [handleSubmit]. *)
Inductive UploadEvent : Type :=
| Drag (eventType : string)
| Drop (droppedFiles : list ReceiptUpload.File)
| Choose (chosen : list ReceiptUpload.File)
| Remove (index : nat)
| Submit.

Definition dispatch (st : ReceiptUpload.State) (e : UploadEvent)
  : ReceiptUpload.State * list ReceiptUpload.Effect :=
  match e with
  | Drag eventType => (ReceiptUpload.handleDrag st eventType, [])
  | Drop droppedFiles => ReceiptUpload.handleDrop st droppedFiles
  | Choose chosen => ReceiptUpload.handleChange st chosen
  | Remove index => (ReceiptUpload.removeFile st index, [])
  | Submit => ReceiptUpload.handleSubmit st
  end.

(** The state after a sequence of events and the effects raised on the way. *)
Fixpoint run (st : ReceiptUpload.State) (events : list UploadEvent)
  : ReceiptUpload.State * list ReceiptUpload.Effect :=
  match events with
  | [] => (st, [])
  | e :: rest =>
      let '(st1, raised) := dispatch st e in
      let '(st2, later) := run st1 rest in
      (st2, raised ++ later)
  end.

Section SelectionFacts.
Import ReceiptUpload.

Lemma filterByIndex_keeps {A : Type} (l : list A) (k j : nat) :
  (k < j)%nat -> filterByIndex (fun i => negb (i =? k)%nat) j l = l.
Proof.
  revert j. induction l as [|y l IH]; intros j Hlt; [reflexivity |].
  cbn [filterByIndex].
  replace (j =? k)%nat with false by (symmetry; apply Nat.eqb_neq; lia).
  cbn [negb]. f_equal. apply IH. lia.
Qed.

Lemma filterByIndex_removes {A : Type} (l : list A) (index k : nat) :
  filterByIndex (fun i => negb (i =? k + index)%nat) k l
  = firstn index l ++ skipn (S index) l.
Proof.
  revert index k. induction l as [|x rest IH]; intros index k.
  - now destruct index.
  - cbn [filterByIndex]. destruct index as [|index].
    + rewrite Nat.add_0_r, Nat.eqb_refl. cbn [negb firstn skipn app].
      apply filterByIndex_keeps. lia.
    + replace (k =? k + S index)%nat with false by (symmetry; apply Nat.eqb_neq; lia).
      cbn [negb firstn skipn app]. f_equal.
      replace (k + S index)%nat with (S k + index)%nat by lia. apply IH.
Qed.

Lemma removeFile_files (st : State) (index : nat) :
  files (removeFile st index) = firstn index (files st) ++ skipn (S index) (files st).
Proof. unfold removeFile. cbn [files]. apply (filterByIndex_removes (files st) index 0). Qed.

Lemma handleFiles_selection (selected batch : list File) :
  fst (handleFiles selected batch) = selected ++ filter acceptedb batch.
Proof.
  unfold handleFiles. pose proof (filterWithToasts_files batch) as Hf.
  destruct (filterWithToasts batch) as [valid toasts]. cbn [fst] in *. now subst.
Qed.

Lemma Forall_accepted_filter (batch : list File) : Forall accepted (filter acceptedb batch).
Proof.
  apply Forall_forall. intros f Hf. apply filter_In in Hf. now apply acceptedb_spec.
Qed.

(** Every handler keeps a selection of accepted files, and hands only such files,
    and at least one, to [onUpload]. *)
Lemma dispatch_keeps_valid (st : State) (e : UploadEvent) :
  Forall accepted (files st) ->
  Forall accepted (files (fst (dispatch st e)))
  /\ forall uploaded, In (OnUpload uploaded) (snd (dispatch st e)) ->
       uploaded <> [] /\ Forall accepted uploaded.
Proof.
  intros Hvalid. destruct e as [eventType | dropped | chosen | index |]; cbn [dispatch].
  - split; [| intros ? []].
    unfold handleDrag.
    destruct (_ || _); [exact Hvalid |]. destruct (String.eqb _ _); exact Hvalid.
  - unfold handleDrop. pose proof (handleFiles_selection (files st) dropped) as Hs.
    destruct (handleFiles (files st) dropped) as [selected toasts]. cbn [fst snd files] in *.
    subst selected. split.
    + apply Forall_app. split; [exact Hvalid | apply Forall_accepted_filter].
    + intros uploaded Hin. apply in_map_iff in Hin. destruct Hin as (? & Heq & _). discriminate.
  - unfold handleChange. pose proof (handleFiles_selection (files st) chosen) as Hs.
    destruct (handleFiles (files st) chosen) as [selected toasts]. cbn [fst snd files] in *.
    subst selected. split.
    + apply Forall_app. split; [exact Hvalid | apply Forall_accepted_filter].
    + intros uploaded Hin. apply in_map_iff in Hin. destruct Hin as (? & Heq & _). discriminate.
  - cbn [fst snd]. split; [| intros ? []].
    rewrite removeFile_files. apply Forall_app. split.
    + rewrite <- (firstn_skipn index (files st)) in Hvalid.
      now apply Forall_app in Hvalid.
    + rewrite <- (firstn_skipn (S index) (files st)) in Hvalid.
      now apply Forall_app in Hvalid.
  - unfold handleSubmit. destruct (files st) as [|f rest] eqn:Hfiles; cbn [length Nat.eqb fst snd].
    + rewrite Hfiles. split; [constructor |]. intros uploaded [Heq | []]. discriminate.
    + cbn [files]. split; [constructor |].
      intros uploaded [Heq | []]. injection Heq as <-. split; [discriminate | exact Hvalid].
Qed.

Lemma run_keeps_valid (events : list UploadEvent) (st : State) :
  Forall accepted (files st) ->
  Forall accepted (files (fst (run st events)))
  /\ forall uploaded, In (OnUpload uploaded) (snd (run st events)) ->
       uploaded <> [] /\ Forall accepted uploaded.
Proof.
  revert st. induction events as [|e rest IH]; intros st Hvalid.
  - cbn. split; [exact Hvalid | intros ? []].
  - cbn [run]. destruct (dispatch_keeps_valid st e Hvalid) as [H1 H2].
    destruct (dispatch st e) as [st1 raised]. cbn [fst snd] in *.
    destruct (IH st1 H1) as [H3 H4].
    destruct (run st1 rest) as [st2 later]. cbn [fst snd] in *.
    split; [exact H3 |]. intros uploaded Hin. apply in_app_or in Hin. destruct Hin; auto.
Qed.

End SelectionFacts.

(** Whatever the user does on the upload surface, starting from the empty selection,
    every file of the selection has an allowed type and a size within the limit, and
    [onUpload] is only ever called with a list of such files that is not empty. *)
Theorem upload_hands_over_only_accepted_files :
  forall (events : list UploadEvent),
    Forall ReceiptUpload.accepted
           (ReceiptUpload.files (fst (run ReceiptUpload.initialState events)))
    /\ forall uploaded,
         In (ReceiptUpload.OnUpload uploaded) (snd (run ReceiptUpload.initialState events)) ->
         uploaded <> [] /\ Forall ReceiptUpload.accepted uploaded.
Proof.
  intros events. apply run_keeps_valid. constructor.
Qed.

(** [removeFile] takes the file at the given index out of the selection and keeps the
    others in their order; an index past the end changes nothing.  The highlight of
    the drop zone is not touched. *)
Theorem removeFile_takes_out_one_file :
  forall (st : ReceiptUpload.State) (index : nat),
    ReceiptUpload.files (ReceiptUpload.removeFile st index)
    = firstn index (ReceiptUpload.files st) ++ skipn (S index) (ReceiptUpload.files st)
    /\ ((index < length (ReceiptUpload.files st))%nat ->
        S (length (ReceiptUpload.files (ReceiptUpload.removeFile st index)))
        = length (ReceiptUpload.files st))
    /\ ((length (ReceiptUpload.files st) <= index)%nat ->
        ReceiptUpload.removeFile st index = st)
    /\ ReceiptUpload.dragActive (ReceiptUpload.removeFile st index)
       = ReceiptUpload.dragActive st.
Proof.
  intros st index. rewrite removeFile_files.
  split; [reflexivity |]. split; [| split].
  - intros Hlt. rewrite length_app, length_firstn, length_skipn. lia.
  - intros Hge. destruct st as [active selected].
    unfold ReceiptUpload.removeFile. cbn [ReceiptUpload.files ReceiptUpload.dragActive] in *.
    f_equal. etransitivity; [apply (filterByIndex_removes selected index 0) |].
    rewrite firstn_all2 by exact Hge. rewrite skipn_all2 by lia. apply app_nil_r.
  - reflexivity.
Qed.

(** [handleSubmit] on a selection that is not empty calls [onUpload] once, with the
    selection, and empties the selection; on the empty selection it only raises the
    notice.  So a second submission right after the first uploads nothing. *)
Theorem handleSubmit_uploads_the_selection_once :
  forall (st : ReceiptUpload.State),
    let noFiles :=
      ReceiptUpload.Notify
        (ReceiptUpload.mkToast "No files selected" "Please select files to upload."
                               "destructive") in
    (ReceiptUpload.files st = [] -> ReceiptUpload.handleSubmit st = (st, [noFiles]))
    /\ (ReceiptUpload.files st <> [] ->
        snd (ReceiptUpload.handleSubmit st) = [ReceiptUpload.OnUpload (ReceiptUpload.files st)])
    /\ ReceiptUpload.files (fst (ReceiptUpload.handleSubmit st)) = []
    /\ ReceiptUpload.handleSubmit (fst (ReceiptUpload.handleSubmit st))
       = (fst (ReceiptUpload.handleSubmit st), [noFiles]).
Proof.
  intros st noFiles. unfold ReceiptUpload.handleSubmit.
  destruct st as [active [|f rest]]; cbn; repeat split; intros; congruence.
Qed.

(* ===================================================================== *)
(** * Processing an upload: proofs                                        *)
(* ===================================================================== *)

(** Every call of the generator draws numbers in [0, 1) and reads a clock from 1970
    on, within the range of time values. *)
Definition ordinary (env : Processing.Environment) : Prop :=
  forall i, unitDraws (Processing.draws env i)
            /\ (0 <= Processing.clock env i <= 8640000000000000)%Z.

(** What the upload surface hands over after the files of [batch] have been chosen on
    an empty selection and the submit button has been pressed, and what the page's
    [handleFileUpload], which is the [onUpload] of the surface, makes of it. *)
Definition uploadBatch (h : JS.Host) (env : Processing.Environment)
  (batch : list ReceiptUpload.File) (page : Index.State)
  : option (Index.State * list Index.Effect) :=
  let '(selection, _) := ReceiptUpload.handleChange ReceiptUpload.initialState batch in
  match snd (ReceiptUpload.handleSubmit selection) with
  | [ReceiptUpload.OnUpload files] => Some (Processing.handleFileUpload h env files page)
  | _ => None
  end.

Section ProcessingFacts.
Import Receipts Processing.

Variables (h : JS.Host) (env : Environment).

Lemma generateFrom_succeeds (files : list ReceiptUpload.File) (i : nat) :
  ordinary env ->
  exists newReceipts,
    generateFrom h env i files = Some newReceipts
    /\ map fileName newReceipts = map ReceiptUpload.name files
    /\ map fileType newReceipts = map ReceiptUpload.type files.
Proof.
  intros Hord. revert i. induction files as [|file rest IH]; intros i.
  - exists []. repeat split; reflexivity.
  - cbn [generateFrom]. destruct (Hord i) as [Hdraws Hclock].
    destruct (generateMockReceipt_succeeds h (clock env i) (ReceiptUpload.name file)
                (ReceiptUpload.type file) (draws env i) Hdraws Hclock) as [r Hr].
    pose proof (generated_date h (clock env i) (ReceiptUpload.name file)
                  (ReceiptUpload.type file) (draws env i)) as Hg.
    rewrite Hr in Hg. destruct Hg as (_ & _ & Hname & Htype). rewrite Hr.
    destruct (IH (S i)) as (news & -> & Hnames & Htypes).
    exists (r :: news). cbn [map]. rewrite Hname, Htype, Hnames, Htypes.
    repeat split; reflexivity.
Qed.

(** A call that throws makes the whole [map] throw. *)
Lemma generateFrom_throws (files : list ReceiptUpload.File) (i k : nat)
  (file : ReceiptUpload.File) :
  nth_error files k = Some file ->
  generateMockReceipt h (clock env (i + k)) (ReceiptUpload.name file)
                      (ReceiptUpload.type file) (draws env (i + k)) = None ->
  generateFrom h env i files = None.
Proof.
  revert i k. induction files as [|first rest IH]; intros i k Hnth Hthrow.
  - destruct k; discriminate.
  - cbn [generateFrom]. destruct k as [|k].
    + injection Hnth as ->. rewrite Nat.add_0_r in Hthrow. now rewrite Hthrow.
    + destruct (generateMockReceipt h (clock env i) _ _ _); [| reflexivity].
      rewrite (IH (S i) k Hnth); [reflexivity |].
      now replace (S i + k)%nat with (i + S k)%nat by lia.
Qed.

End ProcessingFacts.

(** [handleFileUpload] on files whose receipts the generator can make adds one receipt
    per file after the receipts the page holds, in the order of the files and with
    their names and types, clears the processing flag, opens the records tab and
    raises one notice that counts the files. *)
Theorem handleFileUpload_adds_one_receipt_per_file :
  forall (h : JS.Host) (env : Processing.Environment) (files : list ReceiptUpload.File)
         (st : Index.State),
    ordinary env ->
    exists newReceipts,
      Processing.handleFileUpload h env files st
      = (Index.mkState (Index.receipts st ++ newReceipts) false "records" (Index.table st),
         [Index.Toast "Files processed successfully!"
            ("Extracted data from " ++ JS.decimal (Z.of_nat (length files)) ++ " file"
             ++ (if (1 <? length files)%nat then "s" else EmptyString))
            "default"])
      /\ map Receipts.fileName newReceipts = map ReceiptUpload.name files
      /\ map Receipts.fileType newReceipts = map ReceiptUpload.type files.
Proof.
  intros h env files st Hord.
  destruct (generateFrom_succeeds h env files 0 Hord) as (news & Hgen & Hnames & Htypes).
  exists news. split; [| split; assumption].
  unfold Processing.handleFileUpload, Processing.afterAwait. rewrite Hgen. reflexivity.
Qed.

(** An environment in which every call reads the sample clock and makes the sample
    draws. *)
Definition sampleEnvironment : Processing.Environment :=
  Processing.mkEnvironment
    (fun _ => Sample.now)
    (fun _ => Receipts.mkRandom (5 # 17) (75 # 20000) (14 # 365) "k3x9zq" (77 # 100)).

Lemma sampleEnvironment_ordinary : ordinary sampleEnvironment.
Proof.
  intros i. split; [exact sample_draws |].
  cbn. unfold Sample.now. lia.
Qed.

Definition latte : ReceiptUpload.File := ReceiptUpload.mkFile "latte.jpg" "image/jpeg" 248000.
Definition archive : ReceiptUpload.File := ReceiptUpload.mkFile "all.zip" "application/zip" 1000.
Definition invoice : ReceiptUpload.File := ReceiptUpload.mkFile "invoice.pdf" "application/pdf" 90000.

Definition emptyPage : Index.State :=
  Index.mkState [] false "upload" ReceiptTable.initialState.

Lemma handleFileUpload_witness :
  exists newReceipts,
    Processing.handleFileUpload Sample.newYork sampleEnvironment [latte; invoice] emptyPage
    = (Index.mkState newReceipts false "records" ReceiptTable.initialState,
       [Index.Toast "Files processed successfully!" "Extracted data from 2 files" "default"])
    /\ map Receipts.fileName newReceipts = ["latte.jpg"; "invoice.pdf"].
Proof.
  destruct (handleFileUpload_adds_one_receipt_per_file
              Sample.newYork sampleEnvironment [latte; invoice] emptyPage
              sampleEnvironment_ordinary) as (news & Hrun & Hnames & _).
  exists news. split; [exact Hrun | exact Hnames].
Defined.

(** When the generator throws on one of the files, [handleFileUpload] adds no receipt,
    not even for the files before that one; it leaves the tab as it is, clears the
    processing flag and raises the failure notice. *)
Theorem handleFileUpload_failure_adds_nothing :
  forall (h : JS.Host) (env : Processing.Environment) (files : list ReceiptUpload.File)
         (st : Index.State) (k : nat) (file : ReceiptUpload.File),
    nth_error files k = Some file ->
    Receipts.generateMockReceipt h (Processing.clock env k) (ReceiptUpload.name file)
      (ReceiptUpload.type file) (Processing.draws env k) = None ->
    Processing.handleFileUpload h env files st
    = (Index.mkState (Index.receipts st) false (Index.activeTab st) (Index.table st),
       [Index.Toast "Processing failed"
          "There was an error processing your files. Please try again." "destructive"]).
Proof.
  intros h env files st k file Hnth Hthrow.
  unfold Processing.handleFileUpload, Processing.afterAwait.
  rewrite (generateFrom_throws h env files 0 k file Hnth Hthrow). reflexivity.
Qed.

(** An environment whose second call reads the earliest time value there is, from
    which no earlier day can be reached. *)
Definition failingEnvironment : Processing.Environment :=
  Processing.mkEnvironment
    (fun i => match i with 1%nat => (-8640000000000000)%Z | _ => Sample.now end)
    (fun _ => Receipts.mkRandom (5 # 17) (75 # 20000) (14 # 365) "k3x9zq" (77 # 100)).

Lemma handleFileUpload_failure_witness :
  Processing.handleFileUpload Sample.newYork failingEnvironment [latte; invoice] emptyPage
  = (Index.mkState [] false "upload" ReceiptTable.initialState,
     [Index.Toast "Processing failed"
        "There was an error processing your files. Please try again." "destructive"]).
Proof.
  apply (handleFileUpload_failure_adds_nothing Sample.newYork failingEnvironment
           [latte; invoice] emptyPage 1 invoice).
  - reflexivity.
  - vm_compute. reflexivity.
Defined.

(** From the file input to the page: of a batch chosen on an empty selection and
    submitted, the files that pass the validation, and only they, become receipts,
    one each, in batch order; when no file passes, nothing is handed over. *)
Theorem accepted_files_become_receipts :
  forall (h : JS.Host) (env : Processing.Environment) (batch : list ReceiptUpload.File)
         (page : Index.State),
    ordinary env ->
    let valid := filter ReceiptUpload.acceptedb batch in
    (valid = [] -> uploadBatch h env batch page = None)
    /\ (valid <> [] ->
        exists newReceipts effects,
          uploadBatch h env batch page
          = Some (Index.mkState (Index.receipts page ++ newReceipts) false "records"
                                (Index.table page), effects)
          /\ map Receipts.fileName newReceipts = map ReceiptUpload.name valid
          /\ map Receipts.fileType newReceipts = map ReceiptUpload.type valid).
Proof.
  intros h env batch page Hord valid.
  unfold uploadBatch, ReceiptUpload.handleChange.
  pose proof (handleFiles_selection [] batch) as Hsel.
  cbn [ReceiptUpload.initialState ReceiptUpload.files ReceiptUpload.dragActive].
  destruct (ReceiptUpload.handleFiles [] batch) as [selected toasts].
  cbn [fst app] in Hsel. subst selected. fold valid.
  unfold ReceiptUpload.handleSubmit. cbn [ReceiptUpload.files ReceiptUpload.dragActive].
  destruct valid as [|f rest] eqn:Hvalid.
  - split; [reflexivity | congruence].
  - split; [discriminate | intros _]. cbn [length Nat.eqb snd].
    destruct (generateFrom_succeeds h env (f :: rest) 0 Hord) as (news & Hgen & Hnames & Htypes).
    exists news. eexists. split; [| split; assumption].
    unfold Processing.handleFileUpload, Processing.afterAwait. rewrite Hgen. reflexivity.
Qed.

Lemma accepted_files_witness :
  exists newReceipts effects,
    uploadBatch Sample.newYork sampleEnvironment [latte; archive; invoice] emptyPage
    = Some (Index.mkState newReceipts false "records" ReceiptTable.initialState, effects)
    /\ map Receipts.fileName newReceipts = ["latte.jpg"; "invoice.pdf"].
Proof.
  destruct (accepted_files_become_receipts Sample.newYork sampleEnvironment
              [latte; archive; invoice] emptyPage sampleEnvironment_ordinary) as [_ Hsome].
  destruct (Hsome ltac:(discriminate)) as (news & effects & Hrun & Hnames & _).
  exists news, effects. split; [exact Hrun | exact Hnames].
Defined.

(** The export button is part of the table, which the page renders only when it holds
    a receipt: pressing it always downloads the CSV text and never raises the notice
    that there is nothing to export. *)
Theorem export_button_always_downloads :
  forall (h : JS.Host) (now : Z) (st : Index.State) (shown : list Receipts.Receipt),
    Processing.recordsTab st = Processing.Table shown ->
    shown = Index.receipts st
    /\ Index.handleExport h now st
       = (st, [Index.Download ("receipt-data-" ++ JS.toISODate now ++ ".csv")
                              (Index.csvContent h shown) "text/csv";
               Index.Toast "Export successful" "Receipt data has been downloaded as CSV."
                           "default"]).
Proof.
  intros h now st shown. unfold Processing.recordsTab, Index.handleExport.
  destruct (length (Index.receipts st) =? 0)%nat; [discriminate |].
  intros [= <-]. split; reflexivity.
Qed.

Lemma export_button_witness :
  exists csv,
    Index.handleExport Sample.utc Sample.now
      (Index.mkState Sample.receipts false "records" ReceiptTable.initialState)
    = (Index.mkState Sample.receipts false "records" ReceiptTable.initialState,
       [Index.Download "receipt-data-2024-03-15.csv" csv "text/csv";
        Index.Toast "Export successful" "Receipt data has been downloaded as CSV."
                    "default"]).
Proof.
  destruct (export_button_always_downloads Sample.utc Sample.now
              (Index.mkState Sample.receipts false "records" ReceiptTable.initialState)
              Sample.receipts eq_refl) as [_ Hexport].
  eexists. exact Hexport.
Defined.

